(** * gbdxtools.ipe.util: georeferencing transforms and TOA calibration

    A shallow embedding of [src/gbdxtools/ipe/util.py] (Python 2):
    - [RatPolyTransform], the rational-polynomial (RPC) transform,
    - [AffineTransform], the affine transform built on the [affine] package,
    - [calc_toa_gain_offset] and [calc_toa_gain_offset_new], the
      top-of-atmosphere calibration for the two metadata shapes,
    - [mkdir_p], on a model of the directory tree.

    Numbers are kept abstract (class [Number]): every structural theorem
    holds whatever the arithmetic is, IEEE doubles included.  The algebraic
    theorems name the exact-arithmetic laws they use ([ExactRing],
    [ExactField]) as hypotheses; rounding is not modelled.

    numpy arrays are nested lists.  An array with a zero-length axis keeps
    no record of the axes below it, so the theorems are stated for arrays
    without zero-length axes. *)

From Stdlib Require Import ZArith List String Ascii Bool Lia Ring Field.
From Stdlib Require Import QArith Qcanon.
From stdpp Require Import base option list strings gmap.

Set Default Proof Using "Type".

(** ** Numbers *)

(** The arithmetic the source performs on Python [int]/[float] values and
    numpy elements. *)
Class Number (F : Type) := {
  zero : F;
  one : F;
  add : F → F → F;
  sub : F → F → F;
  mul : F → F → F;
  div : F → F → F;
  neg : F → F;
  power : F → N → F;      (* [x ** n] for an integer literal [n] *)
  of_Z : Z → F;           (* an integer literal *)
  eqb : F → F → bool;     (* [==] *)
  trunc : F → Z           (* conversion to an integer, toward zero *)
}.

Declare Scope num_scope.
Delimit Scope num_scope with num.
Infix "+" := add : num_scope.
Infix "-" := sub : num_scope.
Infix "*" := mul : num_scope.
Infix "/" := div : num_scope.
Notation "- x" := (neg x) : num_scope.
Infix "**" := power (at level 30, right associativity) : num_scope.

(** Exact arithmetic: the laws of a commutative ring, and of a field. *)
Class ExactRing (F : Type) `{Number F} : Prop := {
  exact_ring : ring_theory zero one add mul sub neg (@eq F);
  exact_eqb : ∀ x y : F, eqb x y = true ↔ x = y
}.

Class ExactField (F : Type) `{Number F} : Prop := {
  exact_field :
    field_theory zero one add mul sub neg div (λ x, div one x) (@eq F);
  exact_field_eqb : ∀ x y : F, eqb x y = true ↔ x = y
}.

(** Integers (Python [int], with floor division). *)
#[global] Instance Z_number : Number Z := {|
  zero := 0%Z; one := 1%Z;
  add := Z.add; sub := Z.sub; mul := Z.mul; div := Z.div; neg := Z.opp;
  power := λ x n, Z.pow x (Z.of_N n);
  of_Z := λ z, z;
  eqb := Z.eqb;
  trunc := λ z, z
|}.

(** Rationals in canonical form. *)
#[global] Instance Qc_number : Number Qc := {|
  zero := Q2Qc 0; one := Q2Qc 1;
  add := Qcplus; sub := Qcminus; mul := Qcmult; div := Qcdiv; neg := Qcopp;
  power := λ x n, Qcpower x (N.to_nat n);
  of_Z := λ z, Q2Qc (inject_Z z);
  eqb := λ x y, Qeq_bool x y;
  trunc := λ q, Z.quot (Qnum q) (Zpos (Qden q))
|}.

(** [astype(np.int32)]: truncation toward zero.  A value outside the
    32-bit range converts to the minimum integer (what the x86 conversion
    instruction yields). *)
Definition np_int32 {F} `{Number F} (x : F) : Z :=
  let t := trunc x in
  if ((- 2 ^ 31 <=? t) && (t <? 2 ^ 31))%Z then t else (- 2 ^ 31)%Z.

(** Conversion to a 64-bit integer, in the same way. *)
Definition np_int64 {F} `{Number F} (x : F) : Z :=
  let t := trunc x in
  if ((- 2 ^ 63 <=? t) && (t <? 2 ^ 63))%Z then t else (- 2 ^ 63)%Z.

(** The element types of the coordinate arrays: [int64] and [float64]. *)
Inductive dtype := Int64 | Float64.

(** [a[i] = v]: the value stored is [v] converted to the element type of
    the array [a]. *)
Definition np_store {F} `{Number F} (dt : dtype) (v : F) : F :=
  match dt with
  | Int64 => of_Z (np_int64 v)
  | Float64 => v
  end.

(** ** Exceptions *)

Inductive exn :=
| ValueError
| TypeError
| AssertionError
| NotImplementedError
| KeyError
| IndexError
| ZeroDivisionError
| LinAlgError
| TransformNotInvertibleError.

#[global] Instance exn_eq_dec : EqDecision exn.
Proof. solve_decision. Defined.

Inductive result (A : Type) :=
| Ok (a : A)
| Raise (e : exn).
Arguments Ok {A} a.
Arguments Raise {A} e.

#[global] Instance result_ret : MRet result := @Ok.
#[global] Instance result_bind : MBind result :=
  λ A B f m, match m with Ok a => f a | Raise e => Raise e end.
#[global] Instance result_fmap : FMap result :=
  λ A B f m, match m with Ok a => Ok (f a) | Raise e => Raise e end.

Definition from_option {A} (e : exn) (o : option A) : result A :=
  match o with Some a => Ok a | None => Raise e end.

(** [assert c]. *)
Definition py_assert (c : bool) : result unit :=
  if c then Ok () else Raise AssertionError.

(** ** Python values *)

Inductive seqkind := KList | KTuple | KNdarray.

#[global] Instance seqkind_eq_dec : EqDecision seqkind.
Proof. solve_decision. Defined.

(** [None], a number (an int or a float, the numpy scalars that arrays
    hold included), or a list, tuple or [numpy.ndarray] given by the items
    its iteration yields. *)
#[warnings="-register-all"] Inductive pyobj (E : Type) :=
| PyNone
| PyNum (x : E)
| PySeq (k : seqkind) (items : list (pyobj E)).
Arguments PyNone {E}.
Arguments PyNum {E} x.
Arguments PySeq {E} k items.

Abbreviation vec E := (list E).
Abbreviation mat E := (list (list E)).
Abbreviation cube E := (list (list (list E))).

Definition of_vec {E} (v : vec E) : pyobj E := PySeq KNdarray (PyNum <$> v).
Definition of_mat {E} (m : mat E) : pyobj E := PySeq KNdarray (of_vec <$> m).
Definition of_cube {E} (c : cube E) : pyobj E := PySeq KNdarray (of_mat <$> c).

Definition as_num {E} (a : pyobj E) : option E :=
  match a with PyNum x => Some x | _ => None end.
Definition as_vec {E} (a : pyobj E) : option (vec E) :=
  match a with PySeq KNdarray xs => mapM as_num xs | _ => None end.
Definition as_mat {E} (a : pyobj E) : option (mat E) :=
  match a with PySeq KNdarray xs => mapM as_vec xs | _ => None end.
Definition as_cube {E} (a : pyobj E) : option (cube E) :=
  match a with PySeq KNdarray xs => mapM as_mat xs | _ => None end.

(** [isinstance(v, (int, float, tuple))] *)
Definition is_int_float_tuple {E} (v : pyobj E) : bool :=
  match v with PyNum _ | PySeq KTuple _ => true | _ => false end.
(** [isinstance(v, np.ndarray)] *)
Definition is_ndarray {E} (v : pyobj E) : bool :=
  match v with PySeq KNdarray _ => true | _ => false end.
(** [iter(v)] *)
Definition py_iter {E} (v : pyobj E) : result (list (pyobj E)) :=
  match v with PySeq _ xs => Ok xs | _ => Raise TypeError end.

(** [a.shape], read off the first item at each level. *)
Fixpoint shape {E} (a : pyobj E) : list nat :=
  match a with
  | PySeq _ xs =>
      length xs :: match xs with x :: _ => shape x | [] => [] end
  | _ => []
  end.

(** [a[i, j, ...]] for an index within bounds. *)
Fixpoint item {E} (a : pyobj E) (idx : list nat) : option E :=
  match idx with
  | [] => as_num a
  | i :: idx' =>
      match a with
      | PySeq _ xs =>
          match xs !! i with Some x => item x idx' | None => None end
      | _ => None
      end
  end.

(** ** numpy *)

Section numpy.
Context {F : Type} `{Number F}.

(** Apply [f] to every element ([astype], [zeros_like], scalar operands). *)
Fixpoint nd_map {A B} (f : A → B) (a : pyobj A) : pyobj B :=
  match a with
  | PyNone => PyNone
  | PyNum x => PyNum (f x)
  | PySeq k xs => PySeq k (nd_map f <$> xs)
  end.

(** [np.asarray(v)]: nested lists and tuples become array axes. *)
Fixpoint np_asarray {E} (v : pyobj E) : pyobj E :=
  match v with
  | PySeq _ xs => PySeq KNdarray (np_asarray <$> xs)
  | _ => v
  end.

(** [np.array([v])] *)
Definition np_array1 {E} (v : pyobj E) : pyobj E :=
  PySeq KNdarray [np_asarray v].

Definition np_zeros_like (a : pyobj F) : pyobj F := nd_map (λ _, zero) a.

(** Element-wise operation on two arrays of one shape. *)
Fixpoint nd_zip (f : F → F → F) (a b : pyobj F) : pyobj F :=
  match a, b with
  | PyNum x, PyNum y => PyNum (f x y)
  | PySeq k xs, PySeq _ ys =>
      PySeq k
        ((fix go (xs ys : list (pyobj F)) : list (pyobj F) :=
            match xs, ys with
            | x :: xs', y :: ys' => nd_zip f x y :: go xs' ys'
            | _, _ => []
            end) xs ys)
  | _, _ => PyNone
  end.

(** Broadcasting: shapes are aligned on their last axes; an axis of
    length 1 stretches. *)
Fixpoint broadcast_dims (r1 r2 : list nat) : option (list nat) :=
  match r1, r2 with
  | [], r | r, [] => Some r
  | d1 :: r1', d2 :: r2' =>
      r ← broadcast_dims r1' r2';
      if decide (d1 = d2) then Some (d1 :: r)
      else if decide (d1 = 1) then Some (d2 :: r)
      else if decide (d2 = 1) then Some (d1 :: r)
      else None
  end.

Definition broadcast_shapes (s1 s2 : list nat) : option (list nat) :=
  reverse <$> broadcast_dims (reverse s1) (reverse s2).

Fixpoint broadcast_to (s : list nat) (a : pyobj F) : pyobj F :=
  match s with
  | [] => a
  | n :: s' =>
      if decide (length (shape a) = length s) then
        match a with
        | PySeq k [x] => PySeq k (replicate n (broadcast_to s' x))
        | PySeq k xs => PySeq k ((λ x, broadcast_to s' x) <$> xs)
        | _ => a
        end
      else PySeq KNdarray (replicate n (broadcast_to s' a))
  end.

(** A numpy binary operator on numbers and arrays. *)
Definition np_arith (f : F → F → F) (a b : pyobj F) : result (pyobj F) :=
  match a, b with
  | PyNum x, PyNum y => Ok (PyNum (f x y))
  | PyNum x, PySeq KNdarray _ => Ok (nd_map (f x) b)
  | PySeq KNdarray _, PyNum y => Ok (nd_map (λ x, f x y) a)
  | PySeq KNdarray _, PySeq KNdarray _ =>
      s ← from_option ValueError (broadcast_shapes (shape a) (shape b));
      Ok (nd_zip f (broadcast_to s a) (broadcast_to s b))
  | _, _ => Raise TypeError
  end.

(** Broadcasting one axis of two typed arrays. *)
Definition broadcast2 {A B C} (g : A → B → result C)
    (xs : list A) (ys : list B) : result (list C) :=
  if decide (length xs = length ys) then mapM (λ p, g p.1 p.2) (zip xs ys)
  else match xs, ys with
       | [x], _ => mapM (g x) ys
       | _, [y] => mapM (λ x, g x y) xs
       | _, _ => Raise ValueError
       end.

Definition bvec (f : F → F → F) : vec F → vec F → result (vec F) :=
  broadcast2 (λ x y, Ok (f x y)).
Definition bmat (f : F → F → F) : mat F → mat F → result (mat F) :=
  broadcast2 (bvec f).
Definition bcube (f : F → F → F) : cube F → cube F → result (cube F) :=
  broadcast2 (bmat f).
(** A 3-d array against a 2-d one: the 2-d operand is used at every index
    of axis 0. *)
Definition cube_mat (f : F → F → F) (c : cube F) (m : mat F)
    : result (cube F) :=
  mapM (λ p, bmat f p m) c.

Definition ncols {A} (m : list (list A)) : nat :=
  match m with r :: _ => length r | [] => 0 end.

(** Reductions start from the first element, as [np.add.reduce] does. *)
Definition sum_list (l : list F) : F :=
  match l with [] => zero | x :: xs => foldl add x xs end.

Definition dotprod (u v : vec F) : F := sum_list (zip_with mul u v).

Definition rows_of_length {A} (n : nat) (m : list (list A)) : bool :=
  forallb (λ r, Nat.eqb (length r) n) m.

(** [np.vstack([u, v])] for two 1-d arrays. *)
Definition np_vstack2 (u v : vec F) : result (mat F) :=
  if decide (length u = length v) then Ok [u; v] else Raise ValueError.

(** [np.vsplit(m, 2)] *)
Definition np_vsplit2 (m : mat F) : result (mat F * mat F) :=
  if Nat.even (length m)
  then Ok (take (length m / 2) m, drop (length m / 2) m)
  else Raise ValueError.

(** [np.hsplit(m, 2)] for a 2-d array. *)
Definition np_hsplit2 (m : mat F) : result (mat F * mat F) :=
  if Nat.even (ncols m)
  then Ok (take (ncols m / 2) <$> m, drop (ncols m / 2) <$> m)
  else Raise ValueError.

(** [np.transpose(m)] for a 2-d array. *)
Definition mat_transpose (m : mat F) : mat F :=
  (λ j, (λ r, default zero (r !! j)) <$> m) <$> seq 0 (ncols m).

(** [np.dot] of two 2-d arrays, and of a 2-d array with a 1-d one. *)
Definition np_dot_mm (a b : mat F) : result (mat F) :=
  if rows_of_length (length b) a
  then Ok ((λ r, dotprod r <$> mat_transpose b) <$> a)
  else Raise ValueError.

Definition np_dot_mv (a : mat F) (v : vec F) : result (vec F) :=
  if rows_of_length (length v) a
  then Ok ((λ r, dotprod r v) <$> a)
  else Raise ValueError.

(** [np.sum(m, axis=0)] *)
Definition np_sum_axis0 (m : mat F) : vec F :=
  match m with [] => [] | r :: rs => foldl (zip_with add) r rs end.

(** [np.ones(n)] and [np.ones((m, n))] *)
Definition np_ones (n : nat) : vec F := replicate n one.
Definition np_ones2 (m n : nat) : mat F := replicate m (np_ones n).

(** [v[[i, j, ...]]] *)
Definition take_indices (v : vec F) (idx : list nat) : result (vec F) :=
  mapM (λ i, from_option IndexError (v !! i)) idx.

(** [m[:, :, np.newaxis]] *)
Definition expand_mat {A} (m : list (list A)) : list (list (list A)) :=
  (λ r : list A, (λ x, [x]) <$> r) <$> m.

(** [np.atleast_3d].  Arrays of more than three axes are not carried: in
    [rev] the stacking inside [_rpc] rejects them with [ValueError]. *)
Definition atleast_3d (a : pyobj F) : result (cube F) :=
  match a with
  | PyNum x => Ok [[[x]]]
  | _ =>
      match as_vec a with
      | Some v => Ok (expand_mat [v])
      | None =>
          match as_mat a with
          | Some m => Ok (expand_mat m)
          | None => from_option ValueError (as_cube a)
          end
      end
  end.

(** Concatenation along axis 2; the other axes must agree. *)
Definition concat2 (c1 c2 : cube F) : result (cube F) :=
  if decide (length <$> c1 = length <$> c2)
  then Ok (zip_with (zip_with app) c1 c2)
  else Raise ValueError.

Definition concat_axis2 (cs : list (cube F)) : result (cube F) :=
  match cs with
  | [] => Raise ValueError
  | c :: cs' => foldl (λ acc c', a ← acc; concat2 a c') (Ok c) cs'
  end.

(** [np.dstack] *)
Definition np_dstack (arrays : list (pyobj F)) : result (cube F) :=
  cs ← mapM atleast_3d arrays; concat_axis2 cs.

(** Length of axis 2. *)
Definition depth {A} (c : list (list (list A))) : nat :=
  match c with p :: _ => ncols p | [] => 0 end.

(** [np.dsplit(x, 3)] *)
Definition np_dsplit3 (x : cube F) : result (cube F * cube F * cube F) :=
  let k := depth x / 3 in
  if decide (depth x mod 3 = 0)
  then Ok ((λ p : mat F, take k <$> p) <$> x,
           (λ p : mat F, (λ v, take k (drop k v)) <$> p) <$> x,
           (λ p : mat F, drop (2 * k) <$> p) <$> x)
  else Raise ValueError.

(** [np.inner(a, x)] for a 2-d [a] and 3-d [x]: the last axes contract. *)
Definition np_inner (a : mat F) (x : cube F) : result (cube F) :=
  if forallb (rows_of_length (ncols a)) x
  then Ok ((λ r, (λ p : mat F, (λ v, dotprod r v) <$> p) <$> x) <$> a)
  else Raise ValueError.

Definition at3 (c : cube F) (i j k : nat) : F :=
  match c !! i with
  | Some p =>
      match p !! j with
      | Some r => default zero (r !! k)
      | None => zero
      end
  | None => zero
  end.

(** [np.rollaxis(c, 0, 3)]: axis 0 becomes the last axis. *)
Definition rollaxis_0_3 (c : cube F) : cube F :=
  (λ m, (λ n, (λ i, at3 c i m n) <$> seq 0 (length c))
          <$> seq 0 (depth c))
    <$> seq 0 (ncols c).

(** [np.rollaxis(c, 2)]: the last axis becomes axis 0. *)
Definition rollaxis_2_0 (c : cube F) : cube F :=
  (λ i, (λ m, (λ n, at3 c m n i) <$> seq 0 (ncols c))
          <$> seq 0 (length c))
    <$> seq 0 (depth c).

(** [a.squeeze()]: axes of length 1 disappear. *)
Fixpoint np_squeeze {E} (a : pyobj E) : pyobj E :=
  match a with
  | PySeq k [x] => np_squeeze x
  | PySeq k xs => PySeq k (np_squeeze <$> xs)
  | _ => a
  end.

(** [np.asarray(rs)] for a list of arrays: they must have one shape. *)
Definition np_stack (rs : list (pyobj F)) : result (pyobj F) :=
  match rs with
  | [] => Ok (PySeq KNdarray [])
  | r :: rs' =>
      if forallb (λ r', bool_decide (shape r' = shape r)) rs'
      then Ok (PySeq KNdarray rs)
      else Raise ValueError
  end.

Definition child {E} (i : nat) (a : pyobj E) : pyobj E :=
  match a with PySeq _ xs => default PyNone (xs !! i) | _ => PyNone end.

(** [stack_items f ys ts i]: for the items [ts] of a template, numbered
    from [i], apply [f] to the item and to the items of that number of
    all of [ys]. *)
Definition stack_items {E} (f : pyobj E → list (pyobj E) → pyobj E)
    (ys : list (pyobj E)) : list (pyobj E) → nat → list (pyobj E) :=
  fix go ts i :=
    match ts with
    | [] => []
    | t' :: ts' => f t' (child i <$> ys) :: go ts' (S i)
    end.

(** [push_last t ys] stacks the arrays [ys], all shaped like [t], along a
    new last axis. *)
Fixpoint push_last {E} (t : pyobj E) (ys : list (pyobj E)) : pyobj E :=
  match t with
  | PySeq _ ts => PySeq KNdarray (stack_items push_last ys ts 0)
  | _ => PySeq KNdarray ys
  end.

(** [np.transpose(a)]: the axes are reversed. *)
Fixpoint np_transpose {E} (a : pyobj E) : pyobj E :=
  match a with
  | PySeq k xs =>
      match np_transpose <$> xs with
      | [] => PySeq KNdarray []
      | t :: ts => push_last t (t :: ts)
      end
  | _ => a
  end.

End numpy.

(** ** Python operators on numbers and arrays *)

Section operators.
Context {F : Type} `{Number F}.

(** [-v]: numbers and arrays negate, lists and tuples have no unary minus. *)
Definition py_neg (v : pyobj F) : result (pyobj F) :=
  match v with
  | PyNum x => Ok (PyNum (neg x))
  | PySeq KNdarray _ => Ok (nd_map neg v)
  | _ => Raise TypeError
  end.

(** [[-e for e in other]] *)
Definition neg_each (other : pyobj F) : result (pyobj F) :=
  items ← py_iter other;
  negs ← mapM py_neg items;
  Ok (PySeq KList negs).

(** [isinstance(other, Sequence) and len(other) == 2]: lists and tuples
    are sequences, arrays are not. *)
Definition is_pair (other : pyobj F) : bool :=
  match other with
  | PySeq KList [_; _] | PySeq KTuple [_; _] => true
  | _ => false
  end.

(** The entries of [np.asarray(other)] for a sequence of numbers.  An entry
    that is not a number cannot take part in the arithmetic that follows
    ([TypeError]); nested sequences are outside the model. *)
Definition shift_of (other : pyobj F) : result (vec F) :=
  match other with
  | PySeq _ items => from_option TypeError (mapM as_num items)
  | _ => Raise TypeError
  end.

(** [v * s] and [v + s] for a float [s]. *)
Definition py_mul_num (v : pyobj F) (s : F) : result (pyobj F) :=
  match v with
  | PyNum x => Ok (PyNum (mul x s))
  | PySeq KNdarray _ => Ok (nd_map (λ x, mul x s) v)
  | _ => Raise TypeError
  end.

(** [x / y] on Python floats. *)
Definition py_div (x y : F) : result F :=
  if eqb y zero then Raise ZeroDivisionError else Ok (div x y).

Definition py_add_num (v : pyobj F) (s : F) : result (pyobj F) :=
  match v with
  | PyNum x => Ok (PyNum (add x s))
  | PySeq KNdarray _ => Ok (nd_map (λ x, add x s) v)
  | _ => Raise TypeError
  end.

End operators.

(** ** RatPolyTransform *)

Module RatPolyTransform.
Section RatPolyTransform.
Context {F : Type} `{Number F}.
(** [numpy.linalg.pinv], the Moore-Penrose pseudo-inverse; it raises
    [LinAlgError] on a matrix it cannot decompose. *)
Variable pinv : mat F → result (mat F).
Local Open Scope num_scope.

Record t := mk {
  proj : option string;
  _A : mat F;
  _B : mat F;
  _offset : vec F;
  _scale : vec F;
  _px_offset : vec F;
  _px_scale : vec F;
  _offscl : mat F;
  _offscl_rev : mat F;
  _px_offscl_rev : mat F;
  _px_offscl : mat F;
  _A_rev : mat F
}.

(** [-offset/scale] *)
Definition neg_over (offset scale : vec F) : result (vec F) :=
  bvec div (neg <$> offset) scale.
(** [1.0/scale] *)
Definition recip (scale : vec F) : vec F := (λ s, one / s) <$> scale.

Definition __init__ (A B : mat F) (offset scale px_offset px_scale : vec F)
    (proj : option string) : result t :=
  offscl ← np_vstack2 offset scale;
  nos ← neg_over offset scale;
  offscl_rev ← np_vstack2 nos (recip scale);
  px_offscl_rev ← np_vstack2 px_offset px_scale;
  npos ← neg_over px_offset px_scale;
  px_offscl ← np_vstack2 npos (recip px_scale);
  AtA ← np_dot_mm (mat_transpose A) A;
  P ← pinv AtA;
  A_rev ← np_dot_mm P (mat_transpose A);
  Ok (mk proj A B offset scale px_offset px_scale
         offscl offscl_rev px_offscl_rev px_offscl A_rev).

(** Element-wise product and power of arrays of one shape. *)
Definition cmul (a b : cube F) : cube F :=
  zip_with (zip_with (zip_with mul)) a b.
Definition cpow (a : cube F) (n : N) : cube F :=
  (λ p : mat F, (λ r : vec F, (λ x, x ** n) <$> r) <$> p) <$> a.

Definition _rpc (x : cube F) : result (cube F) :=
  '(L, P, H) ← np_dsplit3 x;
  concat_axis2
    [ expand_mat (np_ones2 (length x) (ncols x));
      L; P; H; cmul L P; cmul L H; cmul P H;
      cpow L 2; cpow P 2; cpow H 2;
      cmul (cmul L P) H; cpow L 3; cmul L (cpow P 2); cmul L (cpow H 2);
      cmul (cpow L 2) P; cpow P 3; cmul P (cpow H 2);
      cmul (cpow L 2) H; cmul (cpow P 2) H; cpow H 3 ].

(** The first two statements of [rev]: scalars and tuples are wrapped into
    arrays; anything that is then not a pair of arrays is refused. *)
Definition rev_inputs (lng lat : pyobj F) : result (pyobj F * pyobj F) :=
  let '(lng, lat) :=
    if forallb is_int_float_tuple [lng; lat]
    then (np_array1 lng, np_array1 lat)
    else (lng, lat) in
  if negb (forallb is_ndarray [lng; lat])
  then Raise ValueError
  else Ok (lng, lat).

(** The elevation array: [z] itself when it is an array, otherwise
    [np.zeros_like(lng) + z]. *)
Definition rev_elevation (lng z : pyobj F) : result (pyobj F) :=
  if negb (is_ndarray z)
  then np_arith add (np_zeros_like lng) (np_asarray z)
  else Ok z.

Definition rev {O} (self : t) (lng lat z : pyobj F) (_type : F → O)
    : result (pyobj O) :=
  '(lng, lat) ← rev_inputs lng lat;
  z ← rev_elevation lng z;
  coord ← np_dstack [lng; lat; z];
  '(offset, scale) ← np_vsplit2 (_offscl self);
  scaled ← cube_mat mul coord scale;
  normed ← cube_mat add scaled offset;
  X ← _rpc normed;
  num ← np_inner (_A self) X;
  den ← np_inner (_B self) X;
  quot ← bcube div num den;
  let result := rollaxis_0_3 quot in
  '(rev_offset, rev_scale) ← np_vsplit2 (_px_offscl_rev self);
  scaled ← cube_mat mul result rev_scale;
  shifted ← cube_mat add scaled rev_offset;
  Ok (nd_map _type (np_squeeze (of_cube (rollaxis_2_0 shifted)))).

(** The default call [rev(lng, lat)]: [z=0], [_type=np.int32]. *)
Definition rev_default (self : t) (lng lat : pyobj F) : result (pyobj Z) :=
  rev self lng lat (PyNum zero) np_int32.

(** [[1, p]] stacked for the offset-and-scale product. *)
Definition offscl_apply (offscl : mat F) (coord : vec F) : result (vec F) :=
  stacked ← np_vstack2 (np_ones (length coord)) coord;
  prod ← bmat mul offscl stacked;
  Ok (np_sum_axis0 prod).

(** The scalar branch of [fwd]. *)
Definition fwd_point (self : t) (x y : pyobj F) : result (pyobj F) :=
  match x, y with
  | PyNum x, PyNum y =>
      normed ← offscl_apply (_px_offscl self) [x; y];
      full ← np_dot_mv (_A_rev self) normed;
      coord ← take_indices full [1; 2; 3];
      out ← offscl_apply (_offscl_rev self) coord;
      Ok (of_vec out)
  | PyNone, _ | _, PyNone => Raise TypeError
  | PyNum _, PySeq KList _ | PyNum _, PySeq KTuple _ => Raise TypeError
  | _, _ => Raise ValueError
  end.

(** The comprehension [[call(x_i, y_i, z_i) for x_i, y_i, z_i in
    izip(x, y, z)]]: the calls are made in order and stop at the first
    exception; the activations of all calls are added up. *)
Definition comprehension
    (call : pyobj F → pyobj F → pyobj F → nat * result (pyobj F))
    : list (pyobj F) → list (pyobj F) → list (pyobj F)
      → nat * result (list (pyobj F)) :=
  fix each xs ys zs :=
    match xs, ys, zs with
    | x_i :: xs', y_i :: ys', z_i :: zs' =>
        match call x_i y_i z_i with
        | (n, Ok r) =>
            let '(m, rs) := each xs' ys' zs' in
            ((n + m)%nat, cons r <$> rs)
        | (n, Raise e) => (n, Raise e)
        end
    | _, _, _ => (0%nat, Ok [])
    end.

(** [fwd], together with the number of activations of [fwd] the call
    makes (itself included).  A sequence or array [x] is walked in step
    with [y] and [z] and [fwd] is called on every triple. *)
Fixpoint fwd_run (self : t) (x y z : pyobj F) {struct x}
    : nat * result (pyobj F) :=
  match x with
  | PySeq _ xs =>
      let zs := match z with
                | PyNone => Ok (replicate (length xs) PyNone)
                | _ => py_iter z
                end in
      match py_iter y, zs with
      | Ok ys, Ok zs =>
          let '(n, rs) := comprehension (fwd_run self) xs ys zs in
          (S n, rs ← rs; np_transpose <$> np_stack rs)
      | Raise e, _ | _, Raise e => (1%nat, Raise e)
      end
  | _ => (1%nat, fwd_point self x y)
  end.

Definition fwd (self : t) (x y z : pyobj F) : result (pyobj F) :=
  (fwd_run self x y z).2.

Definition fwd_calls (self : t) (x y z : pyobj F) : nat :=
  (fwd_run self x y z).1.

(** [d0, d1 = coords.shape] *)
Definition unpack2 (s : list nat) : result (nat * nat) :=
  match s with [d0; d1] => Ok (d0, d1) | _ => Raise ValueError end.

(** In Python 2, [except ValueError, AssertionError:] catches
    [ValueError] alone (and binds it to the name [AssertionError]). *)
Definition __call__ (self : t) (coords : pyobj F) : result (pyobj F) :=
  _ ← py_assert (is_ndarray coords);
  '(d0, d1) ←
    match ('(d0, d1) ← unpack2 (shape coords);
           _ ← py_assert (Nat.eqb d1 2);
           Ok (d0, d1)) with
    | Raise ValueError => Raise NotImplementedError
    | r => r
    end;
  if negb (Nat.eqb d1 2) then Raise NotImplementedError
  else
    m ← from_option ValueError (as_mat coords);
    '(xarr, yarr) ← np_hsplit2 m;
    fwd self (of_mat xarr) (of_mat yarr) PyNone.

(** [raise NotImplemented] raises [TypeError]: [NotImplemented] is not an
    exception. *)
Definition __add__ (self : t) (other : pyobj F) : result t :=
  if is_pair other then
    shift ← shift_of other;
    px_offset ← bvec sub (_px_offset self) shift;
    __init__ (_A self) (_B self) (_offset self) (_scale self)
             px_offset (_px_scale self) None
  else Raise TypeError.

Definition __sub__ (self : t) (other : pyobj F) : result t :=
  match (o ← py_neg other; __add__ self o) with
  | Ok r => Ok r
  | Raise _ => o ← neg_each other; __add__ self o
  end.

(** The RPC metadata [from_rpcs] reads. *)
Record rpcs := {
  lineNumCoefs : vec F;
  sampleNumCoefs : vec F;
  lineDenCoefs : vec F;
  sampleDenCoefs : vec F;
  lonScale : F;
  latScale : F;
  heightScale : F;
  lonOffset : F;
  latOffset : F;
  heightOffset : F;
  lineScale : F;
  sampleScale : F;
  lineOffset : F;
  sampleOffset : F;
  spatialReferenceSystem : option string
}.

Definition from_rpcs (r : rpcs) : result t :=
  P ← np_vstack2 (lineNumCoefs r) (sampleNumCoefs r);
  Q ← np_vstack2 (lineDenCoefs r) (sampleDenCoefs r);
  s0 ← py_div one (lonScale r);
  s1 ← py_div one (latScale r);
  s2 ← py_div one (heightScale r);
  let scale := [s0; s1; s2] in
  offset ← bvec mul [- lonOffset r; - latOffset r; - heightOffset r] scale;
  let px_scale := [lineScale r; sampleScale r] in
  let px_offset := [lineOffset r; sampleOffset r] in
  __init__ P Q offset scale px_offset px_scale (spatialReferenceSystem r).

End RatPolyTransform.
End RatPolyTransform.

(** ** The [affine] package *)

(** [affine.Affine], the class of the third-party [affine] package that
    [AffineTransform] wraps: the matrix [[a b c] [d e f] [0 0 1]], with the
    expressions of the package's methods. *)
Module Affine.
Section Affine.
Context {F : Type} `{Number F}.
Local Open Scope num_scope.

Record t := mk { a : F; b : F; c : F; d : F; e : F; f : F }.

Definition identity : t := mk one zero zero zero one zero.

(** [Affine.translation(xoff, yoff)] *)
Definition translation (xoff yoff : F) : t :=
  mk one zero xoff zero one yoff.

(** [Affine.from_gdal(c, a, b, f, d, e)]; members are converted to float
    by [x * 1.0]. *)
Definition from_gdal (c a b f d e : F) : t :=
  mk (a * one) (b * one) (c * one) (d * one) (e * one) (f * one).

Definition determinant (s : t) : F := a s * e s - b s * d s.

Definition is_degenerate (s : t) : bool := eqb (determinant s) zero.

(** [self == other], as tuples. *)
Definition equal (s o : t) : bool :=
  eqb (a s) (a o) && eqb (b s) (b o) && eqb (c s) (c o)
  && eqb (d s) (d o) && eqb (e s) (e o) && eqb (f s) (f o).

(** [self * other] for two transforms. *)
Definition mul (s o : t) : t :=
  mk (a s * a o + b s * d o)
     (a s * b o + b s * e o)
     (a s * c o + b s * f o + c s)
     (d s * a o + e s * d o)
     (d s * b o + e s * e o)
     (d s * c o + e s * f o + f s).

(** The image of the point [(x, y)]. *)
Definition apply (s : t) (x y : F) : F * F :=
  (x * a s + y * b s + c s, x * d s + y * e s + f s).

(** [self * (vx, vy)]: the same expression on whatever [vx] and [vy] are. *)
Definition mul_pair (s : t) (vx vy : pyobj F) : result (pyobj F * pyobj F) :=
  xa ← py_mul_num vx (a s);
  yb ← py_mul_num vy (b s);
  r1 ← np_arith add xa yb ≫= λ v, py_add_num v (c s);
  xd ← py_mul_num vx (d s);
  ye ← py_mul_num vy (e s);
  r2 ← np_arith add xd ye ≫= λ v, py_add_num v (f s);
  Ok (r1, r2).

(** [~self] *)
Definition invert (s : t) : result t :=
  if is_degenerate s then Raise TransformNotInvertibleError
  else
    let idet := one / determinant s in
    let ra := e s * idet in
    let rb := - b s * idet in
    let rd := - d s * idet in
    let re := a s * idet in
    Ok (mk ra rb (- c s * ra - f s * rb) rd re (- c s * rd - f s * re)).

(** [self.itransform(seq)] on an array [seq] of element type [dt]: the
    image of every row [(x, y)] is stored in its place, converted to the
    element type; the identity leaves [seq] alone. *)
Definition itransform (s : t) (dt : dtype) (seq : mat F) : result (mat F) :=
  if equal s identity then Ok seq
  else
    mapM (λ row, match row with
                 | [x; y] => Ok [np_store dt (x * a s + y * b s + c s);
                                 np_store dt (x * d s + y * e s + f s)]
                 | _ => Raise ValueError
                 end) seq.

End Affine.
End Affine.

(** ** AffineTransform *)

Module AffineTransform.
Section AffineTransform.
Context {F : Type} `{Number F}.
Local Open Scope num_scope.

Record t := mk {
  _affine : Affine.t (F:=F);
  _iaffine : option (Affine.t (F:=F));
  proj : option string
}.

Definition __init__ (affine : Affine.t) (proj : option string) : t :=
  mk affine None proj.

(** [if self._iaffine is None: self._iaffine = ~self._affine] *)
Definition cached_inverse (self : t) : result (Affine.t * t) :=
  match _iaffine self with
  | Some i => Ok (i, self)
  | None =>
      i ← Affine.invert (_affine self);
      Ok (i, mk (_affine self) (Some i) (proj self))
  end.

(** The methods that fill the cache return the object's new state next to
    their outcome. *)
Definition rev (self : t) (lng lat z : pyobj F) : result (pyobj Z) * t :=
  match cached_inverse self with
  | Raise e => (Raise e, self)
  | Ok (i, self') =>
      ('(r1, r2) ← Affine.mul_pair i lng lat;
       nd_map np_int32 <$> np_stack [r1; r2],
       self')
  end.

Definition fwd (self : t) (x y z : pyobj F) : result (pyobj F) :=
  '(r1, r2) ← Affine.mul_pair (_affine self) x y;
  Ok (PySeq KTuple [r1; r2]).

(** [isinstance(coords, np.ndarray) and len(coords.shape) == 2
     and coords.shape[1] == 2] *)
Definition is_Nx2 (coords : pyobj F) : bool :=
  is_ndarray coords
  && match shape coords with [_; d1] => Nat.eqb d1 2 | _ => false end.

(** [dt] is the element type of [coords], which [np.copy] keeps. *)
Definition __call__ (self : t) (dt : dtype) (coords : pyobj F)
    : result (pyobj F) :=
  _ ← py_assert (is_Nx2 coords);
  _coords ← from_option ValueError (as_mat coords);
  _coords ← Affine.itransform (_affine self) dt _coords;
  Ok (of_mat _coords).

Definition inverse (self : t) (dt : dtype) (coords : pyobj F)
    : result (pyobj F) * t :=
  match py_assert (is_Nx2 coords) with
  | Raise e => (Raise e, self)
  | Ok _ =>
      match cached_inverse self with
      | Raise e => (Raise e, self)
      | Ok (i, self') =>
          (_coords ← from_option ValueError (as_mat coords);
           _coords ← Affine.itransform i dt _coords;
           Ok (of_mat _coords),
           self')
      end
  end.

Definition __add__ (self : t) (other : pyobj F) : result t :=
  if is_pair other then
    shift ← shift_of other;
    match shift with
    | [s0; s1] =>
        Ok (__init__ (Affine.mul (_affine self) (Affine.translation s0 s1))
                     (proj self))
    | _ => Raise IndexError
    end
  else Raise TypeError.

Definition __sub__ (self : t) (other : pyobj F) : result t :=
  match (o ← py_neg other; __add__ self o) with
  | Ok r => Ok r
  | Raise _ => o ← neg_each other; __add__ self o
  end.

(** The georeference metadata [from_georef] reads. *)
Record georef := {
  translateX : F;
  scaleX : F;
  shearX : F;
  translateY : F;
  shearY : F;
  scaleY : F;
  spatialReferenceSystemCode : option string
}.

Definition from_georef (g : georef) : t :=
  let tfm := Affine.from_gdal (translateX g) (scaleX g) (shearX g)
                              (translateY g) (shearY g) (scaleY g) in
  __init__ tfm (spatialReferenceSystemCode g).

End AffineTransform.
End AffineTransform.

(** ** TOA calibration *)

Section calibration.
Context {F : Type} `{Number F}.
(** [np.cos], [np.deg2rad], [np.pi]. *)
Variables (np_cos np_deg2rad : F → F) (np_pi : F).
(** [ephem]: the Sun's distance from the Earth, in astronomical units, for
    an observer at (lon, lat, elevation) and the acquisition time given in
    milliseconds. *)
Variable earth_distance : F → F → F → F → F.
(** [gbdxtools.ipe.constants]: per-band gain, offset and solar irradiance,
    keyed by sensor and band set. *)
Variables DG_ABSCAL_GAIN DG_ABSCAL_OFFSET DG_ESUN : gmap string (vec F).
Local Open Scope num_scope.

(** [str.upper] on ASCII text. *)
Definition upper_ascii (ch : ascii) : ascii :=
  let n := nat_of_ascii ch in
  if (Nat.leb 97 n && Nat.leb n 122)%bool then ascii_of_nat (n - 32) else ch.

Fixpoint upper (s : string) : string :=
  match s with
  | EmptyString => EmptyString
  | String ch s' => String (upper_ascii ch) (upper s')
  end.

(** The legacy metadata [calc_toa_gain_offset] reads. *)
Record meta := {
  satid : string;
  bandid : string;
  abscalfactor : vec F;
  effbandwidth : vec F;
  latlonhae : vec F;
  img_datetime_obj_utc : F;
  mean_sun_el : F
}.

Definition table_lookup (table : gmap string (vec F)) (key : string)
    : result (vec F) :=
  from_option KeyError (table !! key).

(** [zip(scale, scale2, offset)] *)
Fixpoint zip3 {A B C} (xs : list A) (ys : list B) (zs : list C)
    : list (A * B * C) :=
  match xs, ys, zs with
  | x :: xs', y :: ys', z :: zs' => (x, y, z) :: zip3 xs' ys' zs'
  | _, _, _ => []
  end.

Definition calc_toa_gain_offset (m : meta) : result (list (F * F * F)) :=
  let sat_index := (upper (satid m) +:+ "_" +:+ upper (bandid m))%string in
  let acf := abscalfactor m in
  let ebw := effbandwidth m in
  gain ← table_lookup DG_ABSCAL_GAIN sat_index;
  ratio ← bvec div acf ebw;
  scale ← bvec mul ratio gain;
  offset ← table_lookup DG_ABSCAL_OFFSET sat_index;
  let e_sun_index := (upper (satid m) +:+ "_" +:+ upper (bandid m))%string in
  e_sun ← table_lookup DG_ESUN e_sun_index;
  lon ← from_option IndexError (latlonhae m !! 1%nat);
  lat ← from_option IndexError (latlonhae m !! 0%nat);
  elevation ← from_option IndexError (latlonhae m !! 2%nat);
  let d_es := earth_distance lon lat elevation (img_datetime_obj_utc m) in
  let theta_s := of_Z 90 - mean_sun_el m in
  let scale2 :=
    (λ es, (d_es ** 2 * np_pi) / (es * np_cos (np_deg2rad theta_s)))
      <$> e_sun in
  Ok (zip3 scale scale2 offset).

End calibration.

(** ** TOA calibration, second metadata shape *)

Section calibration_new.
Context {F : Type} `{Number F}.
Variables (np_cos np_deg2rad : F → F) (np_pi : F).
(** [shapely]: the geometries, [wkt.loads] and [footprint.centroid]. *)
Variable geometry : Type.
Variable wkt_loads : string → result geometry.
Variable centroid : geometry → geometry.
(** [ephem]: the Sun's distance for an observer at (lon, lat, elevation)
    and the acquisition date given as text. *)
Variable earth_distance : F → F → F → string → F.
Variables DG_ABSCAL_GAIN DG_ABSCAL_OFFSET DG_ESUN : gmap string (vec F).
Local Open Scope num_scope.

(** The metadata [calc_toa_gain_offset_new] reads. *)
Record image_meta := {
  sensorAlias : string;
  imageBoundsWGS84 : string;
  absoluteCalibrationFactors : vec F;
  effectiveBandwidths : vec F;
  acquisitionDate : string;
  sunElevation : F
}.

(** [lon, lat = point]: a [shapely] point is not iterable, the unpacking
    raises [TypeError]. *)
Definition unpack_point (point : geometry) : result (F * F) :=
  Raise TypeError.

Definition calc_toa_gain_offset_new (m : image_meta)
    : result (list (F * F * F)) :=
  let sat_index := sensorAlias m in
  footprint ← wkt_loads (imageBoundsWGS84 m);
  let acf := absoluteCalibrationFactors m in
  let ebw := effectiveBandwidths m in
  gain ← table_lookup DG_ABSCAL_GAIN sat_index;
  ratio ← bvec div acf ebw;
  scale ← bvec mul ratio gain;
  offset ← table_lookup DG_ABSCAL_OFFSET sat_index;
  e_sun ← table_lookup DG_ESUN sat_index;
  '(lon, lat) ← unpack_point (centroid footprint);
  let d_es := earth_distance lon lat zero (acquisitionDate m) in
  let theta_s := of_Z 90 - sunElevation m in
  let scale2 :=
    (λ es, (d_es ** 2 * np_pi) / (es * np_cos (np_deg2rad theta_s)))
      <$> e_sun in
  Ok (zip3 scale scale2 offset).

End calibration_new.

(** ** [mkdir_p] and the directory tree *)

(** The part of the standard [os] module that [mkdir_p] uses, on a tree
    of directories and regular files (Python 2.7; no links, no
    permissions). *)
Module os.

Inductive errno := EEXIST | ENOENT | ENOTDIR.

#[global] Instance errno_eq_dec : EqDecision errno.
Proof. solve_decision. Defined.

Inductive node := Dir | File.

(** An absolute path without [.] and [..], as its components, the last
    one first: [/a/b/c] is [["c"; "b"; "a"]], the root is [[]]. *)
Definition path := list string.

(** The entries below the root, which is always a directory. *)
Definition fs := gmap path node.

(** Resolving [p] as a directory, component by component from the root:
    the first component that is missing gives [ENOENT], the first one that
    is a regular file [ENOTDIR]. *)
Fixpoint walk (s : fs) (p : path) : option errno :=
  match p with
  | [] => None
  | _ :: parent =>
      match walk s parent with
      | Some e => Some e
      | None =>
          match s !! p with
          | Some Dir => None
          | Some File => Some ENOTDIR
          | None => Some ENOENT
          end
      end
  end.

Definition stat (s : fs) (p : path) : errno + node :=
  match p with
  | [] => inr Dir
  | _ :: parent =>
      match walk s parent with
      | Some e => inl e
      | None =>
          match s !! p with
          | Some n => inr n
          | None => inl ENOENT
          end
      end
  end.

(** [os.path.exists], [os.path.isdir] *)
Definition path_exists (s : fs) (p : path) : bool :=
  match stat s p with inr _ => true | inl _ => false end.
Definition path_isdir (s : fs) (p : path) : bool :=
  match stat s p with inr Dir => true | _ => false end.

(** [os.mkdir(p)]: the outcome ([None] for a normal return, or the error
    number of the [OSError]) and the tree afterwards. *)
Definition mkdir (s : fs) (p : path) : option errno * fs :=
  match p with
  | [] => (Some EEXIST, s)
  | _ :: parent =>
      match walk s parent with
      | Some e => (Some e, s)
      | None =>
          match s !! p with
          | Some _ => (Some EEXIST, s)
          | None => (None, <[p := Dir]> s)
          end
      end
  end.

(** [os.makedirs(name)]: when the parent [head] does not exist it is made
    first, an [EEXIST] from that call being ignored; then [name] itself is
    made. *)
Fixpoint makedirs (s : fs) (name : path) : option errno * fs :=
  match name with
  | [] => mkdir s name
  | _ :: head =>
      let '(e, s1) :=
        if negb (path_exists s head) then
          match makedirs s head with
          | (Some EEXIST, s1) => (None, s1)
          | r => r
          end
        else (None, s) in
      match e with
      | Some e => (Some e, s1)
      | None => mkdir s1 name
      end
  end.

End os.

(** [except OSError as exc]: an [EEXIST] on a path that is a directory is
    swallowed, every other error is raised again. *)
Definition mkdir_p (s : os.fs) (path : os.path) : option os.errno * os.fs :=
  match os.makedirs s path with
  | (Some e, s') =>
      if bool_decide (e = os.EEXIST) && os.path_isdir s' path
      then (None, s')
      else (Some e, s')
  | r => r
  end.

(** ** Definitions for the specification *)

(** An N x 2 array holding the points [pts], one per row. *)
Definition rows_of_points {F} (pts : list (F * F)) : mat F :=
  (λ p, [p.1; p.2]) <$> pts.

(** The cached inverse of an [AffineTransform], when present, is the
    inverse of its matrix. *)
Definition cache_valid {F} `{Number F} (T : AffineTransform.t) : Prop :=
  match AffineTransform._iaffine T with
  | None => True
  | Some i => Affine.invert (AffineTransform._affine T) = Ok i
  end.

(** The product [np.dot(np.transpose(A), A)] that the constructor of
    [RatPolyTransform] passes to [pinv]. *)
Definition gram {F} `{Number F} (A : mat F) : mat F :=
  (λ r, dotprod r <$> mat_transpose A) <$> mat_transpose A.

(** A grid of points, and an array computed point by point over it. *)
Definition grid_map {X B} (f : X → B) (g : mat X) : mat B :=
  (λ row : list X, f <$> row) <$> g.

Definition rectangular {X} (M N : nat) (g : mat X) : Prop :=
  length g = M ∧ Forall (λ row, length row = N) g.

Definition same_length {A} (u v : list A) : Prop := length u = length v.

Section rev_spec.
Context {F : Type} `{Number F}.
Local Open Scope num_scope.

(** The 20 terms of the cubic basis, in the order of the specification. *)
Definition basis20 (L P H : F) : vec F :=
  [ one; L; P; H; L * P; L * H; P * H; L ** 2; P ** 2; H ** 2;
    L * P * H; L ** 3; L * P ** 2; L * H ** 2; L ** 2 * P; P ** 3;
    P * H ** 2; L ** 2 * H; P ** 2 * H; H ** 3 ].

(** Pixel coordinate number [i] (0: line, 1: sample) of the point
    [(lon, lat, h)], before the cast: normalise with the stored geographic
    offset and scale, evaluate numerator and denominator on the basis,
    divide, denormalise with the stored pixel offset and scale. *)
Definition rev_pixel (T : RatPolyTransform.t) (i : nat) (lon lat h : F) : F :=
  let entry (l : vec F) (k : nat) := default zero (l !! k) in
  let L := lon * entry (RatPolyTransform._scale T) 0%nat
           + entry (RatPolyTransform._offset T) 0%nat in
  let P := lat * entry (RatPolyTransform._scale T) 1%nat
           + entry (RatPolyTransform._offset T) 1%nat in
  let H := h * entry (RatPolyTransform._scale T) 2%nat
           + entry (RatPolyTransform._offset T) 2%nat in
  let X := basis20 L P H in
  let num := dotprod (default [] (RatPolyTransform._A T !! i)) X in
  let den := dotprod (default [] (RatPolyTransform._B T !! i)) X in
  num / den * entry (RatPolyTransform._px_scale T) i
  + entry (RatPolyTransform._px_offset T) i.

(** The coordinate inputs [rev] is specified for, with the grid of
    (lon, lat) points they denote: two scalars, two tuples, two 1-d arrays
    or two 2-d arrays. *)
Inductive rev_input : pyobj F → pyobj F → mat (F * F) → Prop :=
| rev_input_scalar x y :
    rev_input (PyNum x) (PyNum y) [[(x, y)]]
| rev_input_tuple pts :
    rev_input (PySeq KTuple (PyNum <$> (fst <$> pts)))
              (PySeq KTuple (PyNum <$> (snd <$> pts))) [pts]
| rev_input_array1 pts :
    rev_input (of_vec (fst <$> pts)) (of_vec (snd <$> pts)) [pts]
| rev_input_array2 g :
    rev_input (of_mat (grid_map fst g)) (of_mat (grid_map snd g)) g.

End rev_spec.

(** A call of [fwd] is vectorized when it is served by its own activation
    alone: no further call of [fwd] is made for the elements. *)
Definition vectorized {F} `{Number F} (T : RatPolyTransform.t)
    (x y z : pyobj F) : Prop :=
  RatPolyTransform.fwd_calls T x y z = 1%nat.

Section fwd_spec.
Context {F : Type} `{Number F}.
Local Open Scope num_scope.

(** Geographic coordinate number [i] (0: longitude, 1: latitude,
    2: height) of the pixel [(x, y)]: normalise with the stored pixel
    offset and scale, multiply by row [i + 1] of the stored pseudo-inverse,
    denormalise with the stored geographic offset and scale. *)
Definition fwd_geo (T : RatPolyTransform.t) (i : nat) (x y : F) : F :=
  let entry (l : vec F) (k : nat) := default zero (l !! k) in
  let po := RatPolyTransform._px_offset T in
  let ps := RatPolyTransform._px_scale T in
  let n0 := - entry po 0%nat / entry ps 0%nat * one
            + one / entry ps 0%nat * x in
  let n1 := - entry po 1%nat / entry ps 1%nat * one
            + one / entry ps 1%nat * y in
  let c := dotprod (default [] (RatPolyTransform._A_rev T !! S i)) [n0; n1] in
  - entry (RatPolyTransform._offset T) i / entry (RatPolyTransform._scale T) i
    * one
  + one / entry (RatPolyTransform._scale T) i * c.

End fwd_spec.

(** A directory tree is well formed when every entry lies in a directory
    that can be reached from the root. *)
Definition well_formed (s : os.fs) : Prop :=
  map_Forall (λ p _, os.walk s (tail p) = None) s.

(** ** Example data *)

(** A stand-in for [pinv] in the examples: it refuses the empty matrix and
    returns any other argument. *)
Definition pinv_id : mat Z → result (mat Z) :=
  λ m, match m with [] => Raise LinAlgError | _ => Ok m end.

Definition ex_rpcs : RatPolyTransform.rpcs (F:=Z) := {|
  RatPolyTransform.lineNumCoefs := (λ n, Z.of_nat n) <$> seq 1 20;
  RatPolyTransform.sampleNumCoefs := (λ n, Z.of_nat (n * n)) <$> seq 1 20;
  RatPolyTransform.lineDenCoefs := replicate 20 1%Z;
  RatPolyTransform.sampleDenCoefs := 1%Z :: replicate 19 0%Z;
  RatPolyTransform.lonScale := 1%Z;
  RatPolyTransform.latScale := 1%Z;
  RatPolyTransform.heightScale := 1%Z;
  RatPolyTransform.lonOffset := (-1)%Z;
  RatPolyTransform.latOffset := (-2)%Z;
  RatPolyTransform.heightOffset := (-3)%Z;
  RatPolyTransform.lineScale := 2%Z;
  RatPolyTransform.sampleScale := 3%Z;
  RatPolyTransform.lineOffset := 10%Z;
  RatPolyTransform.sampleOffset := 20%Z;
  RatPolyTransform.spatialReferenceSystem := Some "EPSG:4326"%string
|}.


(** The record [ex_rpcs] with a longitude scale of zero. *)
Definition ex_rpcs_zero : RatPolyTransform.rpcs (F:=Z) := {|
  RatPolyTransform.lineNumCoefs := RatPolyTransform.lineNumCoefs ex_rpcs;
  RatPolyTransform.sampleNumCoefs := RatPolyTransform.sampleNumCoefs ex_rpcs;
  RatPolyTransform.lineDenCoefs := RatPolyTransform.lineDenCoefs ex_rpcs;
  RatPolyTransform.sampleDenCoefs := RatPolyTransform.sampleDenCoefs ex_rpcs;
  RatPolyTransform.lonScale := 0%Z;
  RatPolyTransform.latScale := 1%Z;
  RatPolyTransform.heightScale := 1%Z;
  RatPolyTransform.lonOffset := (-1)%Z;
  RatPolyTransform.latOffset := (-2)%Z;
  RatPolyTransform.heightOffset := (-3)%Z;
  RatPolyTransform.lineScale := 2%Z;
  RatPolyTransform.sampleScale := 3%Z;
  RatPolyTransform.lineOffset := 10%Z;
  RatPolyTransform.sampleOffset := 20%Z;
  RatPolyTransform.spatialReferenceSystem := Some "EPSG:4326"%string
|}.

Definition ex_T : RatPolyTransform.t (F:=Z) :=
  Eval vm_compute in
    match RatPolyTransform.from_rpcs pinv_id ex_rpcs with
    | Ok T => T
    | Raise _ => RatPolyTransform.mk None [] [] [] [] [] [] [] [] [] [] []
    end.

Definition ex_T_shifted : RatPolyTransform.t (F:=Z) :=
  Eval vm_compute in
    match RatPolyTransform.__add__ pinv_id ex_T
            (PySeq KList [PyNum 1%Z; PyNum 2%Z]) with
    | Ok T => T
    | Raise _ => ex_T
    end.

Definition ex_fwd_results : list (pyobj Z) :=
  Eval vm_compute in
    (λ p : Z * Z,
       match RatPolyTransform.fwd ex_T (PyNum p.1) (PyNum p.2) PyNone with
       | Ok r => r
       | Raise _ => PyNone
       end) <$> [(1, 2); (3, 4)]%Z.

Definition ex_U : AffineTransform.t (F:=Z) :=
  AffineTransform.__init__ (Affine.mk 1 2 3 4 5 6)%Z (Some "EPSG:4326"%string).

Definition ex_U_shifted : AffineTransform.t (F:=Z) :=
  Eval vm_compute in
    match AffineTransform.__add__ ex_U (PySeq KList [PyNum 1%Z; PyNum 2%Z]) with
    | Ok U => U
    | Raise _ => ex_U
    end.

Definition ex_Uq : AffineTransform.t (F:=Qc) :=
  AffineTransform.__init__
    (Affine.mk (Q2Qc 2) (Q2Qc 0) (Q2Qc 1) (Q2Qc 0) (Q2Qc 3) (Q2Qc 1)) None.

(** The transform that halves both coordinates. *)
Definition ex_half : AffineTransform.t (F:=Qc) :=
  AffineTransform.__init__
    (Affine.mk (Q2Qc (1 # 2)) (Q2Qc 0) (Q2Qc 0)
               (Q2Qc 0) (Q2Qc (1 # 2)) (Q2Qc 0)) None.

Definition ex_table : gmap string (vec Z) :=
  {[ "WV02_MULTI"%string := [2; 3]%Z ]}.

Definition ex_meta : meta (F:=Z) := {|
  satid := "wv02"; bandid := "multi";
  abscalfactor := [6; 8]%Z; effbandwidth := [3; 2]%Z;
  latlonhae := [10; 20; 30]%Z;
  img_datetime_obj_utc := 0%Z;
  mean_sun_el := 60%Z
|}.

(** The tree with the directory [/a] and the regular file [/a/f]. *)
Definition ex_fs : os.fs :=
  {[ ["a"%string] := os.Dir; ["f"%string; "a"%string] := os.File ]}.

Definition ex_image_meta : image_meta (F:=Z) := {|
  sensorAlias := "WV02_MULTI";
  imageBoundsWGS84 := "POINT (20 10)";
  absoluteCalibrationFactors := [6; 8]%Z;
  effectiveBandwidths := [3; 2]%Z;
  acquisitionDate := "1970-01-01 00:00:00";
  sunElevation := 60%Z
|}.

(** A transform whose matrix has determinant zero. *)
Definition ex_singular : AffineTransform.t (F:=Z) :=
  AffineTransform.__init__ (Affine.mk 1 2 0 2 4 0)%Z None.

(** The tree [ex_fs] after [mkdir_p] of [/a/b/c]. *)
Definition ex_fs_made : os.fs :=
  Eval vm_compute in
    (mkdir_p ex_fs ["c"%string; "b"%string; "a"%string]).2.

(** * Verification *)

(** ** Exact instances *)

Lemma Z_exact_ring : ExactRing Z.
Proof.
  split.
  - exact Zth.
  - intros x y. apply Z.eqb_eq.
Qed.

Lemma Qc_exact_field : ExactField Qc.
Proof.
  split.
  - destruct Qcft as [R N0 D I]. split.
    + exact R.
    + exact N0.
    + intros p q. cbn. unfold Qcdiv. by rewrite Qcmult_1_l.
    + intros p Hp. cbn. unfold Qcdiv. rewrite Qcmult_1_l. apply (I p Hp).
  - intros x y. cbn. rewrite Qeq_bool_iff. split.
    + apply Qc_is_canon.
    + intros ->. reflexivity.
Qed.

Lemma exact_field_ring {F} `{ExactField F} : ExactRing F.
Proof.
  split.
  - apply exact_field.
  - apply exact_field_eqb.
Qed.

(** ** The error monad *)

Lemma bind_Ok {A B} (m : result A) (k : A → result B) (b : B) :
  m ≫= k = Ok b → ∃ a, m = Ok a ∧ k a = Ok b.
Proof. destruct m as [a|e]; [eauto | discriminate]. Qed.

Lemma mapM_Ok_fmap {A B} (g : A → B) (l : list A) :
  mapM (M:=result) (λ x, Ok (g x)) l = Ok (g <$> l).
Proof. induction l as [|x l IH]; [done|]. cbn. by rewrite IH. Qed.

Lemma mapM_Ok_ext {A B} (f : A → result B) (g : A → B) (l : list A) :
  Forall (λ x, f x = Ok (g x)) l → mapM f l = Ok (g <$> l).
Proof.
  induction 1 as [|x l Hx _ IH]; [done|]. cbn. by rewrite Hx, IH.
Qed.

Lemma mapM_Ok_fmap_ext {A B C} (f : B → result C) (h : A → B) (k : A → C)
    (l : list A) :
  (∀ x, f (h x) = Ok (k x)) → mapM f (h <$> l) = Ok (k <$> l).
Proof.
  intros Hf. induction l as [|x l IH]; [done|]. cbn.
  by rewrite Hf, IH.
Qed.

Ltac inv_bind H :=
  repeat match type of H with
  | _ ≫= _ = Ok _ =>
      let a := fresh "v" in
      let Ha := fresh "Hv" in
      apply bind_Ok in H as (a & Ha & H)
  end.

Ltac ok_step := cbn [mbind result_bind fmap result_fmap mret result_ret].

(** ** Views of arrays *)

Section views.
Context {E : Type}.

Lemma pyobj_nested_ind (P : pyobj E → Prop) :
  P PyNone →
  (∀ x, P (PyNum x)) →
  (∀ k xs, Forall P xs → P (PySeq k xs)) →
  ∀ a, P a.
Proof.
  intros HN HX HS. fix IH 1. intros [ |x|k xs]; [done..|].
  apply HS. induction xs as [|y ys IHys]; constructor; [apply IH | done].
Qed.

Lemma mapM_as_num (v : vec E) : mapM as_num (PyNum <$> v) = Some v.
Proof. induction v as [|x v IH]; [done|]. cbn. by rewrite IH. Qed.

Lemma as_vec_of_vec (v : vec E) : as_vec (of_vec v) = Some v.
Proof. apply mapM_as_num. Qed.

Lemma of_vec_inj (u v : vec E) : of_vec u = of_vec v → u = v.
Proof.
  intros Huv. assert (Some u = Some v) as [= ->]; [|done].
  by rewrite <- !as_vec_of_vec, Huv.
Qed.

Lemma as_mat_of_mat (m : mat E) : as_mat (of_mat m) = Some m.
Proof.
  unfold as_mat, of_mat. induction m as [|r m IH]; [done|].
  cbn. rewrite mapM_as_num. cbn. cbn in IH. by rewrite IH.
Qed.

Lemma shape_of_vec (v : vec E) : shape (of_vec v) = [length v].
Proof. destruct v; cbn; by rewrite ?length_fmap. Qed.

Lemma shape_of_mat (r : vec E) (m : mat E) :
  shape (of_mat (r :: m)) = [S (length m); length r].
Proof.
  cbn [of_mat fmap list_fmap shape length]. f_equal.
  - by rewrite length_fmap.
  - apply shape_of_vec.
Qed.

End views.

Section broadcasting.
Context {F : Type} `{Number F}.

Lemma bvec_same (f : F → F → F) (u v : vec F) :
  length u = length v → bvec f u v = Ok (zip_with f u v).
Proof.
  intros Hl. unfold bvec, broadcast2. rewrite decide_True by done.
  rewrite (mapM_Ok_fmap (λ p, f p.1 p.2)). f_equal. clear Hl.
  revert v. induction u as [|x u IH]; intros [|y v]; cbn; [done..|].
  by rewrite <- IH.
Qed.

End broadcasting.

(** ** Construction of a [RatPolyTransform] *)

Section construction.
Context {F : Type} `{Number F}.
Variable pinv : mat F → result (mat F).
Import RatPolyTransform.

Lemma np_vstack2_Ok (u v : vec F) (m : mat F) :
  np_vstack2 u v = Ok m → m = [u; v] ∧ length u = length v.
Proof. unfold np_vstack2. case_decide; [|done]. by intros [= <-]. Qed.

Lemma np_vstack2_same (u v : vec F) :
  length u = length v → np_vstack2 u v = Ok [u; v].
Proof. intros Hl. unfold np_vstack2. by rewrite decide_True. Qed.

Lemma recip_length (v : vec F) : length (recip v) = length v.
Proof. apply length_fmap. Qed.

Lemma neg_over_same (u v : vec F) :
  length u = length v →
  neg_over u v = Ok (zip_with div (neg <$> u) v).
Proof. intros Hl. apply bvec_same. by rewrite length_fmap. Qed.

Lemma rows_of_length_true {A} (n : nat) (m : list (list A)) :
  rows_of_length n m = true ↔ Forall (λ r, length r = n) m.
Proof.
  unfold rows_of_length. rewrite forallb_forall, Forall_forall.
  split; intros Hm r Hr.
  - apply Nat.eqb_eq, Hm. by apply list_elem_of_In.
  - apply Nat.eqb_eq, Hm. by apply list_elem_of_In.
Qed.

Lemma mat_transpose_rows (m : mat F) :
  Forall (λ r, length r = length m) (mat_transpose m).
Proof.
  unfold mat_transpose. apply Forall_fmap, Forall_forall.
  intros j _. cbn. by rewrite length_fmap.
Qed.

Lemma np_dot_mm_same (a b : mat F) :
  Forall (λ r, length r = length b) a →
  np_dot_mm a b = Ok ((λ r, dotprod r <$> mat_transpose b) <$> a).
Proof.
  intros Ha. unfold np_dot_mm.
  by rewrite (proj2 (rows_of_length_true _ _) Ha).
Qed.

(** What a successful construction stores. *)
Lemma init_Ok A B offset scale px_offset px_scale pr T :
  __init__ pinv A B offset scale px_offset px_scale pr = Ok T →
  proj T = pr ∧ _A T = A ∧ _B T = B
  ∧ _offset T = offset ∧ _scale T = scale
  ∧ _px_offset T = px_offset ∧ _px_scale T = px_scale
  ∧ _offscl T = [offset; scale]
  ∧ _px_offscl_rev T = [px_offset; px_scale]
  ∧ length offset = length scale
  ∧ length px_offset = length px_scale.
Proof.
  unfold __init__. intros Hi. inv_bind Hi. injection Hi as <-. cbn.
  apply np_vstack2_Ok in Hv as [-> ?].
  apply np_vstack2_Ok in Hv2 as [-> ?].
  naive_solver.
Qed.

(** The construction succeeds on well-shaped arguments, when [pinv]
    returns a matrix with rows as long as its argument has rows. *)
Lemma init_total A B offset scale px_offset px_scale pr Pi :
  length offset = length scale →
  length px_offset = length px_scale →
  pinv (gram A) = Ok Pi →
  Forall (λ r, length r = length (gram A)) Pi →
  ∃ T, __init__ pinv A B offset scale px_offset px_scale pr = Ok T.
Proof.
  intros Ho Hp Hpinv Hrows. unfold __init__.
  rewrite (np_vstack2_same offset scale) by done. ok_step.
  rewrite (neg_over_same offset scale) by done. ok_step.
  rewrite (np_vstack2_same _ (recip scale)); ok_step.
  2:{ rewrite recip_length, length_zip_with, !length_fmap. lia. }
  rewrite (np_vstack2_same px_offset px_scale) by done. ok_step.
  rewrite (neg_over_same px_offset px_scale) by done. ok_step.
  rewrite (np_vstack2_same _ (recip px_scale)); ok_step.
  2:{ rewrite recip_length, length_zip_with, !length_fmap. lia. }
  rewrite (np_dot_mm_same (mat_transpose A) A)
    by apply mat_transpose_rows. ok_step.
  fold (gram A). rewrite Hpinv. ok_step.
  rewrite np_dot_mm_same; [eauto|].
  unfold gram in Hrows. by rewrite length_fmap in Hrows.
Qed.

(** A transform that was constructed can be constructed again with another
    pixel offset of the same length. *)
Lemma init_again A B offset scale px_offset px_scale pr T px_offset' pr' :
  __init__ pinv A B offset scale px_offset px_scale pr = Ok T →
  length px_offset' = length px_offset →
  ∃ T', __init__ pinv A B offset scale px_offset' px_scale pr' = Ok T'
        ∧ _A_rev T' = _A_rev T ∧ _offscl_rev T' = _offscl_rev T.
Proof.
  intros Hi Hl. pose proof (init_Ok _ _ _ _ _ _ _ _ Hi) as Hf.
  destruct Hf as (_ & _ & _ & _ & _ & _ & _ & _ & _ & Ho & Hp).
  unfold __init__ in *. inv_bind Hi. injection Hi as <-. ok_step.
  rewrite Hv, Hv0. cbn. rewrite Hv1. ok_step.
  rewrite (np_vstack2_same px_offset' px_scale) by congruence. ok_step.
  rewrite (neg_over_same px_offset' px_scale) by congruence. ok_step.
  rewrite (np_vstack2_same _ (recip px_scale)); ok_step.
  2:{ rewrite recip_length, length_zip_with, !length_fmap. lia. }
  rewrite Hv5. cbn. rewrite Hv6. cbn. rewrite Hv7. cbn. eauto.
Qed.

End construction.

(** ** Element-wise maps *)

Section nd_map_facts.
Context {F : Type} `{Number F}.

Lemma nd_map_compose {A B C} (f : A → B) (g : B → C) (a : pyobj A) :
  nd_map g (nd_map f a) = nd_map (g ∘ f) a.
Proof.
  induction a as [ |x|k xs IH] using pyobj_nested_ind; [done..|].
  cbn. f_equal. rewrite <- list_fmap_compose.
  apply Forall_fmap_ext_1. eapply Forall_impl; [exact IH|]. done.
Qed.

Lemma shape_nd_map {A B} (f : A → B) (a : pyobj A) :
  shape (nd_map f a) = shape a.
Proof.
  induction a as [ |x|k xs IH] using pyobj_nested_ind; [done..|].
  cbn. rewrite length_fmap. f_equal.
  destruct IH as [|y ys Hy _]; [done|]. exact Hy.
Qed.

End nd_map_facts.

(** ** Shifts: [__add__] and [__sub__] *)

Section shifts.
Context {F : Type} `{Number F}.
Variable pinv : mat F → result (mat F).
Local Open Scope num_scope.

Lemma rpc_add_Ok (T T' : RatPolyTransform.t) (other : pyobj F) :
  RatPolyTransform.__add__ pinv T other = Ok T' →
  ∃ shift px_offset,
    is_pair other = true
    ∧ shift_of other = Ok shift
    ∧ bvec sub (RatPolyTransform._px_offset T) shift = Ok px_offset
    ∧ RatPolyTransform.__init__ pinv
        (RatPolyTransform._A T) (RatPolyTransform._B T)
        (RatPolyTransform._offset T) (RatPolyTransform._scale T)
        px_offset (RatPolyTransform._px_scale T) None = Ok T'.
Proof.
  unfold RatPolyTransform.__add__. destruct (is_pair other); [|done].
  intros Ha. inv_bind Ha. eauto 10.
Qed.

End shifts.


Section claims_structure.
Context {F : Type} `{Number F}.
Variable pinv : mat F → result (mat F).
Local Open Scope num_scope.

(** C8: [from_rpcs] stacks the line and sample coefficient vectors row-wise
    into the numerator and denominator matrices, takes the geographic scale
    as the per-axis reciprocal [1/lonScale, 1/latScale, 1/heightScale] and
    the geographic offset as [-offset * scale] per axis, takes the pixel
    scale and offset directly from the line/sample metadata, and carries
    the spatial reference system through unchanged.  The construction
    succeeds when the two vectors of each pair have one length, the three
    scales are not zero, and [pinv] returns, for the product of the
    numerator matrix with its transpose, a matrix with rows as long as the
    product has rows.  A scale that is zero makes [from_rpcs] raise
    [ZeroDivisionError]. *)
Theorem from_rpcs_builds (r : RatPolyTransform.rpcs) (Pi : mat F) :
  length (RatPolyTransform.lineNumCoefs r)
    = length (RatPolyTransform.sampleNumCoefs r) →
  length (RatPolyTransform.lineDenCoefs r)
    = length (RatPolyTransform.sampleDenCoefs r) →
  (eqb (RatPolyTransform.lonScale r) zero = false →
   eqb (RatPolyTransform.latScale r) zero = false →
   eqb (RatPolyTransform.heightScale r) zero = false →
   pinv (gram [RatPolyTransform.lineNumCoefs r;
               RatPolyTransform.sampleNumCoefs r]) = Ok Pi →
   Forall (λ row, length row
                  = length (gram [RatPolyTransform.lineNumCoefs r;
                                  RatPolyTransform.sampleNumCoefs r])) Pi →
   ∃ T, RatPolyTransform.from_rpcs pinv r = Ok T
     ∧ RatPolyTransform._A T
       = [RatPolyTransform.lineNumCoefs r; RatPolyTransform.sampleNumCoefs r]
     ∧ RatPolyTransform._B T
       = [RatPolyTransform.lineDenCoefs r; RatPolyTransform.sampleDenCoefs r]
     ∧ RatPolyTransform._scale T
       = [one / RatPolyTransform.lonScale r;
          one / RatPolyTransform.latScale r;
          one / RatPolyTransform.heightScale r]
     ∧ RatPolyTransform._offset T
       = [- RatPolyTransform.lonOffset r
          * (one / RatPolyTransform.lonScale r);
          - RatPolyTransform.latOffset r
          * (one / RatPolyTransform.latScale r);
          - RatPolyTransform.heightOffset r
            * (one / RatPolyTransform.heightScale r)]
     ∧ RatPolyTransform._px_scale T
       = [RatPolyTransform.lineScale r; RatPolyTransform.sampleScale r]
     ∧ RatPolyTransform._px_offset T
       = [RatPolyTransform.lineOffset r; RatPolyTransform.sampleOffset r]
     ∧ RatPolyTransform.proj T = RatPolyTransform.spatialReferenceSystem r)
  ∧ (eqb (RatPolyTransform.lonScale r) zero
     || eqb (RatPolyTransform.latScale r) zero
     || eqb (RatPolyTransform.heightScale r) zero = true →
     RatPolyTransform.from_rpcs pinv r = Raise ZeroDivisionError).
Proof.
  intros Hnum Hden. unfold RatPolyTransform.from_rpcs, py_div.
  rewrite (np_vstack2_same _ _ Hnum), (np_vstack2_same _ _ Hden). ok_step.
  split.
  - intros H0 H1 H2 Hpinv Hrows. rewrite H0, H1, H2. ok_step.
    rewrite bvec_same by done. ok_step.
    edestruct (init_total pinv) as [T HT]; [| |exact Hpinv|exact Hrows|].
    3:{ exists T. split; [exact HT|].
        apply init_Ok in HT as (Hpr & HA & HB & Ho & Hs & Hpo & Hps & _).
        by repeat split. }
    + done.
    + done.
  - intros Hz.
    destruct (eqb (RatPolyTransform.lonScale r) zero); [done|]. ok_step.
    destruct (eqb (RatPolyTransform.latScale r) zero); [done|]. ok_step.
    destruct (eqb (RatPolyTransform.heightScale r) zero); [done|].
    discriminate Hz.
Qed.

(** C9: for a shift given as a list, a tuple or an array of two numbers,
    [T - s] is exactly [T + [-s0, -s1]]: the same transform state, or the
    same exception.  This holds for both variants. *)
Theorem sub_is_add_of_negation
    (T : RatPolyTransform.t) (U : AffineTransform.t)
    (k : seqkind) (s0 s1 : F) :
  RatPolyTransform.__sub__ pinv T (PySeq k [PyNum s0; PyNum s1])
    = RatPolyTransform.__add__ pinv T (PySeq KList [PyNum (- s0); PyNum (- s1)])
  ∧ AffineTransform.__sub__ U (PySeq k [PyNum s0; PyNum s1])
    = AffineTransform.__add__ U (PySeq KList [PyNum (- s0); PyNum (- s1)]).
Proof.
  split.
  - unfold RatPolyTransform.__sub__. destruct k; cbn; done.
  - unfold AffineTransform.__sub__. destruct k; cbn; done.
Qed.

(** C10: the transform returned by [T + s] or [T - s] of the RPC variant
    keeps [T]'s coefficient matrices, geographic offset and scale and pixel
    scale, has the pixel offset [T]'s minus the shift that was added (for
    [T - s], the negated [s]), and has no spatial reference system,
    whatever [T]'s was; the affine variant keeps [T]'s. *)
Theorem rpc_shift_frame
    (T T' : RatPolyTransform.t) (U U' : AffineTransform.t)
    (other : pyobj F) :
  (RatPolyTransform.__add__ pinv T other = Ok T' →
     ∃ shift,
       shift_of other = Ok shift
       ∧ bvec sub (RatPolyTransform._px_offset T) shift
         = Ok (RatPolyTransform._px_offset T')
       ∧ RatPolyTransform._A T' = RatPolyTransform._A T
       ∧ RatPolyTransform._B T' = RatPolyTransform._B T
       ∧ RatPolyTransform._offset T' = RatPolyTransform._offset T
       ∧ RatPolyTransform._scale T' = RatPolyTransform._scale T
       ∧ RatPolyTransform._px_scale T' = RatPolyTransform._px_scale T
       ∧ RatPolyTransform.proj T' = None)
  ∧ (RatPolyTransform.__sub__ pinv T other = Ok T' →
     ∃ negated shift,
       RatPolyTransform.__add__ pinv T negated = Ok T'
       ∧ (py_neg other = Ok negated ∨ neg_each other = Ok negated)
       ∧ shift_of negated = Ok shift
       ∧ bvec sub (RatPolyTransform._px_offset T) shift
         = Ok (RatPolyTransform._px_offset T')
       ∧ RatPolyTransform._A T' = RatPolyTransform._A T
       ∧ RatPolyTransform._B T' = RatPolyTransform._B T
       ∧ RatPolyTransform._offset T' = RatPolyTransform._offset T
       ∧ RatPolyTransform._scale T' = RatPolyTransform._scale T
       ∧ RatPolyTransform._px_scale T' = RatPolyTransform._px_scale T
       ∧ RatPolyTransform.proj T' = None)
  ∧ (AffineTransform.__add__ U other = Ok U' →
     AffineTransform.proj U' = AffineTransform.proj U).
Proof.
  assert (Hadd : ∀ o, RatPolyTransform.__add__ pinv T o = Ok T' →
     ∃ shift,
       shift_of o = Ok shift
       ∧ bvec sub (RatPolyTransform._px_offset T) shift
         = Ok (RatPolyTransform._px_offset T')
       ∧ RatPolyTransform._A T' = RatPolyTransform._A T
       ∧ RatPolyTransform._B T' = RatPolyTransform._B T
       ∧ RatPolyTransform._offset T' = RatPolyTransform._offset T
       ∧ RatPolyTransform._scale T' = RatPolyTransform._scale T
       ∧ RatPolyTransform._px_scale T' = RatPolyTransform._px_scale T
       ∧ RatPolyTransform.proj T' = None).
  { intros o (shift & px & _ & Hs & Hb & Hi)%rpc_add_Ok.
    apply init_Ok in Hi as (Hpr & HA & HB & Ho & Hsc & Hpo & Hps & _).
    exists shift. rewrite Hpo. by repeat split. }
  split; [apply Hadd|]. split.
  - unfold RatPolyTransform.__sub__.
    destruct (py_neg other) as [o|e] eqn:Hn; ok_step.
    + destruct (RatPolyTransform.__add__ pinv T o) as [r|e] eqn:Ha.
      * intros [= ->]. destruct (Hadd _ Ha) as (shift & Hs & Hrest).
        exists o, shift. by split; [|split; [left|]].
      * intros Hs. inv_bind Hs. destruct (Hadd _ Hs) as (shift & Hsh & Hrest).
        exists v, shift. by split; [|split; [right|]].
    + intros Hs. inv_bind Hs. destruct (Hadd _ Hs) as (shift & Hsh & Hrest).
      exists v, shift. by split; [|split; [right|]].
  - unfold AffineTransform.__add__. destruct (is_pair other); [|done].
    intros Ha. inv_bind Ha. destruct v as [|s0 [|s1 [|]]]; try done.
    by injection Ha as <-.
Qed.

(** C6: an array whose shape is not N x 2 makes every batch entry point
    fail.  The RPC [__call__] raises [NotImplementedError] when the array
    is not 2-dimensional and [AssertionError] (from [assert d1 == 2]) when
    it is 2-dimensional with another width; the affine [__call__] and
    [inverse] raise [AssertionError], and [inverse] leaves the object
    untouched. *)
Theorem batch_entry_points_reject_shape
    (T : RatPolyTransform.t) (U : AffineTransform.t) (coords : pyobj F)
    (dt : dtype) :
  is_ndarray coords = true →
  (∀ n, shape coords ≠ [n; 2%nat]) →
  RatPolyTransform.__call__ T coords
    = Raise (if decide (length (shape coords) = 2%nat)
             then AssertionError else NotImplementedError)
  ∧ AffineTransform.__call__ U dt coords = Raise AssertionError
  ∧ AffineTransform.inverse U dt coords = (Raise AssertionError, U).
Proof.
  intros Hnd Hshape.
  unfold RatPolyTransform.__call__, AffineTransform.__call__,
    AffineTransform.inverse, AffineTransform.is_Nx2.
  rewrite Hnd. cbn [py_assert andb]. ok_step.
  destruct (shape coords) as [|d0 [|d1 [|d2 s]]] eqn:Hs; cbn; try done.
  destruct (Nat.eqb_spec d1 2) as [->|Hne]; [|done].
  by destruct (Hshape d0).
Qed.


End claims_structure.

(** ** Calibration *)

Section claims_calibration.
Context {F : Type} `{Number F}.
Variables (np_cos np_deg2rad : F → F) (np_pi : F).
Variable earth_distance : F → F → F → F → F.
Variables DG_ABSCAL_GAIN DG_ABSCAL_OFFSET DG_ESUN : gmap string (vec F).
Local Open Scope num_scope.

Lemma zip3_length {A B C} (xs : list A) (ys : list B) (zs : list C) n :
  length xs = n → length ys = n → length zs = n →
  length (zip3 xs ys zs) = n.
Proof.
  revert ys zs n. induction xs as [|x xs IH]; intros [|y ys] [|z zs] n;
    cbn; intros; try congruence.
  destruct n as [|n]; [done|]. f_equal. apply IH; congruence.
Qed.

Lemma zip3_lookup {A B C} (xs : list A) (ys : list B) (zs : list C) i x y z :
  xs !! i = Some x → ys !! i = Some y → zs !! i = Some z →
  zip3 xs ys zs !! i = Some (x, y, z).
Proof.
  revert ys zs i. induction xs as [|x' xs IH]; intros [|y' ys] [|z' zs] i;
    try done.
  destruct i as [|i]; cbn.
  - by intros [= ->] [= ->] [= ->].
  - apply IH.
Qed.

(** C2: with per-band calibration factors and effective bandwidths of one
    length [n], and per-band table entries for the key
    [SATID_BANDID] (upper case), [calc_toa_gain_offset] returns [n]
    triples, in band order; the triple of band [i] is the scale
    [(acf_i / ebw_i) * gain_i], the reflectance scale
    [(d_es ** 2 * pi) / (e_sun_i * cos(deg2rad(90 - mean_sun_el)))] and
    the offset [offset_i] of the table. *)
Theorem toa_triples_per_band (m : meta) (n : nat)
    (gain offs esun : vec F) (lat lon hae : F) :
  let key := (upper (satid m) +:+ "_" +:+ upper (bandid m))%string in
  let d_es := earth_distance lon lat hae (img_datetime_obj_utc m) in
  length (abscalfactor m) = n →
  length (effbandwidth m) = n →
  DG_ABSCAL_GAIN !! key = Some gain → length gain = n →
  DG_ABSCAL_OFFSET !! key = Some offs → length offs = n →
  DG_ESUN !! key = Some esun → length esun = n →
  latlonhae m !! 0%nat = Some lat →
  latlonhae m !! 1%nat = Some lon →
  latlonhae m !! 2%nat = Some hae →
  ∃ triples,
    calc_toa_gain_offset np_cos np_deg2rad np_pi earth_distance
      DG_ABSCAL_GAIN DG_ABSCAL_OFFSET DG_ESUN m = Ok triples
    ∧ length triples = n
    ∧ ∀ i a w g o es,
        abscalfactor m !! i = Some a →
        effbandwidth m !! i = Some w →
        gain !! i = Some g →
        offs !! i = Some o →
        esun !! i = Some es →
        triples !! i
        = Some (a / w * g,
                (d_es ** 2 * np_pi)
                / (es * np_cos (np_deg2rad (of_Z 90 - mean_sun_el m))),
                o).
Proof.
  intros key d_es Hacf Hebw Hg Hgl Ho Hol He Hel Hlat Hlon Hhae.
  unfold calc_toa_gain_offset, table_lookup. fold key.
  rewrite Hg, Ho, He, Hlat, Hlon, Hhae. cbn [from_option]. ok_step.
  rewrite (bvec_same div) by congruence. ok_step.
  rewrite (bvec_same mul); ok_step.
  2:{ rewrite length_zip_with. lia. }
  eexists. split; [reflexivity|]. split.
  - apply zip3_length; rewrite ?length_zip_with, ?length_fmap; lia.
  - intros i a w g o es Ha Hw Hgi Hoi Hei. apply zip3_lookup; [| |done].
    + rewrite !lookup_zip_with, Ha, Hw. cbn. by rewrite Hgi.
    + rewrite list_lookup_fmap, Hei. done.
Qed.

End claims_calibration.

(** ** Exact arithmetic: the affine round trip *)


Section exact_ring.
Context {F : Type} `{Number F} `{!ExactRing F}.
Local Open Scope num_scope.

Add Ring F_ring : exact_ring.

Lemma affine_equal_true (s o : Affine.t) :
  Affine.equal s o = true → s = o.
Proof using Type*.
  unfold Affine.equal. rewrite !andb_true_iff, !exact_eqb.
  destruct s, o; cbn. intros [[[[[-> ->] ->] ->] ->] ->]. done.
Qed.

(** With exact arithmetic the identity shortcut of [itransform] agrees
    with the general expression, on an array of floats. *)
Lemma itransform_points (s : Affine.t) (pts : list (F * F)) :
  Affine.itransform s Float64 (rows_of_points pts)
  = Ok (rows_of_points ((λ p, Affine.apply s p.1 p.2) <$> pts)).
Proof using Type*.
  unfold Affine.itransform, rows_of_points.
  destruct (Affine.equal s Affine.identity) eqn:Heq.
  - apply affine_equal_true in Heq as ->. f_equal.
    rewrite <- list_fmap_compose. apply list_fmap_ext.
    intros _ [x y] _. cbn. f_equal; [ring|f_equal; ring].
  - induction pts as [|[x y] pts IH]; [done|].
    cbn [fmap list_fmap mapM]. cbn [fmap list_fmap] in IH. rewrite IH.
    done.
Qed.

End exact_ring.

Section exact_field.
Context {F : Type} `{Number F} `{!ExactField F}.
Local Open Scope num_scope.

Add Field F_field : exact_field.

Lemma invert_Ok (s : Affine.t) :
  Affine.determinant s ≠ zero →
  ∃ i, Affine.invert s = Ok i
       ∧ ∀ x y, Affine.apply i (Affine.apply s x y).1 (Affine.apply s x y).2
                = (x, y).
Proof using Type*.
  intros Hdet. unfold Affine.invert, Affine.is_degenerate.
  destruct (eqb _ _) eqn:He.
  { by apply exact_field_eqb in He. }
  eexists. split; [reflexivity|]. intros x y.
  unfold Affine.apply, Affine.determinant in *. cbn.
  f_equal; field; exact Hdet.
Qed.

End exact_field.


Section fwd_facts.
Context {F : Type} `{Number F}.
Import RatPolyTransform.

Lemma comprehension_ext
    (f g : pyobj F → pyobj F → pyobj F → nat * result (pyobj F))
    (xs ys zs : list (pyobj F)) :
  Forall (λ x, ∀ y z, f x y z = g x y z) xs →
  comprehension f xs ys zs = comprehension g xs ys zs.
Proof.
  intros Hxs. revert ys zs.
  induction Hxs as [|x xs Hx _ IH]; intros [|y ys] [|z zs]; try done.
  cbn. by rewrite Hx, IH.
Qed.

Lemma fwd_run_seq (T : t) k xs y z :
  fwd_run T (PySeq k xs) y z
  = match py_iter y,
          match z with
          | PyNone => Ok (replicate (length xs) PyNone)
          | _ => py_iter z
          end with
    | Ok ys, Ok zs =>
        let '(n, rs) := comprehension (fwd_run T) xs ys zs in
        (S n, rs ← rs; np_transpose <$> np_stack rs)
    | Raise e, _ | _, Raise e => (1%nat, Raise e)
    end.
Proof. reflexivity. Qed.

(** [fwd] reads three fields of the transform only. *)
Lemma fwd_run_ext (T T' : t) :
  _px_offscl T = _px_offscl T' →
  _A_rev T = _A_rev T' →
  _offscl_rev T = _offscl_rev T' →
  ∀ x y z, fwd_run T x y z = fwd_run T' x y z.
Proof.
  intros Hp Ha Ho x.
  induction x as [ |x|k xs IH] using pyobj_nested_ind; intros y z.
  - cbn. unfold fwd_point. done.
  - cbn. unfold fwd_point. by rewrite Hp, Ha, Ho.
  - rewrite !fwd_run_seq.
    destruct (py_iter y) as [ys|]; [|done].
    destruct (match z with PyNone => _ | _ => _ end) as [zs|]; [|done].
    by rewrite (comprehension_ext _ _ _ _ _ IH).
Qed.

End fwd_facts.

Section claims_exact_ring.
Context {F : Type} `{Number F} `{!ExactRing F}.
Variable pinv : mat F → result (mat F).
Local Open Scope num_scope.

Add Ring F_ring_claims : exact_ring.

Lemma init_proj A B offset scale px_offset px_scale pr pr' T :
  RatPolyTransform.__init__ pinv A B offset scale px_offset px_scale pr
    = Ok T →
  RatPolyTransform.__init__ pinv A B offset scale px_offset px_scale pr'
    = Ok (RatPolyTransform.mk pr'
            (RatPolyTransform._A T) (RatPolyTransform._B T)
            (RatPolyTransform._offset T) (RatPolyTransform._scale T)
            (RatPolyTransform._px_offset T) (RatPolyTransform._px_scale T)
            (RatPolyTransform._offscl T) (RatPolyTransform._offscl_rev T)
            (RatPolyTransform._px_offscl_rev T)
            (RatPolyTransform._px_offscl T) (RatPolyTransform._A_rev T)).
Proof.
  unfold RatPolyTransform.__init__. intros Hi. inv_bind Hi.
  injection Hi as <-.
  rewrite Hv. ok_step. rewrite Hv0. ok_step. rewrite Hv1. ok_step.
  rewrite Hv2. ok_step. rewrite Hv3. ok_step. rewrite Hv4. ok_step.
  rewrite Hv5. ok_step. rewrite Hv6. ok_step. by rewrite Hv7.
Qed.


End claims_exact_ring.

Section claims_exact_field.
Context {F : Type} `{Number F} `{!ExactField F}.
Local Open Scope num_scope.

Lemma is_Nx2_points (pts : list (F * F)) :
  pts ≠ [] → AffineTransform.is_Nx2 (of_mat (rows_of_points pts)) = true.
Proof.
  destruct pts as [|p pts]; [done|]. intros _.
  unfold AffineTransform.is_Nx2, rows_of_points.
  cbn [fmap list_fmap]. by rewrite shape_of_mat.
Qed.


End claims_exact_field.



(** ** Arrays computed point by point over a grid *)

Section grids.
Context {F : Type} `{Number F}.
Context {X : Type}.
Implicit Types (g : mat X) (u v : X → vec F) (q : X → F).

Lemma fmap_seq_eq {A B} (l : list A) (h : nat → B) (k : A → B) :
  (∀ i x, l !! i = Some x → h i = k x) →
  h <$> seq 0 (length l) = k <$> l.
Proof.
  intros Hhk. apply list_eq. intros i. rewrite !list_lookup_fmap.
  destruct (l !! i) as [x|] eqn:Hx.
  - assert (Hi : i < length l) by (by eapply lookup_lt_Some).
    rewrite (proj2 (lookup_seq 0 (length l) i i)) by done. cbn.
    f_equal. by apply Hhk.
  - apply lookup_ge_None in Hx.
    destruct (seq 0 (length l) !! i) as [j|] eqn:Hj; [|done].
    apply lookup_seq in Hj. lia.
Qed.

Lemma grid_map_compose {A B C} (f : A → B) (k : B → C) (g : mat A) :
  grid_map k (grid_map f g) = grid_map (k ∘ f) g.
Proof.
  unfold grid_map. rewrite <- list_fmap_compose. apply list_fmap_ext.
  intros _ row _. cbn. by rewrite <- list_fmap_compose.
Qed.

Lemma grid_map_dims {A B} (f : A → B) (g : mat A) :
  length <$> grid_map f g = length <$> g.
Proof.
  unfold grid_map. rewrite <- list_fmap_compose. apply list_fmap_ext.
  intros _ row _. cbn. apply length_fmap.
Qed.

Lemma expand_grid q g :
  expand_mat (grid_map q g) = grid_map (λ p, [q p]) g.
Proof. apply (grid_map_compose q (λ x, [x])). Qed.

Lemma zip_with_fmap_same {A B C D} (f : B → C → D) (b : A → B) (c : A → C)
    (l : list A) :
  zip_with f (b <$> l) (c <$> l) = (λ x, f (b x) (c x)) <$> l.
Proof. induction l as [|x l IH]; [done|]. cbn. by rewrite IH. Qed.

Lemma zip_grid {A B C} (f : A → B → C) (a : X → A) (b : X → B) g :
  zip_with (zip_with f) (grid_map a g) (grid_map b g)
  = grid_map (λ p, f (a p) (b p)) g.
Proof.
  unfold grid_map. rewrite zip_with_fmap_same. apply list_fmap_ext.
  intros _ row _. apply zip_with_fmap_same.
Qed.

Lemma concat2_grid u v g :
  concat2 (grid_map u g) (grid_map v g)
  = Ok (grid_map (λ p, u p ++ v p) g).
Proof.
  unfold concat2. rewrite decide_True by (by rewrite !grid_map_dims).
  by rewrite zip_grid.
Qed.

Lemma bmat_row (f : F → F → F) (us : list (vec F)) (s : vec F) :
  Forall (λ r, length r = length s) us →
  bmat f us [s] = Ok ((λ r, zip_with f r s) <$> us).
Proof.
  intros Hus. unfold bmat, broadcast2. case_decide as Hl.
  - destruct us as [|r [|]]; try discriminate. cbn.
    rewrite bvec_same by (by inversion Hus). done.
  - assert (mapM (λ x, bvec f x s) us = Ok ((λ r, zip_with f r s) <$> us))
      as Hm.
    { apply mapM_Ok_ext. eapply Forall_impl; [exact Hus|].
      intros r Hr. cbn. by apply bvec_same. }
    destruct us as [|r [|r' us']]; [done| |done]. by destruct Hl.
Qed.

Lemma cube_mat_grid (f : F → F → F) u g (s : vec F) :
  (∀ p, length (u p) = length s) →
  cube_mat f (grid_map u g) [s] = Ok (grid_map (λ p, zip_with f (u p) s) g).
Proof.
  intros Hu. unfold cube_mat, grid_map.
  apply mapM_Ok_fmap_ext. intros row. rewrite bmat_row.
  - by rewrite <- list_fmap_compose.
  - apply Forall_fmap, Forall_forall. intros p _. apply Hu.
Qed.

Lemma bmat_grid (f : F → F → F) (a b : X → F) g :
  bmat f (grid_map a g) (grid_map b g) = Ok (grid_map (λ p, f (a p) (b p)) g).
Proof.
  unfold bmat, broadcast2, grid_map.
  rewrite decide_True by (by rewrite !length_fmap).
  assert (Hz : zip ((λ row : list X, a <$> row) <$> g)
                   ((λ row : list X, b <$> row) <$> g)
               = (λ row : list X, (a <$> row, b <$> row)) <$> g).
  { apply (zip_with_fmap_same pair). }
  rewrite Hz. apply mapM_Ok_fmap_ext. intros row. cbn.
  rewrite bvec_same by (by rewrite !length_fmap).
  by rewrite zip_with_fmap_same.
Qed.

Lemma np_inner_grid (A : mat F) u g :
  (∀ p, length (u p) = ncols A) →
  np_inner A (grid_map u g)
  = Ok ((λ a, grid_map (λ p, dotprod a (u p)) g) <$> A).
Proof.
  intros Hu. unfold np_inner.
  assert (forallb (rows_of_length (ncols A)) (grid_map u g) = true) as ->.
  { apply forallb_forall. intros plane Hp%list_elem_of_In.
    apply list_elem_of_fmap in Hp as (row & -> & _).
    apply rows_of_length_true, Forall_fmap, Forall_forall.
    intros p _. apply Hu. }
  f_equal. apply list_fmap_ext. intros _ a _.
  apply (grid_map_compose u (dotprod a)).
Qed.

Lemma ones_grid M N g :
  rectangular M N g →
  expand_mat (np_ones2 M N) = grid_map (λ _, [one]) g.
Proof.
  intros [<- Hrows]. unfold np_ones2, np_ones, expand_mat, grid_map.
  induction Hrows as [|row g Hrow _ IH]; [done|].
  cbn [length replicate fmap list_fmap]. rewrite <- IH. f_equal.
  rewrite <- Hrow. clear. induction row as [|p row IH]; [done|].
  cbn. by rewrite <- IH.
Qed.

Lemma rollaxis_0_3_grid M N (q0 q1 : X → F) g :
  rectangular M N g → g ≠ [] →
  rollaxis_0_3 [grid_map q0 g; grid_map q1 g]
  = grid_map (λ p, [q0 p; q1 p]) g.
Proof.
  intros [HM HN] Hg. unfold rollaxis_0_3.
  assert (ncols [grid_map q0 g; grid_map q1 g] = length g) as ->.
  { cbn. unfold grid_map. by rewrite length_fmap. }
  assert (depth [grid_map q0 g; grid_map q1 g] = N) as ->.
  { destruct g as [|row g]; [done|]. cbn. rewrite length_fmap.
    by inversion HN. }
  unfold grid_map at 3. apply fmap_seq_eq. intros m row Hrow.
  assert (length row = N) as <-.
  { eapply (proj1 (Forall_forall _ _) HN), list_elem_of_lookup_2, Hrow. }
  apply fmap_seq_eq. intros n p Hp. cbn.
  unfold at3, grid_map. cbn.
  rewrite !list_lookup_fmap, Hrow. cbn.
  by rewrite !list_lookup_fmap, Hp.
Qed.

Lemma rollaxis_2_0_grid M N (w0 w1 : X → F) g :
  rectangular M N g → M ≠ 0 → N ≠ 0 →
  rollaxis_2_0 (grid_map (λ p, [w0 p; w1 p]) g)
  = [grid_map w0 g; grid_map w1 g].
Proof.
  intros [HM HN] HM0 HN0. unfold rollaxis_2_0.
  set (c := grid_map (λ p, [w0 p; w1 p]) g).
  assert (length c = length g) as ->.
  { unfold c, grid_map. by rewrite length_fmap. }
  assert (ncols c = N ∧ depth c = 2) as [-> ->].
  { unfold c. destruct g as [|[|p row] g]; cbn.
    - by subst M.
    - apply Forall_cons_1 in HN as [HN' _]. by subst N.
    - apply Forall_cons_1 in HN as [HN' _]. cbn in HN'. split; [|done].
      by rewrite length_fmap. }
  cbn [seq fmap list_fmap].
  assert (∀ (i : nat) (w : X → F),
            (∀ p, default zero ([w0 p; w1 p] !! i) = w p) →
            (λ m, (λ n, at3 c m n i) <$> seq 0 N) <$> seq 0 (length g)
            = grid_map w g) as Hplane.
  { intros i w Hw. unfold grid_map at 1. apply fmap_seq_eq.
    intros m row Hrow.
    assert (length row = N) as <-.
    { eapply (proj1 (Forall_forall _ _) HN), list_elem_of_lookup_2, Hrow. }
    apply fmap_seq_eq. intros n p Hp.
    unfold at3, c, grid_map.
    rewrite !list_lookup_fmap, Hrow. cbn.
    rewrite !list_lookup_fmap, Hp. cbn. apply Hw. }
  rewrite (Hplane 0%nat w0), (Hplane 1%nat w1) by done. done.
Qed.

End grids.


(** ** The pipeline of [rev] *)

Section rev_pipeline.
Context {F : Type} `{Number F}.
Context {X : Type}.
Local Open Scope num_scope.
Implicit Types (g : mat X).

Lemma concat_fold_grid g (u0 : X → vec F) (us : list (X → vec F)) :
  foldl (λ acc c', a ← acc; concat2 a c') (Ok (grid_map u0 g))
        ((λ u, grid_map u g) <$> us)
  = Ok (grid_map (λ p, foldl (λ acc u, acc ++ u p) (u0 p) us) g).
Proof.
  revert u0. induction us as [|u us IH]; intros u0; [done|].
  cbn [fmap list_fmap foldl]. ok_step. rewrite concat2_grid.
  by rewrite IH.
Qed.

Lemma concat_axis2_grid g (u0 : X → vec F) (us : list (X → vec F)) :
  concat_axis2 ((λ u, grid_map u g) <$> (u0 :: us))
  = Ok (grid_map (λ p, foldl (λ acc u, acc ++ u p) (u0 p) us) g).
Proof. apply concat_fold_grid. Qed.

Lemma np_dsplit3_grid M N (a b c : X → F) g :
  rectangular M N g → M ≠ 0 → N ≠ 0 →
  np_dsplit3 (grid_map (λ p, [a p; b p; c p]) g)
  = Ok (grid_map (λ p, [a p]) g, grid_map (λ p, [b p]) g,
        grid_map (λ p, [c p]) g).
Proof.
  intros [HM HN] HM0 HN0. unfold np_dsplit3.
  assert (depth (grid_map (λ p, [a p; b p; c p]) g) = 3) as ->.
  { destruct g as [|[|p row] g']; [by subst M| |done].
    apply Forall_cons_1 in HN as [HN' _]. by subst N. }
  rewrite decide_True by done. f_equal.
  change (3 / 3) with 1. change (2 * 1) with 2.
  f_equal; [f_equal|].
  - apply (grid_map_compose (λ p, [a p; b p; c p]) (take 1)).
  - apply (grid_map_compose (λ p, [a p; b p; c p])
                            (λ v, take 1 (drop 1 v))).
  - apply (grid_map_compose (λ p, [a p; b p; c p]) (drop 2)).
Qed.

Lemma cmul_grid (a b : X → vec F) g :
  RatPolyTransform.cmul (grid_map a g) (grid_map b g)
  = grid_map (λ p, zip_with mul (a p) (b p)) g.
Proof. apply (zip_grid (zip_with mul)). Qed.

Lemma cpow_grid (a : X → vec F) (n : N) g :
  RatPolyTransform.cpow (grid_map a g) n
  = grid_map (λ p, (λ x, x ** n) <$> a p) g.
Proof. apply (grid_map_compose a (fmap (λ x, x ** n))). Qed.

Lemma rpc_grid M N (L P H' : X → F) g :
  rectangular M N g → M ≠ 0 → N ≠ 0 →
  RatPolyTransform._rpc (grid_map (λ p, [L p; P p; H' p]) g)
  = Ok (grid_map (λ p, basis20 (L p) (P p) (H' p)) g).
Proof.
  intros Hg HM0 HN0. unfold RatPolyTransform._rpc.
  rewrite (np_dsplit3_grid M N) by done. ok_step.
  assert (length (grid_map (λ p, [L p; P p; H' p]) g) = M) as ->.
  { unfold grid_map. rewrite length_fmap. apply Hg. }
  assert (ncols (grid_map (λ p, [L p; P p; H' p]) g) = N) as ->.
  { destruct Hg as [HM HN]. destruct g as [|row g']; [by subst M|].
    apply Forall_cons_1 in HN as [HN' _]. cbn. by rewrite length_fmap. }
  rewrite (ones_grid M N g) by done.
  rewrite !cpow_grid, !cmul_grid.
  exact (concat_axis2_grid g (λ _, [one])
    [ (λ p, [L p]); (λ p, [P p]); (λ p, [H' p]);
      (λ p, [L p * P p]); (λ p, [L p * H' p]); (λ p, [P p * H' p]);
      (λ p, [L p ** 2]); (λ p, [P p ** 2]); (λ p, [H' p ** 2]);
      (λ p, [L p * P p * H' p]); (λ p, [L p ** 3]);
      (λ p, [L p * P p ** 2]); (λ p, [L p * H' p ** 2]);
      (λ p, [L p ** 2 * P p]); (λ p, [P p ** 3]);
      (λ p, [P p * H' p ** 2]); (λ p, [L p ** 2 * H' p]);
      (λ p, [P p ** 2 * H' p]); (λ p, [H' p ** 3]) ]).
Qed.

End rev_pipeline.

Section rev_claim.
Context {F : Type} `{Number F}.
Variable pinv : mat F → result (mat F).
Local Open Scope num_scope.

Lemma nd_map_of_vec {A B} (f : A → B) (v : vec A) :
  nd_map f (of_vec v) = of_vec (f <$> v).
Proof.
  unfold of_vec. cbn. f_equal. rewrite <- !list_fmap_compose.
  by apply list_fmap_ext.
Qed.

Lemma nd_map_of_mat {A B} (f : A → B) (m : mat A) :
  nd_map f (of_mat m) = of_mat (grid_map f m).
Proof.
  unfold of_mat, grid_map. cbn. f_equal. rewrite <- !list_fmap_compose.
  apply list_fmap_ext. intros _ row _. apply nd_map_of_vec.
Qed.

Lemma np_asarray_nums (v : vec F) :
  np_asarray <$> (PyNum <$> v) = PyNum <$> v.
Proof. rewrite <- list_fmap_compose. by apply list_fmap_ext. Qed.

Lemma atleast_3d_of_vec (v : vec F) :
  atleast_3d (of_vec v) = Ok (expand_mat [v]).
Proof. unfold atleast_3d. cbn [of_vec]. by rewrite (as_vec_of_vec v). Qed.

Lemma atleast_3d_of_mat (m : mat F) :
  m ≠ [] → atleast_3d (of_mat m) = Ok (expand_mat m).
Proof.
  intros Hm. unfold atleast_3d. cbn [of_mat].
  change (PySeq KNdarray (of_vec <$> m)) with (of_mat m).
  assert (as_vec (of_mat m) = None) as ->.
  { destruct m as [|r m]; [done|]. reflexivity. }
  by rewrite as_mat_of_mat.
Qed.

Lemma rev_elevation_of_vec (v : vec F) (h : F) :
  RatPolyTransform.rev_elevation (of_vec v) (PyNum h)
  = Ok (of_vec ((λ _, zero + h) <$> v)).
Proof.
  unfold RatPolyTransform.rev_elevation, np_zeros_like.
  cbn [is_ndarray negb np_asarray]. rewrite nd_map_of_vec.
  cbn [np_arith of_vec]. fold (of_vec ((λ _ : F, zero) <$> v)).
  rewrite nd_map_of_vec. f_equal. f_equal.
  rewrite <- list_fmap_compose. by apply list_fmap_ext.
Qed.

Lemma rev_elevation_of_mat (m : mat F) (h : F) :
  RatPolyTransform.rev_elevation (of_mat m) (PyNum h)
  = Ok (of_mat (grid_map (λ _, zero + h) m)).
Proof.
  unfold RatPolyTransform.rev_elevation, np_zeros_like.
  cbn [is_ndarray negb np_asarray]. rewrite nd_map_of_mat.
  cbn [np_arith of_mat]. fold (of_mat (grid_map (λ _ : F, zero) m)).
  rewrite nd_map_of_mat. f_equal. f_equal.
  by rewrite grid_map_compose.
Qed.

Lemma np_dstack_mats (g : mat (F * F)) (h : F) :
  g ≠ [] →
  np_dstack [of_mat (grid_map fst g); of_mat (grid_map snd g);
             of_mat (grid_map (λ _, zero + h) (grid_map fst g))]
  = Ok (grid_map (λ p, [p.1; p.2; zero + h]) g).
Proof.
  intros Hg. unfold np_dstack. cbn [mapM].
  assert (Hne : ∀ {B} (f : F * F → B), grid_map f g ≠ []).
  { intros B f. by destruct g. }
  rewrite !atleast_3d_of_mat by (rewrite ?grid_map_compose; apply Hne).
  ok_step. rewrite grid_map_compose, !expand_grid.
  exact (concat_axis2_grid g (λ p, [p.1])
           [(λ p, [p.2]); (λ p, [zero + h])]).
Qed.

Lemma np_dstack_vecs (pts : list (F * F)) (h : F) :
  np_dstack [of_vec (fst <$> pts); of_vec (snd <$> pts);
             of_vec ((λ _, zero + h) <$> (fst <$> pts))]
  = Ok (grid_map (λ p, [p.1; p.2; zero + h]) [pts]).
Proof.
  unfold np_dstack. cbn [mapM]. rewrite !atleast_3d_of_vec. ok_step.
  rewrite <- list_fmap_compose.
  change [fst <$> pts] with (grid_map fst [pts]).
  change [snd <$> pts] with (grid_map snd [pts]).
  change [(λ _ : F, zero + h) ∘ fst <$> pts]
    with (grid_map (λ _ : F * F, zero + h) [pts]).
  rewrite !expand_grid.
  exact (concat_axis2_grid [pts] (λ p, [p.1])
           [(λ p, [p.2]); (λ p, [zero + h])]).
Qed.

(** The first three statements of [rev] on the specified inputs. *)
Lemma rev_input_coord lng lat (g : mat (F * F)) (h : F) :
  rev_input lng lat g → g ≠ [] →
  ∃ lng' lat' z',
    RatPolyTransform.rev_inputs lng lat = Ok (lng', lat')
    ∧ RatPolyTransform.rev_elevation lng' (PyNum h) = Ok z'
    ∧ np_dstack [lng'; lat'; z']
      = Ok (grid_map (λ p, [p.1; p.2; zero + h]) g).
Proof.
  intros Hin Hg. destruct Hin as [x y|pts|pts|g].
  - exists (of_vec [x]), (of_vec [y]), (of_vec [zero + h]).
    split; [reflexivity|]. split; reflexivity.
  - exists (of_mat [fst <$> pts]), (of_mat [snd <$> pts]),
      (of_mat (grid_map (λ _, zero + h) [fst <$> pts])).
    split; [|split].
    + unfold RatPolyTransform.rev_inputs, np_array1. cbn.
      by rewrite !np_asarray_nums.
    + apply rev_elevation_of_mat.
    + apply (np_dstack_mats [pts]). done.
  - exists (of_vec (fst <$> pts)), (of_vec (snd <$> pts)),
      (of_vec ((λ _, zero + h) <$> (fst <$> pts))).
    split; [reflexivity|]. split.
    + apply rev_elevation_of_vec.
    + apply np_dstack_vecs.
  - exists (of_mat (grid_map fst g)), (of_mat (grid_map snd g)),
      (of_mat (grid_map (λ _, zero + h) (grid_map fst g))).
    split; [reflexivity|]. split.
    + apply rev_elevation_of_mat.
    + by apply np_dstack_mats.
Qed.

(** [rev] on a grid of points: entry [i][m][n] of the result is the cast
    of [rev_pixel T i] at point [m][n]. *)
Lemma rev_on_grid {O}
    (A B : mat F) (offset scale px_offset px_scale : vec F)
    (pr : option string) (T : RatPolyTransform.t)
    (lng lat : pyobj F) (g : mat (F * F)) (M N : nat) (h : F)
    (_type : F → O) :
  RatPolyTransform.__init__ pinv A B offset scale px_offset px_scale pr
    = Ok T →
  length A = 2%nat → Forall (λ row, length row = 20%nat) A →
  length B = 2%nat → Forall (λ row, length row = 20%nat) B →
  length offset = 3%nat → length scale = 3%nat →
  length px_offset = 2%nat → length px_scale = 2%nat →
  rev_input lng lat g →
  rectangular M N g → M ≠ 0%nat → N ≠ 0%nat →
  RatPolyTransform.rev T lng lat (PyNum h) _type
  = Ok (nd_map _type
          (np_squeeze
             (of_cube
                [ grid_map (λ p, rev_pixel T 0 p.1 p.2 (zero + h)) g;
                  grid_map (λ p, rev_pixel T 1 p.1 p.2 (zero + h)) g ]))).
Proof.
  intros Hi HA HArows HB HBrows Ho Hs Hpo Hps Hin Hg HM0 HN0.
  pose proof (init_Ok _ _ _ _ _ _ _ _ _ Hi)
    as (_ & HTA & HTB & HTo & HTs & HTpo & HTps & Hoffscl & Hpxoffscl & _).
  assert (Hgne : g ≠ []) by (destruct Hg as [HM _], g; [by subst M|done]).
  destruct (rev_input_coord _ _ _ h Hin Hgne)
    as (lng' & lat' & z' & Hinputs & Helev & Hstack).
  destruct A as [|a0 [|a1 [|]]]; try discriminate.
  destruct B as [|b0 [|b1 [|]]]; try discriminate.
  destruct offset as [|o0 [|o1 [|o2 [|]]]]; try discriminate.
  destruct scale as [|s0 [|s1 [|s2 [|]]]]; try discriminate.
  destruct px_offset as [|po0 [|po1 [|]]]; try discriminate.
  destruct px_scale as [|ps0 [|ps1 [|]]]; try discriminate.
  apply Forall_cons_1 in HArows as [Ha0 [Ha1 _]%Forall_cons_1].
  apply Forall_cons_1 in HBrows as [Hb0 [Hb1 _]%Forall_cons_1].
  unfold RatPolyTransform.rev.
  rewrite Hinputs. ok_step. rewrite Helev. ok_step.
  rewrite Hstack. ok_step.
  rewrite Hoffscl, Hpxoffscl, HTA, HTB.
  change (np_vsplit2 [[o0; o1; o2]; [s0; s1; s2]])
    with (Ok ([[o0; o1; o2]], [[s0; s1; s2]])).
  change (np_vsplit2 [[po0; po1]; [ps0; ps1]])
    with (Ok ([[po0; po1]], [[ps0; ps1]])).
  ok_step.
  rewrite cube_mat_grid by done. ok_step.
  rewrite cube_mat_grid by done. ok_step.
  cbn [zip_with fst snd].
  rewrite (rpc_grid M N) by done. ok_step.
  rewrite (np_inner_grid [a0; a1])
    by (by intros p; cbn [ncols]; rewrite Ha0).
  ok_step.
  rewrite (np_inner_grid [b0; b1])
    by (by intros p; cbn [ncols]; rewrite Hb0).
  ok_step.
  cbn [fmap list_fmap].
  unfold bcube, broadcast2. rewrite decide_True by done.
  cbn [zip zip_with mapM fst snd]. rewrite !bmat_grid. ok_step.
  rewrite (rollaxis_0_3_grid M N) by done.
  rewrite cube_mat_grid by done. ok_step.
  rewrite cube_mat_grid by done. ok_step.
  cbn [zip_with].
  rewrite (rollaxis_2_0_grid M N) by done.
  unfold rev_pixel. rewrite HTA, HTB, HTo, HTs, HTpo, HTps. reflexivity.
Qed.

(** C1: for a constructed transform with 2 x 20 coefficient matrices,
    geographic offset and scale of three entries and pixel offset and scale
    of two, and for lon/lat given as two scalars, two tuples, two 1-d
    arrays or two 2-d arrays (a grid of M x N points, M and N at least 1)
    with a scalar elevation [h], [rev] returns the array whose entry
    [i][m][n] is the cast of [rev_pixel T i] at point [m][n], with
    elevation [0 + h], and with the axes of length 1 squeezed away:
    normalisation with the stored geographic offset and scale, the 20
    basis terms in the order of [basis20] for numerator and denominator,
    their element-wise quotient, denormalisation with the stored pixel
    offset and scale, and the cast [_type]; the default call casts with
    [np_int32], which truncates. *)
Theorem rev_evaluates_rational_polynomial {O}
    (A B : mat F) (offset scale px_offset px_scale : vec F)
    (pr : option string) (T : RatPolyTransform.t)
    (lng lat : pyobj F) (g : mat (F * F)) (M N : nat) (h : F)
    (_type : F → O) :
  RatPolyTransform.__init__ pinv A B offset scale px_offset px_scale pr
    = Ok T →
  length A = 2%nat → Forall (λ row, length row = 20%nat) A →
  length B = 2%nat → Forall (λ row, length row = 20%nat) B →
  length offset = 3%nat → length scale = 3%nat →
  length px_offset = 2%nat → length px_scale = 2%nat →
  rev_input lng lat g →
  rectangular M N g → M ≠ 0%nat → N ≠ 0%nat →
  RatPolyTransform.rev T lng lat (PyNum h) _type
  = Ok (nd_map _type
          (np_squeeze
             (of_cube
                [ grid_map (λ p, rev_pixel T 0 p.1 p.2 (zero + h)) g;
                  grid_map (λ p, rev_pixel T 1 p.1 p.2 (zero + h)) g ])))
  ∧ RatPolyTransform.rev_default T lng lat
    = RatPolyTransform.rev T lng lat (PyNum zero) np_int32
  ∧ (∀ x : F, (- 2 ^ 31 ≤ trunc x < 2 ^ 31)%Z → np_int32 x = trunc x).
Proof.
  intros Hi HA HArows HB HBrows Ho Hs Hpo Hps Hin Hg HM0 HN0.
  split; [by eapply rev_on_grid|]. split; [reflexivity|].
  intros x [Hlo Hhi]. unfold np_int32.
  by rewrite (proj2 (Z.leb_le _ _) Hlo), (proj2 (Z.ltb_lt _ _) Hhi).
Qed.

End rev_claim.

(** ** Shapes of broadcast results *)

Section shapes.
Context {F : Type} `{Number F}.


Lemma mapM_rel {A A' B B'} (f : A → result B) (f' : A' → result B')
    (R : A → A' → Prop) (S : B → B' → Prop) l l' zs zs' :
  (∀ x x' z z', R x x' → f x = Ok z → f' x' = Ok z' → S z z') →
  Forall2 R l l' →
  mapM f l = Ok zs → mapM f' l' = Ok zs' → Forall2 S zs zs'.
Proof.
  intros Hf Hl. revert zs zs'.
  induction Hl as [|x x' l l' Hx _ IH]; intros zs zs'; cbn.
  - intros [= <-] [= <-]. constructor.
  - intros Hm Hm'. inv_bind Hm. inv_bind Hm'.
    injection Hm as <-. injection Hm' as <-.
    constructor; [by eapply Hf | by apply IH].
Qed.

Lemma Forall2_zip_pair {A A' B B'} (R : A → A' → Prop) (S : B → B' → Prop)
    xs xs' ys ys' :
  Forall2 R xs xs' → Forall2 S ys ys' →
  Forall2 (λ p p', R p.1 p'.1 ∧ S p.2 p'.2) (zip xs ys) (zip xs' ys').
Proof.
  intros Hx. revert ys ys'.
  induction Hx as [|x x' xs xs' Hxx _ IH]; intros ys ys' Hy; [constructor|].
  destruct Hy as [|y y' ys ys' Hyy Hy]; [constructor|].
  cbn. constructor; [done | by apply IH].
Qed.

Lemma broadcast2_rel {A B C}
    (g : A → B → result C)
    (RA : A → A → Prop) (RB : B → B → Prop) (RC : C → C → Prop)
    xs xs' ys ys' zs zs' :
  (∀ x x' y y' z z',
     RA x x' → RB y y' → g x y = Ok z → g x' y' = Ok z' → RC z z') →
  Forall2 RA xs xs' → Forall2 RB ys ys' →
  broadcast2 g xs ys = Ok zs → broadcast2 g xs' ys' = Ok zs' →
  Forall2 RC zs zs'.
Proof.
  intros Hg Hx Hy. unfold broadcast2.
  pose proof (Forall2_length _ _ _ Hx) as Hlx.
  pose proof (Forall2_length _ _ _ Hy) as Hly.
  destruct (decide (length xs = length ys)) as [Hl|Hl].
  - rewrite decide_True by congruence.
    apply (mapM_rel _ _ (λ p p', RA p.1 p'.1 ∧ RB p.2 p'.2)).
    + intros [x y] [x' y'] z z' [? ?]. cbn. by apply Hg.
    + by apply Forall2_zip_pair.
  - rewrite decide_False by congruence.
    destruct Hx as [|x x' ? ? Hxx [|x2 x2' ? ? ? ?]].
    + destruct Hy as [|y y' ? ? Hyy [|? ? ? ? ? ?]]; try done.
      apply (mapM_rel _ _ RA); [|constructor].
      intros ? ? z z' ?. by apply Hg.
    + apply (mapM_rel _ _ RB); [|done]. intros ? ? z z' ?. by apply Hg.
    + destruct Hy as [|y y' ? ? Hyy [|? ? ? ? ? ?]]; try done.
      apply (mapM_rel _ _ RA); [|by repeat constructor].
      intros ? ? z z' ?. by apply Hg.
Qed.

Lemma bvec_rel (f : F → F → F) u u' v v' w w' :
  same_length u u' → same_length v v' →
  bvec f u v = Ok w → bvec f u' v' = Ok w' → same_length w w'.
Proof.
  intros Hu Hv Hw Hw'.
  eapply Forall2_length,
    (broadcast2_rel _ (λ _ _, True) (λ _ _, True) (λ _ _, True));
    [done| | |exact Hw|exact Hw'].
  - by apply Forall2_true.
  - by apply Forall2_true.
Qed.

Lemma bmat_rel (f : F → F → F) (m m' s s' p p' : mat F) :
  Forall2 same_length m m' → Forall2 same_length s s' →
  bmat f m s = Ok p → bmat f m' s' = Ok p' → Forall2 same_length p p'.
Proof.
  intros Hm Hs.
  apply (broadcast2_rel _ same_length same_length same_length); [|done..].
  intros x x' y y' z z' Hx Hy. by apply bvec_rel.
Qed.

Lemma np_sum_axis0_rel (p p' : mat F) :
  Forall2 same_length p p' →
  same_length (np_sum_axis0 p) (np_sum_axis0 p').
Proof.
  intros [|r r' rs rs' Hr Hrs]; [done|]. cbn.
  revert r r' Hr. induction Hrs as [|x x' rs rs' Hx _ IH]; intros r r' Hr.
  - done.
  - cbn. apply IH. unfold same_length in *.
    rewrite !length_zip_with. lia.
Qed.

Lemma offscl_apply_rel (m : mat F) (c c' v v' : vec F) :
  same_length c c' →
  RatPolyTransform.offscl_apply m c = Ok v →
  RatPolyTransform.offscl_apply m c' = Ok v' →
  same_length v v'.
Proof.
  intros Hc. unfold RatPolyTransform.offscl_apply.
  rewrite !np_vstack2_same by (unfold np_ones; by rewrite length_replicate).
  ok_step. intros Hv Hv'. inv_bind Hv. inv_bind Hv'.
  injection Hv as <-. injection Hv' as <-.
  apply np_sum_axis0_rel.
  eapply (bmat_rel mul m m); [| |done..].
  - by apply Forall_Forall2_diag, Forall_forall.
  - repeat constructor; unfold same_length, np_ones;
      rewrite ?length_replicate; done.
Qed.

End shapes.

(** ** Stacking and transposing vectors *)

Section transposition.
Context {E : Type}.

Lemma stack_items_lookup (f : pyobj E → list (pyobj E) → pyobj E)
    (ys ts : list (pyobj E)) (i0 i : nat) :
  stack_items f ys ts i0 !! i
  = (λ t', f t' (child (i0 + i) <$> ys)) <$> ts !! i.
Proof.
  revert i0 i. induction ts as [|t ts IH]; intros i0 [|i]; cbn; try done.
  - by rewrite Nat.add_0_r.
  - rewrite IH. by rewrite Nat.add_succ_r.
Qed.

Lemma np_transpose_of_vec (v : vec E) : np_transpose (of_vec v) = of_vec v.
Proof.
  unfold of_vec. cbn [np_transpose].
  assert (np_transpose <$> (PyNum <$> v) = PyNum <$> v) as ->.
  { rewrite <- list_fmap_compose. by apply list_fmap_ext. }
  by destruct v.
Qed.

Lemma item_children (vs : list (vec E)) (i j : nat) :
  item (PySeq KNdarray (child i <$> (of_vec <$> vs))) [j]
  = match vs !! j with Some v => v !! i | None => None end.
Proof.
  cbn [item]. rewrite !list_lookup_fmap.
  destruct (vs !! j) as [v|]; [|done]. cbn.
  rewrite list_lookup_fmap. by destruct (v !! i).
Qed.

(** The transpose of a stack of vectors of one length holds entry [i] of
    vector [j] at index [[i; j]]. *)
Lemma transpose_vectors_item (v0 : vec E) (vs : list (vec E)) (i j : nat) :
  Forall (λ v, length v = length v0) vs →
  item (np_transpose (PySeq KNdarray (of_vec <$> (v0 :: vs)))) [i; j]
  = match (v0 :: vs) !! j with Some v => v !! i | None => None end.
Proof.
  intros Hvs. cbn [np_transpose].
  assert (np_transpose <$> (of_vec <$> (v0 :: vs)) = of_vec <$> (v0 :: vs))
    as ->.
  { rewrite <- list_fmap_compose. apply list_fmap_ext.
    intros _ v _. apply np_transpose_of_vec. }
  assert (Hall : Forall (λ v, length v = length v0) (v0 :: vs))
    by (by constructor).
  set (ys := of_vec <$> (v0 :: vs)).
  assert (∃ rest, ys = of_vec v0 :: rest) as [rest Hys] by (by eexists).
  rewrite Hys. rewrite <- Hys at 1. clear Hys rest.
  unfold of_vec at 1. cbn [push_last].
  change (item (PySeq KNdarray ?l) [i; j])
    with (match l !! i with Some x => item x [j] | None => None end).
  rewrite stack_items_lookup, list_lookup_fmap. cbn [plus].
  destruct (v0 !! i) as [x0|] eqn:Hx0.
  - cbn [fmap option_fmap option_map push_last]. apply item_children.
  - cbn [fmap option_fmap option_map].
    destruct ((v0 :: vs) !! j) as [v|] eqn:Hv; [|done].
    assert (Hlen : length v = length v0).
    { eapply (proj1 (Forall_forall _ _) Hall), list_elem_of_lookup_2, Hv. }
    symmetry. apply lookup_ge_None. apply lookup_ge_None in Hx0. lia.
Qed.

End transposition.

(** ** Batches through [fwd] *)

Section fwd_batch.
Context {F : Type} `{Number F}.
Import RatPolyTransform.

Lemma take_indices_length (v w : vec F) (idx : list nat) :
  take_indices v idx = Ok w → length w = length idx.
Proof.
  unfold take_indices. revert w.
  induction idx as [|i idx IH]; intros w; cbn.
  - by intros [= <-].
  - intros Hw. inv_bind Hw. injection Hw as <-. cbn. f_equal. by apply IH.
Qed.

(** The result of the scalar branch is a vector whose length does not
    depend on the point. *)
Lemma fwd_point_shape (T : t) (x y x' y' : F) (r r' : pyobj F) :
  fwd_point T (PyNum x) (PyNum y) = Ok r →
  fwd_point T (PyNum x') (PyNum y') = Ok r' →
  ∃ v v', r = of_vec v ∧ r' = of_vec v' ∧ length v = length v'.
Proof.
  unfold fwd_point. intros Hr Hr'. inv_bind Hr. inv_bind Hr'.
  injection Hr as <-. injection Hr' as <-.
  eexists _, _. split; [done|]. split; [done|].
  eapply (offscl_apply_rel _ v1 v5); [|done..].
  unfold same_length.
  by rewrite (take_indices_length _ _ _ Hv1), (take_indices_length _ _ _ Hv5).
Qed.

Lemma fwd_run_point (T : t) (x y : F) (z : pyobj F) :
  fwd_run T (PyNum x) (PyNum y) z = (1, fwd_point T (PyNum x) (PyNum y)).
Proof. reflexivity. Qed.

Lemma comprehension_points (T : t) (pts : list (F * F)) (rs zs : list (pyobj F)) :
  length zs = length pts →
  Forall2 (λ p r, fwd_point T (PyNum p.1) (PyNum p.2) = Ok r) pts rs →
  comprehension (fwd_run T)
    (PyNum <$> (fst <$> pts)) (PyNum <$> (snd <$> pts)) zs
  = (length pts, Ok rs).
Proof.
  intros Hzs Hrs. revert zs Hzs.
  induction Hrs as [|[x y] r pts rs Hr _ IH]; intros zs Hzs.
  - by destruct zs.
  - destruct zs as [|z zs]; [done|]. cbn in Hzs.
    cbn [fmap list_fmap comprehension fst snd].
    rewrite fwd_run_point. cbn [fst snd] in Hr. rewrite Hr.
    rewrite (IH zs) by lia. done.
Qed.

(** A batch of points through [fwd]: the result holds at [[i; j]] entry
    [i] of the result for point [j], and the call activates [fwd] once
    for itself and once for every point. *)
Lemma fwd_batch (T : t) (k1 k2 : seqkind) (pts : list (F * F))
    (rs : list (pyobj F)) :
  pts ≠ [] →
  Forall2 (λ p r, fwd T (PyNum p.1) (PyNum p.2) PyNone = Ok r) pts rs →
  ∃ R,
    fwd T (PySeq k1 (PyNum <$> (fst <$> pts)))
          (PySeq k2 (PyNum <$> (snd <$> pts))) PyNone = Ok R
    ∧ (∀ i j, item R [i; j]
              = match rs !! j with Some r => item r [i] | None => None end)
    ∧ fwd_calls T (PySeq k1 (PyNum <$> (fst <$> pts)))
                  (PySeq k2 (PyNum <$> (snd <$> pts))) PyNone
      = S (length pts).
Proof.
  intros Hpts Hrs. unfold fwd, fwd_calls. rewrite fwd_run_seq.
  cbn [py_iter].
  rewrite (comprehension_points T pts rs);
    [|by rewrite length_replicate, !length_fmap|exact Hrs].
  cbn [fst snd]. ok_step.
  destruct Hrs as [|[x y] r pts rs Hr Hrs]; [done|]. clear Hpts.
  cbn [fst snd] in Hr.
  (* every result is a vector of the length of the first one *)
  assert (∃ v0, r = of_vec v0) as [v0 ->].
  { destruct (fwd_point_shape _ _ _ _ _ _ _ Hr Hr) as (v & _ & -> & _).
    eauto. }
  assert (∃ vs, rs = of_vec <$> vs ∧ Forall (λ v, length v = length v0) vs)
    as (vs & -> & Hvs).
  { clear -Hrs Hr. induction Hrs as [|[x' y'] r' pts rs Hr' _ IH].
    - by exists [].
    - destruct IH as (vs & -> & Hvs). cbn [fst snd] in Hr'.
      destruct (fwd_point_shape _ _ _ _ _ _ _ Hr Hr')
        as (v & v' & Hv & -> & Hlen).
      apply of_vec_inj in Hv as ->.
      exists (v' :: vs). split; [done|]. by constructor. }
  assert (np_stack (of_vec v0 :: (of_vec <$> vs))
          = Ok (PySeq KNdarray (of_vec <$> (v0 :: vs)))) as ->.
  { unfold np_stack.
    assert (forallb (λ r', bool_decide (shape r' = shape (of_vec v0)))
                    (of_vec <$> vs) = true) as ->; [|done].
    apply forallb_forall. intros r' Hr'%list_elem_of_In.
    apply list_elem_of_fmap in Hr' as (v & -> & Hv).
    apply bool_decide_eq_true. rewrite !shape_of_vec. f_equal.
    by apply (proj1 (Forall_forall _ _) Hvs). }
  ok_step. eexists. split; [reflexivity|]. split; [|done].
  intros i j. rewrite transpose_vectors_item by done.
  change (of_vec v0 :: (of_vec <$> vs)) with (of_vec <$> (v0 :: vs)).
  rewrite list_lookup_fmap.
  destruct ((v0 :: vs) !! j) as [v|]; cbn; [|done].
  rewrite list_lookup_fmap. by destruct (v !! i).
Qed.

End fwd_batch.

(** ** Batches through [rev] and through the affine transform *)

Section batches.
Context {F : Type} `{Number F}.
Variable pinv : mat F → result (mat F).
Local Open Scope num_scope.

Lemma np_squeeze_of_vec {E} (u : vec E) :
  length u ≠ 1%nat → np_squeeze (of_vec u) = of_vec u.
Proof.
  intros Hu. unfold of_vec.
  destruct u as [|x [|y u]]; [done|done|].
  cbn [fmap list_fmap np_squeeze]. f_equal. f_equal. f_equal.
  rewrite <- list_fmap_compose. by apply list_fmap_ext.
Qed.

Lemma np_squeeze_two_rows {E} (u w : vec E) :
  length u ≠ 1%nat → length w ≠ 1%nat →
  np_squeeze (of_cube [[u]; [w]]) = of_mat [u; w].
Proof.
  intros Hu Hw. unfold of_cube, of_mat.
  cbn [fmap list_fmap np_squeeze].
  by rewrite !np_squeeze_of_vec.
Qed.

Lemma item_of_vec {E} (v : vec E) (i : nat) : item (of_vec v) [i] = v !! i.
Proof.
  cbn. rewrite list_lookup_fmap. by destruct (v !! i).
Qed.

Lemma item_of_mat {E} (m : mat E) (i j : nat) :
  item (of_mat m) [i; j]
  = match m !! i with Some v => v !! j | None => None end.
Proof.
  unfold of_mat. cbn [item]. rewrite list_lookup_fmap.
  destruct (m !! i) as [v|]; [|done]. apply item_of_vec.
Qed.

(** A batch of points through [rev], as two tuples or two 1-d arrays. *)
Lemma rev_batch {O}
    (A B : mat F) (offset scale px_offset px_scale : vec F)
    (pr : option string) (T : RatPolyTransform.t)
    (lng lat : pyobj F) (pts : list (F * F)) (h : F) (_type : F → O) :
  RatPolyTransform.__init__ pinv A B offset scale px_offset px_scale pr
    = Ok T →
  length A = 2%nat → Forall (λ row, length row = 20%nat) A →
  length B = 2%nat → Forall (λ row, length row = 20%nat) B →
  length offset = 3%nat → length scale = 3%nat →
  length px_offset = 2%nat → length px_scale = 2%nat →
  pts ≠ [] →
  rev_input lng lat [pts] →
  ∃ R,
    RatPolyTransform.rev T lng lat (PyNum h) _type = Ok R
    ∧ ∀ j p, pts !! j = Some p →
        ∃ r,
          RatPolyTransform.rev T (PyNum p.1) (PyNum p.2) (PyNum h) _type
            = Ok r
          ∧ (length pts = 1%nat → R = r)
          ∧ (length pts ≠ 1%nat → ∀ i, item R [i; j] = item r [i]).
Proof.
  intros Hi HA HAr HB HBr Ho Hs Hpo Hps Hpts Hin.
  assert (Hgrid : rectangular 1 (length pts) [pts]).
  { split; [done|]. by repeat constructor. }
  assert (HN0 : length pts ≠ 0%nat) by (by destruct pts).
  rewrite (rev_on_grid pinv A B offset scale px_offset px_scale pr T
             lng lat [pts] 1 (length pts) h _type) by done.
  eexists. split; [reflexivity|]. intros j p Hp.
  rewrite (rev_on_grid pinv A B offset scale px_offset px_scale pr T
             (PyNum p.1) (PyNum p.2) [[(p.1, p.2)]] 1 1 h _type);
    try done.
  2:{ constructor. }
  2:{ split; [done|]. by repeat constructor. }
  eexists. split; [reflexivity|]. split.
  - intros Hone. destruct pts as [|p' [|]]; try discriminate.
    destruct j; [|done]. by injection Hp as ->.
  - intros Hmany i. cbn [grid_map fmap list_fmap].
    rewrite np_squeeze_two_rows by (by rewrite length_fmap).
    rewrite nd_map_of_mat, item_of_mat.
    change (nd_map _type (np_squeeze (of_cube [[[?a]]; [[?b]]])))
      with (of_vec [_type a; _type b]).
    rewrite item_of_vec.
    destruct i as [|[|i]]; cbn [grid_map fmap list_fmap lookup list_lookup].
    + by rewrite !list_lookup_fmap, Hp.
    + by rewrite !list_lookup_fmap, Hp.
    + done.
Qed.

End batches.

Section affine_batches.
Context {F : Type} `{Number F}.
Local Open Scope num_scope.

Lemma nd_zip_vecs (f : F → F → F) (u v : vec F) :
  nd_zip f (of_vec u) (of_vec v) = of_vec (zip_with f u v).
Proof.
  unfold of_vec. cbn [nd_zip]. f_equal. revert v.
  induction u as [|x u IH]; intros [|y v]; cbn; try done.
  f_equal. apply IH.
Qed.

Lemma broadcast_to_vec (v : vec F) :
  broadcast_to [length v] (of_vec v) = of_vec v.
Proof.
  cbn [broadcast_to]. rewrite shape_of_vec. rewrite decide_True by done.
  unfold of_vec. destruct v as [|x [|y v]]; try done.
  cbn [fmap list_fmap broadcast_to]. do 3 f_equal.
  apply (list_fmap_id (PyNum <$> v)).
Qed.

Lemma broadcast_shapes_same (n : nat) : broadcast_shapes [n] [n] = Some [n].
Proof. unfold broadcast_shapes. cbn. by rewrite decide_True. Qed.

Lemma np_arith_vecs (f : F → F → F) (u v : vec F) :
  length u = length v →
  np_arith f (of_vec u) (of_vec v) = Ok (of_vec (zip_with f u v)).
Proof.
  intros Hl. unfold np_arith. cbn [of_vec].
  change (PySeq KNdarray (PyNum <$> ?w)) with (of_vec w).
  rewrite !shape_of_vec, <- Hl, broadcast_shapes_same.
  cbn [from_option]. ok_step.
  rewrite broadcast_to_vec. rewrite Hl, broadcast_to_vec.
  by rewrite nd_zip_vecs.
Qed.

(** [self * (vx, vy)] on two 1-d arrays holding the points [pts], and on
    the two coordinates of one point. *)
Lemma mul_pair_vecs (s : Affine.t) (pts : list (F * F)) :
  Affine.mul_pair s (of_vec (fst <$> pts)) (of_vec (snd <$> pts))
  = Ok (of_vec ((λ p, (Affine.apply s p.1 p.2).1) <$> pts),
        of_vec ((λ p, (Affine.apply s p.1 p.2).2) <$> pts)).
Proof.
  unfold Affine.mul_pair. cbn [py_mul_num of_vec].
  change (PySeq KNdarray (PyNum <$> ?w)) with (of_vec w).
  rewrite !nd_map_of_vec. ok_step.
  rewrite !np_arith_vecs by (by rewrite !length_fmap). ok_step.
  cbn [py_add_num of_vec].
  change (PySeq KNdarray (PyNum <$> ?w)) with (of_vec w).
  rewrite !nd_map_of_vec. ok_step.
  rewrite <- !list_fmap_compose, !zip_with_fmap_same.
  by rewrite <- !list_fmap_compose.
Qed.

Lemma mul_pair_point (s : Affine.t) (x y : F) :
  Affine.mul_pair s (PyNum x) (PyNum y)
  = Ok (PyNum (Affine.apply s x y).1, PyNum (Affine.apply s x y).2).
Proof. reflexivity. Qed.

Lemma np_stack_two_vecs (u w : vec F) :
  length u = length w →
  np_stack [of_vec u; of_vec w] = Ok (of_mat [u; w]).
Proof.
  intros Hl. unfold np_stack. cbn [forallb].
  rewrite !shape_of_vec, Hl. by rewrite bool_decide_eq_true_2.
Qed.

End affine_batches.


Section claim_batches.
Context {F : Type} `{Number F}.
Variable pinv : mat F → result (mat F).
Local Open Scope num_scope.

(** C5 (amended): a batch of N points (N at least 1), in a form the
    operation takes, gives element-wise the results of the calls made
    point by point.
    - RPC [fwd], batch as lists, tuples or 1-d arrays: entry [[i; j]] of
      the result is entry [i] of the result for point [j]; the batch path
      is a recursion over the elements, one nested call of [fwd] per
      point.
    - RPC [rev] (constructed transform, scalar elevation), batch as two
      tuples or two 1-d arrays: the same, and for N = 1 the two results
      are equal.
    - Affine [fwd] and [rev], batch as two 1-d arrays: the same, [rev]
      given the inverse matrix it caches. *)
Theorem batch_matches_pointwise {O}
    (A B : mat F) (offset scale px_offset px_scale : vec F)
    (pr : option string) (T : RatPolyTransform.t) (U : AffineTransform.t)
    (pts : list (F * F)) (h : F) (_type : F → O) (z : pyobj F) :
  RatPolyTransform.__init__ pinv A B offset scale px_offset px_scale pr
    = Ok T →
  length A = 2%nat → Forall (λ row, length row = 20%nat) A →
  length B = 2%nat → Forall (λ row, length row = 20%nat) B →
  length offset = 3%nat → length scale = 3%nat →
  length px_offset = 2%nat → length px_scale = 2%nat →
  pts ≠ [] →
  (∀ k1 k2 rs,
     Forall2 (λ p r, RatPolyTransform.fwd T (PyNum p.1) (PyNum p.2) PyNone
                     = Ok r) pts rs →
     ∃ R,
       RatPolyTransform.fwd T (PySeq k1 (PyNum <$> (fst <$> pts)))
                              (PySeq k2 (PyNum <$> (snd <$> pts))) PyNone
         = Ok R
       ∧ (∀ i j, item R [i; j]
                 = match rs !! j with
                   | Some r => item r [i]
                   | None => None
                   end)
       ∧ RatPolyTransform.fwd_calls T
           (PySeq k1 (PyNum <$> (fst <$> pts)))
           (PySeq k2 (PyNum <$> (snd <$> pts))) PyNone
         = S (length pts))
  ∧ (∀ lng lat,
       rev_input lng lat [pts] →
       ∃ R,
         RatPolyTransform.rev T lng lat (PyNum h) _type = Ok R
         ∧ ∀ j p, pts !! j = Some p →
             ∃ r,
               RatPolyTransform.rev T (PyNum p.1) (PyNum p.2) (PyNum h)
                                    _type = Ok r
               ∧ (length pts = 1%nat → R = r)
               ∧ (length pts ≠ 1%nat →
                  ∀ i, item R [i; j] = item r [i]))
  ∧ (∃ R1 R2,
       AffineTransform.fwd U (of_vec (fst <$> pts)) (of_vec (snd <$> pts)) z
         = Ok (PySeq KTuple [R1; R2])
       ∧ ∀ j p, pts !! j = Some p →
           ∃ r1 r2,
             AffineTransform.fwd U (PyNum p.1) (PyNum p.2) z
               = Ok (PySeq KTuple [PyNum r1; PyNum r2])
             ∧ item R1 [j] = Some r1 ∧ item R2 [j] = Some r2)
  ∧ (∀ inv U',
       AffineTransform.cached_inverse U = Ok (inv, U') →
       ∃ R,
         (AffineTransform.rev U (of_vec (fst <$> pts))
                                (of_vec (snd <$> pts)) z).1 = Ok R
         ∧ ∀ j p, pts !! j = Some p →
             ∃ r,
               (AffineTransform.rev U (PyNum p.1) (PyNum p.2) z).1 = Ok r
               ∧ ∀ i, item R [i; j] = item r [i]).
Proof.
  intros Hi HA HAr HB HBr Ho Hs Hpo Hps Hpts.
  split; [|split; [|split]].
  - intros k1 k2 rs Hrs. by apply fwd_batch.
  - intros lng lat Hin. by eapply (rev_batch pinv).
  - unfold AffineTransform.fwd. rewrite mul_pair_vecs. ok_step.
    eexists _, _. split; [reflexivity|]. intros j p Hp.
    rewrite mul_pair_point. ok_step. eexists _, _.
    split; [reflexivity|].
    rewrite !item_of_vec, !list_lookup_fmap, Hp. done.
  - intros inv U' Hinv. unfold AffineTransform.rev. rewrite Hinv.
    cbn [fst]. rewrite mul_pair_vecs. ok_step.
    rewrite np_stack_two_vecs by (by rewrite !length_fmap). ok_step.
    eexists. split; [reflexivity|]. intros j p Hp.
    rewrite mul_pair_point. ok_step. eexists. split; [reflexivity|].
    intros i. rewrite nd_map_of_mat, item_of_mat.
    change (nd_map np_int32 (PySeq KNdarray [PyNum ?a; PyNum ?b]))
      with (of_vec [np_int32 a; np_int32 b]).
    rewrite item_of_vec.
    destruct i as [|[|i]]; cbn [grid_map fmap list_fmap lookup list_lookup].
    + by rewrite !list_lookup_fmap, Hp.
    + by rewrite !list_lookup_fmap, Hp.
    + done.
Qed.

End claim_batches.
(** ** The model on concrete inputs *)

Example rev_scalar_pair :
  RatPolyTransform.rev_default ex_T (PyNum 1%Z) (PyNum 2%Z)
  = Ok (of_vec [38; 236855]%Z).
Proof. vm_compute. reflexivity. Qed.

Example rev_tuple_pair :
  RatPolyTransform.rev_default ex_T
    (PySeq KTuple [PyNum 1%Z; PyNum 0%Z]) (PySeq KTuple [PyNum 2%Z; PyNum 0%Z])
  = Ok (of_mat [[38; 38]; [236855; 86795]]%Z).
Proof. vm_compute. reflexivity. Qed.

Example rev_list_pair_refused :
  RatPolyTransform.rev_default ex_T
    (PySeq KList [PyNum 1%Z]) (PySeq KList [PyNum 2%Z])
  = Raise ValueError.
Proof. reflexivity. Qed.

Example rev_scalar_with_array_refused :
  RatPolyTransform.rev_default ex_T (PyNum 1%Z) (of_vec [2%Z])
  = Raise ValueError.
Proof. reflexivity. Qed.

Example call_result_shape :
  shape <$> RatPolyTransform.__call__ ex_T (of_mat [[1; 2]; [3; 4]; [5; 6]]%Z)
  = Ok [1; 3; 3]%nat.
Proof. vm_compute. reflexivity. Qed.

Example fwd_scalar_with_list_refused :
  RatPolyTransform.fwd ex_T (PyNum 1%Z) (PySeq KList [PyNum 2%Z]) PyNone
  = Raise TypeError.
Proof. reflexivity. Qed.

Example add_array_shift_refused :
  RatPolyTransform.__add__ pinv_id ex_T (of_vec [1; 2]%Z) = Raise TypeError.
Proof. reflexivity. Qed.

Example sub_array_shift :
  RatPolyTransform._px_offset
    <$> RatPolyTransform.__sub__ pinv_id ex_T (of_vec [1; 2]%Z)
  = Ok [11; 22]%Z.
Proof. vm_compute. reflexivity. Qed.

Example int32_truncates :
  np_int32 (Q2Qc (5 # 2)) = 2%Z ∧ np_int32 (Q2Qc (- 5 # 2)) = (-2)%Z.
Proof. split; reflexivity. Qed.

Example upper_key :
  (upper "wv02" +:+ "_" +:+ upper "multi")%string = "WV02_MULTI"%string.
Proof. reflexivity. Qed.

(** ** Instances of the theorems *)

Lemma pinv_id_Ok (m Pi : mat Z) : pinv_id m = Ok Pi → Pi = m.
Proof. destruct m; [done|]. by intros [= <-]. Qed.

Lemma pinv_id_square (m Pi : mat Z) :
  pinv_id m = Ok Pi →
  Forall (λ row, length row = length m) m →
  Forall (λ row, length row = length m) Pi.
Proof. by intros ->%pinv_id_Ok. Qed.

Lemma ex_gram_pinv :
  pinv_id (gram [RatPolyTransform.lineNumCoefs ex_rpcs;
                 RatPolyTransform.sampleNumCoefs ex_rpcs])
  = Ok (gram [RatPolyTransform.lineNumCoefs ex_rpcs;
              RatPolyTransform.sampleNumCoefs ex_rpcs]).
Proof. vm_compute. reflexivity. Qed.

Lemma ex_gram_rows :
  Forall (λ row : vec Z,
            length row
            = length (gram [RatPolyTransform.lineNumCoefs ex_rpcs;
                            RatPolyTransform.sampleNumCoefs ex_rpcs]))
    (gram [RatPolyTransform.lineNumCoefs ex_rpcs;
           RatPolyTransform.sampleNumCoefs ex_rpcs]).
Proof. apply rows_of_length_true. vm_compute. reflexivity. Qed.

Lemma ex_T_init :
  RatPolyTransform.__init__ pinv_id
    [RatPolyTransform.lineNumCoefs ex_rpcs;
     RatPolyTransform.sampleNumCoefs ex_rpcs]
    [RatPolyTransform.lineDenCoefs ex_rpcs;
     RatPolyTransform.sampleDenCoefs ex_rpcs]
    [1; 2; 3]%Z [1; 1; 1]%Z [10; 20]%Z [2; 3]%Z (Some "EPSG:4326"%string)
  = Ok ex_T.
Proof. vm_compute. reflexivity. Qed.

Lemma rev_evaluates_rational_polynomial_witness :
  rev_input (PyNum 1%Z) (PyNum 2%Z) [[(1%Z, 2%Z)]]
  ∧ RatPolyTransform.rev ex_T (PyNum 1%Z) (PyNum 2%Z) (PyNum 0%Z) np_int32
    = Ok (nd_map np_int32
            (np_squeeze
               (of_cube
                  [ grid_map (λ p, rev_pixel ex_T 0 p.1 p.2 (0 + 0)%Z)
                             [[(1%Z, 2%Z)]];
                    grid_map (λ p, rev_pixel ex_T 1 p.1 p.2 (0 + 0)%Z)
                             [[(1%Z, 2%Z)]] ]))).
Proof.
  split; [constructor|].
  refine (proj1 (rev_evaluates_rational_polynomial pinv_id
           _ _ _ _ _ _ _ ex_T (PyNum 1%Z) (PyNum 2%Z) [[(1%Z, 2%Z)]]
           1 1 0%Z np_int32 ex_T_init _ _ _ _ _ _ _ _ _ _ _ _)).
  all: try reflexivity.
  all: try (by repeat constructor).
  all: done.
Defined.

Lemma toa_triples_per_band_witness :
  ex_table !! "WV02_MULTI"%string = Some [2; 3]%Z
  ∧ ∃ triples,
      calc_toa_gain_offset (λ x, x) (λ x, x) 3%Z (λ _ _ _ _, 1%Z)
        ex_table ex_table ex_table ex_meta = Ok triples
      ∧ length triples = 2%nat
      ∧ ∀ i a w g o es,
          abscalfactor ex_meta !! i = Some a →
          effbandwidth ex_meta !! i = Some w →
          [2; 3]%Z !! i = Some g →
          [2; 3]%Z !! i = Some o →
          [2; 3]%Z !! i = Some es →
          triples !! i
          = Some (mul (div a w) g,
                  div (mul (power 1%Z 2) 3%Z)
                      (mul es (sub (of_Z 90) (mean_sun_el ex_meta))),
                  o).
Proof.
  split; [reflexivity|].
  apply (toa_triples_per_band (λ x, x) (λ x, x) 3%Z (λ _ _ _ _, 1%Z)
           ex_table ex_table ex_table ex_meta 2
           [2; 3]%Z [2; 3]%Z [2; 3]%Z 10%Z 20%Z 30%Z);
    reflexivity.
Defined.




Lemma batch_entry_points_reject_shape_witness :
  is_ndarray (of_mat [[1; 2; 3]]%Z) = true
  ∧ RatPolyTransform.__call__ ex_T (of_mat [[1; 2; 3]]%Z)
    = Raise AssertionError
  ∧ RatPolyTransform.__call__ ex_T (of_vec [1; 2]%Z)
    = Raise NotImplementedError
  ∧ AffineTransform.__call__ ex_U Int64 (of_mat [[1; 2; 3]]%Z)
    = Raise AssertionError
  ∧ AffineTransform.inverse ex_U Int64 (of_mat [[1; 2; 3]]%Z)
    = (Raise AssertionError, ex_U).
Proof.
  split; [reflexivity|].
  destruct (batch_entry_points_reject_shape ex_T ex_U (of_mat [[1; 2; 3]]%Z)
              Int64)
    as (H1 & H2 & H3); [reflexivity | intros n; discriminate |].
  destruct (batch_entry_points_reject_shape ex_T ex_U (of_vec [1; 2]%Z)
              Int64)
    as (H4 & _); [reflexivity | intros n; discriminate |].
  split; [exact H1|]. split; [exact H4|]. split; [exact H2|exact H3].
Defined.


Lemma from_rpcs_builds_witness :
  length (RatPolyTransform.lineNumCoefs ex_rpcs)
    = length (RatPolyTransform.sampleNumCoefs ex_rpcs)
  ∧ (∃ T, RatPolyTransform.from_rpcs pinv_id ex_rpcs = Ok T
       ∧ RatPolyTransform._scale T = [1; 1; 1]%Z
       ∧ RatPolyTransform._offset T = [1; 2; 3]%Z
       ∧ RatPolyTransform.proj T = Some "EPSG:4326"%string)
  ∧ RatPolyTransform.from_rpcs pinv_id ex_rpcs_zero = Raise ZeroDivisionError.
Proof.
  split; [reflexivity|]. split.
  - destruct (proj1 (from_rpcs_builds pinv_id ex_rpcs
                       (gram [RatPolyTransform.lineNumCoefs ex_rpcs;
                              RatPolyTransform.sampleNumCoefs ex_rpcs])
                       eq_refl eq_refl))
      as (T & HT & _ & _ & Hs & Ho & _ & _ & Hp);
      [reflexivity|reflexivity|reflexivity
      |exact ex_gram_pinv|exact ex_gram_rows|].
    exists T. split; [exact HT|]. split; [exact Hs|].
    split; [exact Ho|exact Hp].
  - apply (proj2 (from_rpcs_builds pinv_id ex_rpcs_zero [] eq_refl eq_refl)).
    reflexivity.
Defined.

Lemma rpc_shift_frame_witness :
  RatPolyTransform.__add__ pinv_id ex_T (PySeq KList [PyNum 1%Z; PyNum 2%Z])
    = Ok ex_T_shifted
  ∧ RatPolyTransform._px_offset ex_T = [10; 20]%Z
  ∧ RatPolyTransform._px_offset ex_T_shifted = [9; 18]%Z
  ∧ RatPolyTransform.proj ex_T = Some "EPSG:4326"%string
  ∧ RatPolyTransform.proj ex_T_shifted = None
  ∧ AffineTransform.proj ex_U_shifted = AffineTransform.proj ex_U.
Proof.
  assert (Ha : RatPolyTransform.__add__ pinv_id ex_T
                 (PySeq KList [PyNum 1%Z; PyNum 2%Z]) = Ok ex_T_shifted)
    by (vm_compute; reflexivity).
  assert (Hu : AffineTransform.__add__ ex_U
                 (PySeq KList [PyNum 1%Z; PyNum 2%Z]) = Ok ex_U_shifted)
    by (vm_compute; reflexivity).
  destruct (rpc_shift_frame pinv_id ex_T ex_T_shifted ex_U ex_U_shifted
              (PySeq KList [PyNum 1%Z; PyNum 2%Z])) as (H1 & _ & H3).
  destruct (H1 Ha) as (shift & _ & _ & _ & _ & _ & _ & _ & Hproj).
  split; [exact Ha|]. split; [reflexivity|]. split; [reflexivity|].
  split; [reflexivity|]. split; [exact Hproj|exact (H3 Hu)].
Defined.

Lemma batch_matches_pointwise_witness :
  Forall2 (λ p r, RatPolyTransform.fwd ex_T (PyNum p.1) (PyNum p.2) PyNone
                  = Ok r) [(1, 2); (3, 4)]%Z ex_fwd_results
  ∧ RatPolyTransform.fwd_calls ex_T
      (PySeq KList (PyNum <$> (fst <$> [(1, 2); (3, 4)]%Z)))
      (PySeq KTuple (PyNum <$> (snd <$> [(1, 2); (3, 4)]%Z))) PyNone
    = 3%nat
  ∧ ∃ R,
      RatPolyTransform.rev ex_T (of_vec [1; 3]%Z) (of_vec [2; 4]%Z)
        (PyNum 0%Z) np_int32 = Ok R
      ∧ ∃ r,
          RatPolyTransform.rev ex_T (PyNum 3%Z) (PyNum 4%Z) (PyNum 0%Z)
            np_int32 = Ok r
          ∧ ∀ i, item R [i; 1%nat] = item r [i].
Proof.
  assert (Hrs : Forall2
            (λ p r, RatPolyTransform.fwd ex_T (PyNum p.1) (PyNum p.2) PyNone
                    = Ok r) [(1, 2); (3, 4)]%Z ex_fwd_results).
  { repeat constructor. }
  destruct (batch_matches_pointwise pinv_id _ _ _ _ _ _ _ ex_T ex_U
              [(1, 2); (3, 4)]%Z 0%Z np_int32 PyNone ex_T_init)
    as (Hfwd & Hrev & _); try reflexivity; try (by repeat constructor).
  split; [exact Hrs|]. split.
  - destruct (Hfwd KList KTuple ex_fwd_results Hrs) as (R & _ & _ & Hcalls).
    exact Hcalls.
  - destruct (Hrev (of_vec (fst <$> [(1, 2); (3, 4)]%Z))
                   (of_vec (snd <$> [(1, 2); (3, 4)]%Z))
                   (rev_input_array1 _)) as (R & HR & Hpts).
    exists R. split; [exact HR|].
    destruct (Hpts 1%nat (3, 4)%Z eq_refl) as (r & Hr & _ & Hitems).
    exists r. split; [exact Hr|]. apply Hitems. discriminate.
Defined.

(** C5, as stated, fails.  The batch path of [fwd] is a recursion over the
    elements: a batch of two points makes three activations of [fwd].
    And a batch given as two lists is refused by the affine [fwd]
    ([TypeError], a list times a float) and by the RPC [rev]
    ([ValueError]), where the calls point by point return. *)
Lemma batch_claim_counterexamples :
  (RatPolyTransform.fwd_calls ex_T
     (PySeq KList [PyNum 1%Z; PyNum 3%Z])
     (PySeq KList [PyNum 2%Z; PyNum 4%Z]) PyNone = 3%nat
   ∧ ¬ vectorized ex_T (PySeq KList [PyNum 1%Z; PyNum 3%Z])
                       (PySeq KList [PyNum 2%Z; PyNum 4%Z]) PyNone)
  ∧ (AffineTransform.fwd ex_U
       (PySeq KList [PyNum 1%Z; PyNum 3%Z])
       (PySeq KList [PyNum 2%Z; PyNum 4%Z]) PyNone = Raise TypeError
     ∧ AffineTransform.fwd ex_U (PyNum 1%Z) (PyNum 2%Z) PyNone
       = Ok (PySeq KTuple [PyNum 8%Z; PyNum 20%Z])
     ∧ AffineTransform.fwd ex_U (PyNum 3%Z) (PyNum 4%Z) PyNone
       = Ok (PySeq KTuple [PyNum 14%Z; PyNum 38%Z]))
  ∧ (RatPolyTransform.rev_default ex_T
       (PySeq KList [PyNum 1%Z; PyNum 0%Z])
       (PySeq KList [PyNum 2%Z; PyNum 0%Z]) = Raise ValueError
     ∧ RatPolyTransform.rev_default ex_T (PyNum 1%Z) (PyNum 2%Z)
       = Ok (of_vec [38; 236855]%Z)
     ∧ RatPolyTransform.rev_default ex_T (PyNum 0%Z) (PyNum 0%Z)
       = Ok (of_vec [38; 86795]%Z)).
Proof.
  split; [|split].
  - split; [vm_compute; reflexivity|].
    unfold vectorized. vm_compute. discriminate.
  - repeat split; vm_compute; reflexivity.
  - repeat split; vm_compute; reflexivity.
Qed.

(** * Further properties of the code *)

(** ** The inverse cache of an [AffineTransform] *)

Section affine_cache.
Context {F : Type} `{Number F}.
Local Open Scope num_scope.

Lemma cached_inverse_valid (T T' : AffineTransform.t) (i : Affine.t) :
  cache_valid T →
  AffineTransform.cached_inverse T = Ok (i, T') →
  Affine.invert (AffineTransform._affine T) = Ok i
  ∧ T' = AffineTransform.mk (AffineTransform._affine T) (Some i)
           (AffineTransform.proj T).
Proof.
  unfold cache_valid, AffineTransform.cached_inverse.
  destruct T as [a [j|] pr]; cbn.
  - intros Hj [= <- <-]. done.
  - intros _ Hi. inv_bind Hi. injection Hi as <- <-. done.
Qed.

Lemma cached_inverse_fails (T : AffineTransform.t) (e : exn) :
  AffineTransform.cached_inverse T = Raise e →
  AffineTransform._iaffine T = None
  ∧ Affine.invert (AffineTransform._affine T) = Raise e.
Proof.
  unfold AffineTransform.cached_inverse.
  destruct T as [a [j|] pr]; cbn; [done|].
  destruct (Affine.invert a); [done|]. by intros [= ->].
Qed.

(** The state after [rev] or [inverse]: the object itself, or the object
    with its cache filled. *)
Lemma affine_state_after (T : AffineTransform.t) (lng lat z coords : pyobj F)
    (dt : dtype) :
  cache_valid T →
  ∀ T', T' = (AffineTransform.rev T lng lat z).2
        ∨ T' = (AffineTransform.inverse T dt coords).2 →
  T' = T
  ∨ ∃ i, Affine.invert (AffineTransform._affine T) = Ok i
         ∧ AffineTransform.cached_inverse T = Ok (i, T')
         ∧ T' = AffineTransform.mk (AffineTransform._affine T) (Some i)
                  (AffineTransform.proj T).
Proof.
  intros Hc T' HT'.
  unfold AffineTransform.rev, AffineTransform.inverse in HT'.
  destruct (AffineTransform.cached_inverse T) as [[i T'']|e] eqn:Hi.
  - destruct (cached_inverse_valid _ _ _ Hc Hi) as [Hinv ->].
    destruct (py_assert _); cbn [snd] in HT'.
    + right. exists i. by destruct HT' as [-> | ->].
    + destruct HT' as [-> | ->]; [right; by exists i|by left].
  - left. destruct (py_assert _); by destruct HT' as [-> | ->].
Qed.

(** X1: the inverse cache of an [AffineTransform] is kept valid.  Called
    on an object whose cache is empty or holds the inverse of its matrix,
    [rev] and [inverse] leave an object whose cache is again empty or the
    inverse of the matrix; they never change the matrix or the spatial
    reference system. *)
Theorem affine_cache_stays_valid
    (T : AffineTransform.t) (lng lat z coords : pyobj F) (dt : dtype) :
  cache_valid T →
  ∀ T', T' = (AffineTransform.rev T lng lat z).2
        ∨ T' = (AffineTransform.inverse T dt coords).2 →
  cache_valid T'
  ∧ AffineTransform._affine T' = AffineTransform._affine T
  ∧ AffineTransform.proj T' = AffineTransform.proj T.
Proof.
  intros Hc T' HT'.
  destruct (affine_state_after T lng lat z coords dt Hc T' HT')
    as [-> | (i & Hinv & _ & ->)]; [done|].
  by repeat split.
Qed.

(** X2: the inverse cache cannot be observed.  After a call of [rev] or
    [inverse] (whatever its arguments and its outcome), [rev], [inverse],
    [fwd] and [__call__] return what they return on the object as it was
    before the call. *)
Theorem affine_cache_transparent
    (T : AffineTransform.t) (lng lat z coords : pyobj F) (dt : dtype) :
  cache_valid T →
  ∀ T', T' = (AffineTransform.rev T lng lat z).2
        ∨ T' = (AffineTransform.inverse T dt coords).2 →
  (∀ lng' lat' z',
     (AffineTransform.rev T' lng' lat' z').1
     = (AffineTransform.rev T lng' lat' z').1)
  ∧ (∀ dt' coords',
     (AffineTransform.inverse T' dt' coords').1
     = (AffineTransform.inverse T dt' coords').1)
  ∧ (∀ x y z', AffineTransform.fwd T' x y z' = AffineTransform.fwd T x y z')
  ∧ (∀ dt' coords',
     AffineTransform.__call__ T' dt' coords'
     = AffineTransform.__call__ T dt' coords').
Proof.
  intros Hc T' HT'.
  destruct (affine_state_after T lng lat z coords dt Hc T' HT')
    as [-> | (i & Hinv & Hi & ->)]; [done|].
  split; [|split; [|done]].
  - intros lng' lat' z'. unfold AffineTransform.rev. by rewrite Hi.
  - intros dt' coords'. unfold AffineTransform.inverse. rewrite Hi.
    by destruct (py_assert _).
Qed.

(** X3: a matrix with determinant zero.  [rev], and [inverse] on an
    N x 2 array, raise [TransformNotInvertibleError] and leave the object
    as it was, so that every later call fails in the same way; nothing is
    cached. *)
Theorem affine_singular_never_inverts
    (T : AffineTransform.t) (lng lat z coords : pyobj F) (dt : dtype) :
  Affine.is_degenerate (AffineTransform._affine T) = true →
  cache_valid T →
  AffineTransform.rev T lng lat z = (Raise TransformNotInvertibleError, T)
  ∧ (AffineTransform.is_Nx2 coords = true →
     AffineTransform.inverse T dt coords
     = (Raise TransformNotInvertibleError, T)).
Proof.
  intros Hd Hc.
  assert (Hinv : Affine.invert (AffineTransform._affine T)
                 = Raise TransformNotInvertibleError).
  { unfold Affine.invert. by rewrite Hd. }
  assert (Hi : AffineTransform.cached_inverse T
               = Raise TransformNotInvertibleError).
  { unfold AffineTransform.cached_inverse, cache_valid in *.
    destruct (AffineTransform._iaffine T) as [i|]; [congruence|].
    by rewrite Hinv. }
  unfold AffineTransform.rev, AffineTransform.inverse. rewrite Hi.
  split; [done|]. by intros ->.
Qed.

End affine_cache.

(** ** Exact arithmetic: shifts and georeferences of an [AffineTransform] *)

Section affine_exact_ring.
Context {F : Type} `{Number F} `{!ExactRing F}.
Local Open Scope num_scope.

Add Ring F_ring_affine : exact_ring.

Lemma apply_translated (s : Affine.t) (s0 s1 x y : F) :
  Affine.apply (Affine.mul s (Affine.translation s0 s1)) x y
  = Affine.apply s (x + s0) (y + s1).
Proof using Type*.
  unfold Affine.apply, Affine.mul, Affine.translation. cbn.
  f_equal; ring.
Qed.

Lemma affine_add_pair (U : AffineTransform.t) (k : seqkind) (s0 s1 : F) :
  k ≠ KNdarray →
  AffineTransform.__add__ U (PySeq k [PyNum s0; PyNum s1])
  = Ok (AffineTransform.__init__
          (Affine.mul (AffineTransform._affine U) (Affine.translation s0 s1))
          (AffineTransform.proj U)).
Proof. by destruct k. Qed.

(** [itransform] with a matrix that is not the identity: every image is
    stored, converted to the element type. *)
Lemma itransform_stored (s : Affine.t) (dt : dtype) (pts : list (F * F)) :
  Affine.equal s Affine.identity = false →
  Affine.itransform s dt (rows_of_points pts)
  = Ok (rows_of_points
          ((λ p, (np_store dt (Affine.apply s p.1 p.2).1,
                  np_store dt (Affine.apply s p.1 p.2).2)) <$> pts)).
Proof.
  intros Hne. unfold Affine.itransform, rows_of_points. rewrite Hne.
  induction pts as [|[x y] pts IH]; [done|].
  cbn [fmap list_fmap mapM]. cbn [fmap list_fmap] in IH. rewrite IH.
  done.
Qed.

(** X4: in exact arithmetic, [T + [s0, s1]] (a list or a tuple) is the
    transform of the pixel grid moved by the shift: it maps the pixel
    [(x, y)] to the point [T] maps [(x + s0, y + s1)] to, in [fwd] and,
    row by row, in [__call__] on an array of floats; and in [__call__] on
    an array of either element type when neither matrix is the
    identity. *)
Theorem affine_add_shifts_input
    (U : AffineTransform.t) (k : seqkind) (s0 s1 : F) :
  k ≠ KNdarray →
  ∃ U',
    AffineTransform.__add__ U (PySeq k [PyNum s0; PyNum s1]) = Ok U'
    ∧ (∀ x y z,
         AffineTransform.fwd U' (PyNum x) (PyNum y) z
         = AffineTransform.fwd U (PyNum (x + s0)) (PyNum (y + s1)) z)
    ∧ (∀ pts : list (F * F),
         AffineTransform.__call__ U' Float64 (of_mat (rows_of_points pts))
         = AffineTransform.__call__ U Float64
             (of_mat (rows_of_points ((λ p, (p.1 + s0, p.2 + s1)) <$> pts))))
    ∧ (∀ (dt : dtype) (pts : list (F * F)),
         Affine.equal (AffineTransform._affine U') Affine.identity = false →
         Affine.equal (AffineTransform._affine U) Affine.identity = false →
         AffineTransform.__call__ U' dt (of_mat (rows_of_points pts))
         = AffineTransform.__call__ U dt
             (of_mat (rows_of_points ((λ p, (p.1 + s0, p.2 + s1)) <$> pts)))).
Proof using Type*.
  intros Hk. eexists. split; [by apply affine_add_pair|].
  split; [|split].
  - intros x y z. unfold AffineTransform.fwd. rewrite !mul_pair_point.
    cbn [AffineTransform._affine AffineTransform.__init__].
    by rewrite apply_translated.
  - intros pts. unfold AffineTransform.__call__.
    destruct pts as [|p pts].
    { reflexivity. }
    rewrite !is_Nx2_points by done. cbn [py_assert]. ok_step.
    rewrite !as_mat_of_mat. cbn [from_option]. ok_step.
    rewrite !itransform_points. ok_step.
    cbn [AffineTransform._affine AffineTransform.__init__].
    do 3 f_equal. rewrite <- list_fmap_compose.
    apply list_fmap_ext. intros _ [x y] _. cbn.
    apply apply_translated.
  - intros dt pts Hne' Hne. unfold AffineTransform.__call__.
    destruct pts as [|p pts].
    { reflexivity. }
    rewrite !is_Nx2_points by done. cbn [py_assert]. ok_step.
    rewrite !as_mat_of_mat. cbn [from_option]. ok_step.
    rewrite !itransform_stored by done. ok_step.
    cbn [AffineTransform._affine AffineTransform.__init__].
    do 3 f_equal. rewrite <- list_fmap_compose.
    apply list_fmap_ext. intros _ [x y] _. cbn [compose fst snd].
    by rewrite apply_translated.
Qed.

(** X5: in exact arithmetic shifts add up: [(T + s) + t] is
    [T + [s0 + t0, s1 + t1]], the same matrix under the same spatial
    reference system. *)
Theorem affine_add_add
    (U : AffineTransform.t) (k1 k2 : seqkind) (s0 s1 t0 t1 : F) :
  k1 ≠ KNdarray → k2 ≠ KNdarray →
  AffineTransform.__add__ U (PySeq k1 [PyNum s0; PyNum s1])
    ≫= (λ U', AffineTransform.__add__ U' (PySeq k2 [PyNum t0; PyNum t1]))
  = AffineTransform.__add__ U (PySeq KList [PyNum (s0 + t0); PyNum (s1 + t1)]).
Proof using Type*.
  intros Hk1 Hk2. rewrite !affine_add_pair by done. ok_step.
  rewrite affine_add_pair by done. f_equal.
  unfold AffineTransform.__init__. cbn. f_equal.
  unfold Affine.mul, Affine.translation. cbn. f_equal; ring.
Qed.

(** X6: in exact arithmetic, the transform that [from_georef] builds
    maps the pixel [(x, y)] to
    [(x * scaleX + y * shearX + translateX,
      x * shearY + y * scaleY + translateY)]; it carries the spatial
    reference system code of the metadata and starts with an empty
    cache. *)
Theorem from_georef_maps (g : AffineTransform.georef) (x y : F) (z : pyobj F) :
  AffineTransform.fwd (AffineTransform.from_georef g) (PyNum x) (PyNum y) z
  = Ok (PySeq KTuple
          [ PyNum (x * AffineTransform.scaleX g + y * AffineTransform.shearX g
                   + AffineTransform.translateX g);
            PyNum (x * AffineTransform.shearY g + y * AffineTransform.scaleY g
                   + AffineTransform.translateY g) ])
  ∧ AffineTransform.proj (AffineTransform.from_georef g)
    = AffineTransform.spatialReferenceSystemCode g
  ∧ AffineTransform._iaffine (AffineTransform.from_georef g) = None.
Proof using Type*.
  split; [|done]. unfold AffineTransform.fwd. rewrite mul_pair_point. ok_step.
  unfold Affine.apply, AffineTransform.from_georef, Affine.from_gdal. cbn.
  do 4 f_equal; [|do 2 f_equal]; ring.
Qed.

End affine_exact_ring.

Section affine_exact_field.
Context {F : Type} `{Number F} `{!ExactField F}.
Local Open Scope num_scope.


End affine_exact_field.

(** ** Shifts that are refused *)

Section shift_errors.
Context {F : Type} `{Number F}.
Variable pinv : mat F → result (mat F).
Local Open Scope num_scope.

Lemma mapM_py_neg (items : list (pyobj F)) :
  (∃ negs, mapM py_neg items = Ok negs ∧ length negs = length items)
  ∨ mapM py_neg items = Raise TypeError.
Proof.
  induction items as [|x items IH]; [left; by exists []|].
  cbn [mapM]. destruct x as [ |x|[] xs]; try (by right).
  - cbn [py_neg]. ok_step.
    destruct IH as [(negs & -> & Hl)| ->]; [left|by right].
    eexists. split; [reflexivity|]. cbn. by rewrite Hl.
  - cbn [py_neg]. ok_step.
    destruct IH as [(negs & -> & Hl)| ->]; [left|by right].
    eexists. split; [reflexivity|]. cbn. by rewrite Hl.
Qed.

Lemma is_pair_length (k : seqkind) (items : list (pyobj F)) :
  length items ≠ 2%nat → is_pair (PySeq k items) = false.
Proof. destruct k, items as [|a [|b [|c items]]]; done. Qed.

Lemma neg_each_not_pair (other : pyobj F) :
  (∀ k items, other = PySeq k items → length items ≠ 2%nat) →
  neg_each other = Raise TypeError
  ∨ ∃ negs, neg_each other = Ok (PySeq KList negs) ∧ length negs ≠ 2%nat.
Proof.
  intros Hother. destruct other as [ |x|k items]; [by left..|].
  unfold neg_each. cbn [py_iter]. ok_step.
  destruct (mapM_py_neg items) as [(negs & -> & Hl)| ->]; [|by left].
  right. exists negs. split; [done|]. rewrite Hl. by eapply Hother.
Qed.

(** X8: a shift that is not a sequence of exactly two entries (a number,
    [None], or a list, tuple or array of another length) is refused by
    [__add__] and by [__sub__] of both variants, always with
    [TypeError]. *)
Theorem shift_must_have_two_entries
    (T : RatPolyTransform.t) (U : AffineTransform.t) (other : pyobj F) :
  (∀ k items, other = PySeq k items → length items ≠ 2%nat) →
  RatPolyTransform.__add__ pinv T other = Raise TypeError
  ∧ RatPolyTransform.__sub__ pinv T other = Raise TypeError
  ∧ AffineTransform.__add__ U other = Raise TypeError
  ∧ AffineTransform.__sub__ U other = Raise TypeError.
Proof.
  intros Hother.
  assert (Hp : is_pair other = false).
  { destruct other as [ |x|k items]; [done..|].
    apply is_pair_length. by eapply Hother. }
  assert (Hra : ∀ o, is_pair o = false →
            RatPolyTransform.__add__ pinv T o = Raise TypeError).
  { intros o Ho. unfold RatPolyTransform.__add__. by rewrite Ho. }
  assert (Haa : ∀ o, is_pair o = false →
            AffineTransform.__add__ U o = Raise TypeError).
  { intros o Ho. unfold AffineTransform.__add__. by rewrite Ho. }
  assert (Hneg : ∀ o, py_neg other = Ok o → is_pair o = false).
  { intros o. destruct other as [ |x|[] items]; try done.
    - by intros [= <-].
    - by intros [= <-]. }
  split; [by apply Hra|]. split; [|split; [by apply Haa|]].
  - unfold RatPolyTransform.__sub__.
    assert ((o ← py_neg other; RatPolyTransform.__add__ pinv T o)
            = Raise TypeError) as ->.
    { destruct (py_neg other) as [o|e] eqn:Hn; ok_step.
      - apply Hra. by apply Hneg.
      - by destruct other as [ |x|[] items]; try injection Hn as <-. }
    destruct (neg_each_not_pair other Hother) as [-> | (negs & -> & Hl)];
      [done|].
    ok_step. apply Hra. by apply is_pair_length.
  - unfold AffineTransform.__sub__.
    assert ((o ← py_neg other; AffineTransform.__add__ U o)
            = Raise TypeError) as ->.
    { destruct (py_neg other) as [o|e] eqn:Hn; ok_step.
      - apply Haa. by apply Hneg.
      - by destruct other as [ |x|[] items]; try injection Hn as <-. }
    destruct (neg_each_not_pair other Hother) as [-> | (negs & -> & Hl)];
      [done|].
    ok_step. apply Haa. by apply is_pair_length.
Qed.

End shift_errors.

(** ** The constructor of [RatPolyTransform] *)

Section rpc_construction.
Context {F : Type} `{Number F}.
Variable pinv : mat F → result (mat F).
Import RatPolyTransform.
Local Open Scope num_scope.

(** The derived fields a successful construction stores. *)
Lemma init_derived A B offset scale px_offset px_scale pr T :
  __init__ pinv A B offset scale px_offset px_scale pr = Ok T →
  _offscl_rev T = [zip_with div (neg <$> offset) scale; recip scale]
  ∧ _px_offscl T = [zip_with div (neg <$> px_offset) px_scale; recip px_scale]
  ∧ ∃ Pi, pinv (gram A) = Ok Pi
          ∧ _A_rev T
            = (λ r, dotprod r <$> mat_transpose (mat_transpose A)) <$> Pi.
Proof.
  intros Hi. pose proof (init_Ok _ _ _ _ _ _ _ _ _ Hi) as Hf.
  destruct Hf as (_ & _ & _ & _ & _ & _ & _ & _ & _ & Ho & Hp).
  unfold __init__ in Hi. inv_bind Hi. injection Hi as <-. cbn.
  rewrite (neg_over_same offset scale) in Hv0 by done.
  rewrite (neg_over_same px_offset px_scale) in Hv3 by done.
  injection Hv0 as <-. injection Hv3 as <-.
  apply np_vstack2_Ok in Hv1 as [-> _]. apply np_vstack2_Ok in Hv4 as [-> _].
  split; [done|]. split; [done|].
  rewrite (np_dot_mm_same (mat_transpose A) A) in Hv5
    by apply mat_transpose_rows.
  injection Hv5 as <-. exists v6. split; [exact Hv6|].
  unfold np_dot_mm in Hv7. destruct (rows_of_length _ _); [|done].
  by injection Hv7 as <-.
Qed.

Lemma np_vstack2_differ (u v : vec F) :
  length u ≠ length v → np_vstack2 u v = Raise ValueError.
Proof. intros Hl. unfold np_vstack2. by rewrite decide_False. Qed.

(** X9: the constructor of [RatPolyTransform] succeeds exactly when the
    geographic offset and scale have one length, the pixel offset and
    scale have one length, and [pinv] returns for the product of the
    transpose of [A] with [A] (its result having rows as long as the
    product has rows).  When the lengths differ it raises [ValueError]
    (from [np.vstack]); when they agree and [pinv] raises, it raises the
    exception of [pinv]. *)
Theorem init_succeeds_iff A B offset scale px_offset px_scale pr :
  (∀ Pi, pinv (gram A) = Ok Pi →
         Forall (λ r, length r = length (gram A)) Pi) →
  ((∃ T, __init__ pinv A B offset scale px_offset px_scale pr = Ok T)
   ↔ length offset = length scale ∧ length px_offset = length px_scale
     ∧ ∃ Pi, pinv (gram A) = Ok Pi)
  ∧ (¬ (length offset = length scale ∧ length px_offset = length px_scale) →
     __init__ pinv A B offset scale px_offset px_scale pr = Raise ValueError)
  ∧ (length offset = length scale → length px_offset = length px_scale →
     ∀ e, pinv (gram A) = Raise e →
     __init__ pinv A B offset scale px_offset px_scale pr = Raise e).
Proof.
  intros Hpinv. split; [split|split].
  - intros [T HT].
    destruct (init_derived _ _ _ _ _ _ _ _ HT) as (_ & _ & Pi & HPi & _).
    apply init_Ok in HT as (_ & _ & _ & _ & _ & _ & _ & _ & _ & Ho & Hp).
    eauto.
  - intros (Ho & Hp & Pi & HPi). eapply init_total; eauto.
  - intros Hne. unfold __init__.
    destruct (decide (length offset = length scale)) as [Ho|Ho].
    2:{ by rewrite (np_vstack2_differ offset scale). }
    rewrite (np_vstack2_same offset scale) by done. ok_step.
    rewrite (neg_over_same offset scale) by done. ok_step.
    rewrite (np_vstack2_same _ (recip scale)); ok_step.
    2:{ rewrite recip_length, length_zip_with, !length_fmap. lia. }
    rewrite (np_vstack2_differ px_offset px_scale); [done|].
    intros Hp. by destruct Hne.
  - intros Ho Hp e He. unfold __init__.
    rewrite (np_vstack2_same offset scale) by done. ok_step.
    rewrite (neg_over_same offset scale) by done. ok_step.
    rewrite (np_vstack2_same _ (recip scale)); ok_step.
    2:{ rewrite recip_length, length_zip_with, !length_fmap. lia. }
    rewrite (np_vstack2_same px_offset px_scale) by done. ok_step.
    rewrite (neg_over_same px_offset px_scale) by done. ok_step.
    rewrite (np_vstack2_same _ (recip px_scale)); ok_step.
    2:{ rewrite recip_length, length_zip_with, !length_fmap. lia. }
    rewrite (np_dot_mm_same (mat_transpose A) A)
      by apply mat_transpose_rows. ok_step.
    fold (gram A). by rewrite He.
Qed.

End rpc_construction.

(** ** [fwd] on one pixel *)

Section rpc_forward.
Context {F : Type} `{Number F}.
Variable pinv : mat F → result (mat F).
Import RatPolyTransform.
Local Open Scope num_scope.

(** The pseudo-inverse stored for a 2 x K coefficient matrix has K rows of
    two entries, when [pinv] returns as many rows as its square argument
    has. *)
Lemma A_rev_shape A B offset scale px_offset px_scale pr T K :
  __init__ pinv A B offset scale px_offset px_scale pr = Ok T →
  length A = 2%nat → Forall (λ row, length row = K) A → K ≠ 0%nat →
  (∀ m Pi, pinv m = Ok Pi → Forall (λ r, length r = length m) m →
           length Pi = length m) →
  length (_A_rev T) = K ∧ Forall (λ r, length r = 2%nat) (_A_rev T).
Proof.
  intros Hi HA HAr HK Hpinv.
  destruct (init_derived pinv _ _ _ _ _ _ _ _ Hi)
    as (_ & _ & Pi & HPi & ->).
  destruct A as [|a0 [|a1 [|]]]; try discriminate.
  apply Forall_cons_1 in HAr as [Ha0 _].
  assert (Ht : length (mat_transpose [a0; a1]) = K).
  { unfold mat_transpose. cbn [ncols]. by rewrite length_fmap, length_seq. }
  split.
  - rewrite length_fmap, (Hpinv _ _ HPi); unfold gram;
      rewrite length_fmap; [done|].
    apply Forall_fmap, Forall_forall. intros r _. cbn.
    by rewrite length_fmap.
  - apply Forall_fmap, Forall_forall. intros r _. cbn.
    rewrite length_fmap. unfold mat_transpose at 1.
    rewrite length_fmap, length_seq.
    unfold mat_transpose. cbn [ncols]. rewrite Ha0.
    destruct K as [|K]; [done|]. cbn. done.
Qed.

Lemma offscl_apply_rows (a b coord : vec F) :
  length a = length coord → length b = length coord →
  offscl_apply [a; b] coord
  = Ok (zip_with add (zip_with mul a (np_ones (length coord)))
                     (zip_with mul b coord)).
Proof.
  intros Ha Hb. unfold offscl_apply.
  rewrite np_vstack2_same by (unfold np_ones; by rewrite length_replicate).
  ok_step. unfold bmat, broadcast2. rewrite decide_True by done.
  cbn [zip zip_with mapM fst snd].
  rewrite (bvec_same mul a)
    by (unfold np_ones; by rewrite length_replicate).
  ok_step. rewrite (bvec_same mul b) by done. reflexivity.
Qed.

Lemma fwd_point_geo A B offset scale px_offset px_scale pr T K (x y : F) :
  __init__ pinv A B offset scale px_offset px_scale pr = Ok T →
  length A = 2%nat → Forall (λ row, length row = K) A → 4 ≤ K →
  length offset = 3%nat → length px_offset = 2%nat →
  (∀ m Pi, pinv m = Ok Pi → Forall (λ r, length r = length m) m →
           length Pi = length m) →
  fwd_point T (PyNum x) (PyNum y)
  = Ok (of_vec [fwd_geo T 0 x y; fwd_geo T 1 x y; fwd_geo T 2 x y]).
Proof.
  intros Hi HA HAr HK Ho Hpo Hpinv.
  destruct (A_rev_shape _ _ _ _ _ _ _ _ K Hi HA HAr ltac:(lia) Hpinv)
    as [HRl HRr].
  destruct (init_derived pinv _ _ _ _ _ _ _ _ Hi) as (Hor & Hpx & _).
  pose proof (init_Ok _ _ _ _ _ _ _ _ _ Hi)
    as (_ & _ & _ & HTo & HTs & HTpo & HTps & _ & _ & Hos & Hps).
  unfold fwd_geo, fwd_point. rewrite Hor, Hpx, HTo, HTs, HTpo, HTps.
  destruct offset as [|o0 [|o1 [|o2 [|]]]]; try discriminate.
  destruct scale as [|s0 [|s1 [|s2 [|]]]]; try discriminate.
  destruct px_offset as [|po0 [|po1 [|]]]; try discriminate.
  destruct px_scale as [|ps0 [|ps1 [|]]]; try discriminate.
  destruct (_A_rev T) as [|r0 [|r1 [|r2 [|r3 rest]]]];
    try (cbn in HRl; lia).
  unfold np_dot_mv.
  assert (∀ v : vec F, length v = 2%nat →
            rows_of_length (length v) (r0 :: r1 :: r2 :: r3 :: rest) = true)
    as Hrows.
  { intros v ->. by apply rows_of_length_true. }
  rewrite (offscl_apply_rows _ _ [x; y]) by done. ok_step.
  cbn [length]. rewrite Hrows by done. ok_step.
  cbn [take_indices mapM fmap list_fmap lookup list_lookup from_option].
  ok_step.
  rewrite (offscl_apply_rows _ _ [_; _; _]) by done.
  reflexivity.
Qed.


End rpc_forward.

(** ** Stacks of coordinate triples *)

Section triples.
Context {E X : Type}.

(** Stacking the vectors [[a p; b p; c p]] along a new last axis. *)
Lemma push_last_triples (a b c : X → E) (p0 : X) (l : list X) :
  push_last (of_vec [a p0; b p0; c p0])
            ((λ p, of_vec [a p; b p; c p]) <$> l)
  = of_mat [a <$> l; b <$> l; c <$> l].
Proof.
  unfold of_vec at 1. cbn [fmap list_fmap push_last stack_items].
  unfold of_mat, of_vec. cbn [fmap list_fmap]. do 2 f_equal; [|f_equal; [|f_equal]].
  all: f_equal; rewrite <- !list_fmap_compose; by apply list_fmap_ext.
Qed.

Lemma np_transpose_triples (a b c : X → E) (l : list X) :
  l ≠ [] →
  np_transpose (PySeq KNdarray ((λ p, of_vec [a p; b p; c p]) <$> l))
  = of_mat [a <$> l; b <$> l; c <$> l].
Proof.
  intros Hl. cbn [np_transpose].
  assert (np_transpose <$> ((λ p, of_vec [a p; b p; c p]) <$> l)
          = (λ p, of_vec [a p; b p; c p]) <$> l) as ->.
  { rewrite <- list_fmap_compose. by apply list_fmap_ext. }
  destruct l as [|p0 l]; [done|].
  cbn [fmap list_fmap].
  apply (push_last_triples a b c p0 (p0 :: l)).
Qed.

Lemma np_transpose_columns (a b c : X → E) (l : list X) :
  l ≠ [] →
  np_transpose
    (PySeq KNdarray ((λ p, of_mat [[a p]; [b p]; [c p]]) <$> l))
  = of_cube [[a <$> l; b <$> l; c <$> l]].
Proof.
  intros Hl. cbn [np_transpose].
  assert (np_transpose <$> ((λ p, of_mat [[a p]; [b p]; [c p]]) <$> l)
          = (λ p, of_mat [[a p; b p; c p]]) <$> l) as ->.
  { rewrite <- list_fmap_compose. by apply list_fmap_ext. }
  destruct l as [|p0 l]; [done|].
  cbn [fmap list_fmap].
  change (of_mat [[a p0; b p0; c p0]]
          :: ((λ p, of_mat [[a p; b p; c p]]) <$> l))
    with ((λ p, of_mat [[a p; b p; c p]]) <$> (p0 :: l)).
  set (ys := (λ p, of_mat [[a p; b p; c p]]) <$> (p0 :: l)).
  unfold of_mat at 1. cbn [fmap list_fmap push_last stack_items].
  subst ys.
  assert (child 0 <$> ((λ p, of_mat [[a p; b p; c p]]) <$> (p0 :: l))
          = (λ p, of_vec [a p; b p; c p]) <$> (p0 :: l)) as ->.
  { rewrite <- list_fmap_compose. by apply list_fmap_ext. }
  rewrite push_last_triples. reflexivity.
Qed.

End triples.

Section stacks.
Context {F : Type} `{Number F} {X : Type}.

Lemma np_stack_same_shape (f : X → pyobj F) (s : list nat) (l : list X) :
  (∀ p, shape (f p) = s) →
  np_stack (f <$> l) = Ok (PySeq KNdarray (f <$> l)).
Proof.
  intros Hs. destruct l as [|p0 l]; [done|].
  cbn [fmap list_fmap np_stack].
  assert (forallb (λ r', bool_decide (shape r' = shape (f p0))) (f <$> l)
          = true) as ->; [|done].
  apply forallb_forall. intros r' Hr'%list_elem_of_In.
  apply list_elem_of_fmap in Hr' as (p & -> & _).
  apply bool_decide_eq_true. by rewrite !Hs.
Qed.

End stacks.

(** ** [fwd] on batches *)

Section rpc_forward_batches.
Context {F : Type} `{Number F}.
Variable pinv : mat F → result (mat F).
Import RatPolyTransform.
Local Open Scope num_scope.

Lemma comprehension_geo (T : t) (pts : list (F * F)) (zs : list (pyobj F)) :
  (∀ x y, fwd_point T (PyNum x) (PyNum y)
          = Ok (of_vec [fwd_geo T 0 x y; fwd_geo T 1 x y; fwd_geo T 2 x y])) →
  length zs = length pts →
  comprehension (fwd_run T)
    (PyNum <$> (fst <$> pts)) (PyNum <$> (snd <$> pts)) zs
  = (length pts,
     Ok ((λ p, of_vec [fwd_geo T 0 p.1 p.2; fwd_geo T 1 p.1 p.2;
                       fwd_geo T 2 p.1 p.2]) <$> pts)).
Proof.
  intros Hgeo Hzs. apply comprehension_points; [done|].
  clear Hzs. induction pts as [|p pts IH]; constructor; [apply Hgeo|done].
Qed.

Lemma fwd_flat_geo (T : t) (k1 k2 : seqkind) (pts : list (F * F)) :
  (∀ x y, fwd_point T (PyNum x) (PyNum y)
          = Ok (of_vec [fwd_geo T 0 x y; fwd_geo T 1 x y; fwd_geo T 2 x y])) →
  pts ≠ [] →
  fwd_run T (PySeq k1 (PyNum <$> (fst <$> pts)))
            (PySeq k2 (PyNum <$> (snd <$> pts))) PyNone
  = (S (length pts),
     Ok (of_mat [ (λ p, fwd_geo T 0 p.1 p.2) <$> pts;
                  (λ p, fwd_geo T 1 p.1 p.2) <$> pts;
                  (λ p, fwd_geo T 2 p.1 p.2) <$> pts ])).
Proof.
  intros Hgeo Hpts. rewrite fwd_run_seq. cbn [py_iter].
  rewrite comprehension_geo;
    [|done|by rewrite length_replicate, !length_fmap].
  ok_step.
  rewrite (np_stack_same_shape _ [3%nat]) by done. ok_step.
  by rewrite np_transpose_triples.
Qed.

Lemma fwd_run_row (T : t) (x y : F) :
  (∀ x y, fwd_point T (PyNum x) (PyNum y)
          = Ok (of_vec [fwd_geo T 0 x y; fwd_geo T 1 x y; fwd_geo T 2 x y])) →
  fwd_run T (of_vec [x]) (of_vec [y]) PyNone
  = (2%nat,
     Ok (of_mat [[fwd_geo T 0 x y]; [fwd_geo T 1 x y]; [fwd_geo T 2 x y]])).
Proof.
  intros Hgeo.
  exact (fwd_flat_geo T KNdarray KNdarray [(x, y)] Hgeo ltac:(done)).
Qed.

Lemma comprehension_rows (T : t) (pts : list (F * F)) :
  (∀ x y, fwd_point T (PyNum x) (PyNum y)
          = Ok (of_vec [fwd_geo T 0 x y; fwd_geo T 1 x y; fwd_geo T 2 x y])) →
  comprehension (fwd_run T)
    ((λ p, of_vec [p.1]) <$> pts) ((λ p, of_vec [p.2]) <$> pts)
    (replicate (length pts) PyNone)
  = ((2 * length pts)%nat,
     Ok ((λ p, of_mat [[fwd_geo T 0 p.1 p.2]; [fwd_geo T 1 p.1 p.2];
                       [fwd_geo T 2 p.1 p.2]]) <$> pts)).
Proof.
  intros Hgeo. induction pts as [|[x y] pts IH]; [done|].
  cbn [fmap list_fmap length replicate comprehension fst snd].
  rewrite fwd_run_row by done. rewrite IH. cbn [fmap result_fmap].
  f_equal. lia.
Qed.

Lemma hsplit_points (pts : list (F * F)) :
  pts ≠ [] →
  np_hsplit2 (rows_of_points pts)
  = Ok ((λ p, [p.1]) <$> pts, (λ p, [p.2]) <$> pts).
Proof.
  intros Hpts. unfold np_hsplit2, rows_of_points.
  destruct pts as [|p pts]; [done|]. cbn [fmap list_fmap ncols length].
  cbn [Nat.even Nat.div]. change (2 / 2)%nat with 1%nat.
  f_equal. f_equal; f_equal; rewrite <- ?list_fmap_compose;
    by apply list_fmap_ext.
Qed.

Lemma call_geo (T : t) (pts : list (F * F)) :
  (∀ x y, fwd_point T (PyNum x) (PyNum y)
          = Ok (of_vec [fwd_geo T 0 x y; fwd_geo T 1 x y; fwd_geo T 2 x y])) →
  pts ≠ [] →
  __call__ T (of_mat (rows_of_points pts))
  = Ok (of_cube [[ (λ p, fwd_geo T 0 p.1 p.2) <$> pts;
                   (λ p, fwd_geo T 1 p.1 p.2) <$> pts;
                   (λ p, fwd_geo T 2 p.1 p.2) <$> pts ]])
  ∧ fwd_run T (of_mat ((λ p, [p.1]) <$> pts))
              (of_mat ((λ p, [p.2]) <$> pts)) PyNone
    = (S (2 * length pts),
       Ok (of_cube [[ (λ p, fwd_geo T 0 p.1 p.2) <$> pts;
                      (λ p, fwd_geo T 1 p.1 p.2) <$> pts;
                      (λ p, fwd_geo T 2 p.1 p.2) <$> pts ]])).
Proof.
  intros Hgeo Hpts.
  assert (Hrun : fwd_run T (of_mat ((λ p, [p.1]) <$> pts))
              (of_mat ((λ p, [p.2]) <$> pts)) PyNone
    = (S (2 * length pts),
       Ok (of_cube [[ (λ p, fwd_geo T 0 p.1 p.2) <$> pts;
                      (λ p, fwd_geo T 1 p.1 p.2) <$> pts;
                      (λ p, fwd_geo T 2 p.1 p.2) <$> pts ]]))).
  { unfold of_mat at 1 2. rewrite fwd_run_seq. cbn [py_iter].
    rewrite <- !list_fmap_compose, length_fmap.
    change (of_vec ∘ (λ p : F * F, [p.1])) with (λ p : F * F, of_vec [p.1]).
    change (of_vec ∘ (λ p : F * F, [p.2])) with (λ p : F * F, of_vec [p.2]).
    rewrite comprehension_rows by done. ok_step.
    rewrite (np_stack_same_shape _ [3%nat; 1%nat]) by done. ok_step.
    by rewrite np_transpose_columns. }
  split; [|exact Hrun].
  unfold __call__.
  assert (Hs : shape (of_mat (rows_of_points pts)) = [length pts; 2%nat]).
  { destruct pts as [|p pts']; [done|].
    unfold rows_of_points. cbn [fmap list_fmap].
    rewrite shape_of_mat. cbn [length]. by rewrite length_fmap. }
  assert (Hnd : is_ndarray (of_mat (rows_of_points pts)) = true) by done.
  rewrite Hnd, Hs. cbn [py_assert unpack2 Nat.eqb negb]. ok_step.
  rewrite as_mat_of_mat. cbn [from_option]. ok_step.
  rewrite hsplit_points by done. ok_step.
  unfold fwd. by rewrite Hrun.
Qed.

End rpc_forward_batches.

Section rpc_forward_theorems.
Context {F : Type} `{Number F}.
Variable pinv : mat F → result (mat F).
Import RatPolyTransform.
Local Open Scope num_scope.



End rpc_forward_theorems.

Section fwd_lengths.
Context {F : Type} `{Number F}.
Import RatPolyTransform.

Lemma comprehension_take
    (call : pyobj F → pyobj F → pyobj F → nat * result (pyobj F))
    (xs ys zs : list (pyobj F)) :
  let n := length xs `min` (length ys `min` length zs) in
  comprehension call xs ys zs
  = comprehension call (take n xs) (take n ys) (take n zs).
Proof.
  revert ys zs. induction xs as [|x xs IH]; intros [|y ys] [|z zs];
    cbn [length]; rewrite ?Nat.min_0_r, ?Nat.min_0_l; try done.
  cbn [Nat.min take comprehension].
  destruct (call x y z) as [n [r|e]]; [|done].
  cbn zeta in IH. by rewrite <- IH.
Qed.

(** X13: [fwd] never reports coordinate sequences of unequal lengths:
    a batch is cut to the shortest of [x] and [y] (and of [z], when an
    elevation sequence is given), as [izip] does, and the outcome is that
    of the call on the sequences cut to that length. *)
Theorem fwd_truncates_to_shortest
    (T : t) (k1 k2 k3 : seqkind) (xs ys zs : list (pyobj F)) :
  fwd_run T (PySeq k1 xs) (PySeq k2 ys) PyNone
  = fwd_run T (PySeq k1 (take (length xs `min` length ys) xs))
              (PySeq k2 (take (length xs `min` length ys) ys)) PyNone
  ∧ fwd_run T (PySeq k1 xs) (PySeq k2 ys) (PySeq k3 zs)
    = fwd_run T
        (PySeq k1 (take (length xs `min` (length ys `min` length zs)) xs))
        (PySeq k2 (take (length xs `min` (length ys `min` length zs)) ys))
        (PySeq k3 (take (length xs `min` (length ys `min` length zs)) zs)).
Proof.
  split.
  - rewrite !fwd_run_seq. cbn [py_iter].
    rewrite (comprehension_take (fwd_run T) xs ys
               (replicate (length xs) PyNone)).
    cbn zeta. rewrite !length_replicate, !length_take, !take_replicate.
    replace (length xs `min` (length ys `min` length xs))
      with (length xs `min` length ys) by lia.
    by rewrite !(Nat.min_l (length xs `min` length ys) (length xs)) by lia.
  - rewrite !fwd_run_seq. cbn [py_iter].
    rewrite (comprehension_take (fwd_run T) xs ys zs). cbn zeta.
    reflexivity.
Qed.

Lemma comprehension_nums (T : t) (v : vec F) (ys zs zs' : list (pyobj F)) :
  length zs = length zs' →
  comprehension (fwd_run T) (PyNum <$> v) ys zs
  = comprehension (fwd_run T) (PyNum <$> v) ys zs'.
Proof.
  revert ys zs zs'.
  induction v as [|x v IH]; intros [|y ys] [|z zs] [|z' zs']; try done.
  cbn [fmap list_fmap comprehension length]. intros [= Hl].
  change (fwd_run T (PyNum x) y z) with (fwd_run T (PyNum x) y z').
  by rewrite (IH ys zs zs').
Qed.

(** X14: [fwd] does not read the elevations.  On a flat batch of
    pixels with an elevation sequence of the same length, and on a single
    pixel with any [z], the outcome is that of the call without [z]. *)
Theorem fwd_ignores_elevation
    (T : t) (k k3 : seqkind) (v : vec F) (x : F) (y z : pyobj F)
    (zs : list (pyobj F)) :
  length zs = length v →
  fwd_run T (PySeq k (PyNum <$> v)) y (PySeq k3 zs)
  = fwd_run T (PySeq k (PyNum <$> v)) y PyNone
  ∧ fwd_run T (PyNum x) y z = fwd_run T (PyNum x) y PyNone.
Proof.
  intros Hl. split; [|done]. rewrite !fwd_run_seq. cbn [py_iter].
  destruct (py_iter y) as [ys|e]; [|done].
  rewrite (comprehension_nums T v ys zs (replicate (length (PyNum <$> v)) PyNone));
    [done|].
  by rewrite length_replicate, length_fmap.
Qed.

End fwd_lengths.

(** ** Exact arithmetic: shifts of a [RatPolyTransform] *)

Section rpc_shift_exact.
Context {F : Type} `{Number F} `{!ExactRing F}.
Variable pinv : mat F → result (mat F).
Local Open Scope num_scope.

Add Ring F_ring_shift : exact_ring.

Lemma grid_map_ext {X B} (f f' : X → B) (g : mat X) :
  (∀ p, f p = f' p) → grid_map f g = grid_map f' g.
Proof.
  intros Hf. unfold grid_map. apply list_fmap_ext. intros _ row _.
  apply list_fmap_ext. intros _ p _. apply Hf.
Qed.

Lemma rpc_add_pair (T : RatPolyTransform.t) (k : seqkind) (s0 s1 : F) :
  k ≠ KNdarray →
  RatPolyTransform.__add__ pinv T (PySeq k [PyNum s0; PyNum s1])
  = px_offset ← bvec sub (RatPolyTransform._px_offset T) [s0; s1];
    RatPolyTransform.__init__ pinv
      (RatPolyTransform._A T) (RatPolyTransform._B T)
      (RatPolyTransform._offset T) (RatPolyTransform._scale T)
      px_offset (RatPolyTransform._px_scale T) None.
Proof. by destruct k. Qed.

(** X15: in exact arithmetic, [T + [s0, s1]] (a list or a tuple) of the
    RPC variant moves the reverse pixel coordinates by the shift: the line
    is [s0] less and the sample [s1] less than those of [T], at every
    point, and [rev] of the shifted transform returns the cast of these
    values. *)
Theorem rpc_add_shifts_pixels
    (A B : mat F) (offset scale px_offset px_scale : vec F)
    (pr : option string) (T : RatPolyTransform.t)
    (k : seqkind) (s0 s1 : F) :
  RatPolyTransform.__init__ pinv A B offset scale px_offset px_scale pr
    = Ok T →
  length A = 2%nat → Forall (λ row, length row = 20%nat) A →
  length B = 2%nat → Forall (λ row, length row = 20%nat) B →
  length offset = 3%nat → length scale = 3%nat →
  length px_offset = 2%nat → length px_scale = 2%nat →
  k ≠ KNdarray →
  ∃ T',
    RatPolyTransform.__add__ pinv T (PySeq k [PyNum s0; PyNum s1]) = Ok T'
    ∧ (∀ lon lat h,
         rev_pixel T' 0 lon lat h = rev_pixel T 0 lon lat h - s0
         ∧ rev_pixel T' 1 lon lat h = rev_pixel T 1 lon lat h - s1)
    ∧ (∀ O lng lat (g : mat (F * F)) M N h (_type : F → O),
         rev_input lng lat g →
         rectangular M N g → M ≠ 0%nat → N ≠ 0%nat →
         RatPolyTransform.rev T' lng lat (PyNum h) _type
         = Ok (nd_map _type
                 (np_squeeze
                    (of_cube
                       [ grid_map (λ p, rev_pixel T 0 p.1 p.2 (zero + h) - s0)
                                  g;
                         grid_map (λ p, rev_pixel T 1 p.1 p.2 (zero + h) - s1)
                                  g ])))).
Proof using Type*.
  intros Hi HA HAr HB HBr Ho Hs Hpo Hps Hk.
  pose proof (init_Ok _ _ _ _ _ _ _ _ _ Hi)
    as (_ & HTA & HTB & HTo & HTs & HTpo & HTps & _).
  destruct px_offset as [|po0 [|po1 [|]]]; try discriminate.
  destruct px_scale as [|ps0 [|ps1 [|]]]; try discriminate.
  destruct (init_again pinv _ _ _ _ _ _ _ _ [po0 - s0; po1 - s1] None Hi)
    as (T' & HT' & _); [done|].
  pose proof (init_Ok _ _ _ _ _ _ _ _ _ HT')
    as (_ & HTA' & HTB' & HTo' & HTs' & HTpo' & HTps' & _).
  assert (Hpix : ∀ lon lat h,
            rev_pixel T' 0 lon lat h = rev_pixel T 0 lon lat h - s0
            ∧ rev_pixel T' 1 lon lat h = rev_pixel T 1 lon lat h - s1).
  { intros lon lat h. unfold rev_pixel.
    rewrite HTA, HTB, HTo, HTs, HTpo, HTps.
    rewrite HTA', HTB', HTo', HTs', HTpo', HTps'. cbv zeta.
    cbn [lookup list_lookup default option.from_option id]. split; ring. }
  exists T'. split; [|split; [exact Hpix|]].
  - rewrite rpc_add_pair by done. rewrite HTA, HTB, HTo, HTs, HTpo, HTps.
    by rewrite (bvec_same sub [po0; po1] [s0; s1]).
  - intros O lng lat g M N h _type Hin Hg HM HN.
    rewrite (rev_on_grid pinv A B offset scale [po0 - s0; po1 - s1]
               [ps0; ps1] None T' lng lat g M N h _type) by done.
    rewrite (grid_map_ext (λ p, rev_pixel T' 0 p.1 p.2 (zero + h))
               (λ p, rev_pixel T 0 p.1 p.2 (zero + h) - s0))
      by (intros p; apply Hpix).
    rewrite (grid_map_ext (λ p, rev_pixel T' 1 p.1 p.2 (zero + h))
               (λ p, rev_pixel T 1 p.1 p.2 (zero + h) - s1))
      by (intros p; apply Hpix).
    reflexivity.
Qed.

(** X16: in exact arithmetic RPC shifts add up: when [T + s] succeeds,
    [(T + s) + t] is [T + [s0 + t0, s1 + t1]], the same transform or the
    same exception. *)
Theorem rpc_add_add
    (T T1 : RatPolyTransform.t) (k1 k2 : seqkind) (s0 s1 t0 t1 : F) :
  k1 ≠ KNdarray → k2 ≠ KNdarray →
  RatPolyTransform.__add__ pinv T (PySeq k1 [PyNum s0; PyNum s1]) = Ok T1 →
  RatPolyTransform.__add__ pinv T1 (PySeq k2 [PyNum t0; PyNum t1])
  = RatPolyTransform.__add__ pinv T
      (PySeq KList [PyNum (s0 + t0); PyNum (s1 + t1)]).
Proof using Type*.
  intros Hk1 Hk2 H1. rewrite rpc_add_pair in H1 by done.
  inv_bind H1. rename v into px1.
  pose proof (init_Ok _ _ _ _ _ _ _ _ _ H1)
    as (_ & HTA & HTB & HTo & HTs & HTpo & HTps & _).
  rewrite !rpc_add_pair by done. rewrite HTA, HTB, HTo, HTs, HTpo, HTps.
  assert (bvec sub px1 [t0; t1]
          = bvec sub (RatPolyTransform._px_offset T) [s0 + t0; s1 + t1])
    as ->; [|done].
  destruct (RatPolyTransform._px_offset T) as [|p0 [|p1 [|p2 po]]];
    try discriminate.
  - injection Hv as <-.
    change (Ok [p0 - s0 - t0; p0 - s1 - t1]
            = Ok [p0 - (s0 + t0); p0 - (s1 + t1)]).
    f_equal. f_equal; [ring|f_equal; ring].
  - injection Hv as <-.
    change (Ok [p0 - s0 - t0; p1 - s1 - t1]
            = Ok [p0 - (s0 + t0); p1 - (s1 + t1)]).
    f_equal. f_equal; [ring|f_equal; ring].
Qed.

End rpc_shift_exact.

(** ** Shapes and lengths in [rev] *)

Section rev_shapes.
Context {F : Type} `{Number F}.
Variable pinv : mat F → result (mat F).
Local Open Scope num_scope.

Lemma shape_squeeze_grids {E X} (f f' : X → E) (g : mat X) (M N : nat) :
  rectangular M N g → M ≠ 0%nat → N ≠ 0%nat →
  shape (np_squeeze (of_cube [grid_map f g; grid_map f' g]))
  = 2%nat :: (if decide (M = 1%nat) then [] else [M])
          ++ (if decide (N = 1%nat) then [] else [N]).
Proof.
  intros [HM Hrows] HM0 HN0.
  destruct g as [|r1 [|r2 g]]; [by subst M| |].
  - apply Forall_cons_1 in Hrows as [Hr1 _]. cbn in HM. subst M.
    rewrite decide_True by done.
    destruct r1 as [|p [|q r]]; [by subst N| |].
    + cbn in Hr1. subst N. reflexivity.
    + rewrite decide_False by (cbn in Hr1; lia).
      cbn [grid_map fmap list_fmap].
      rewrite np_squeeze_two_rows by done.
      rewrite shape_of_mat. cbn [length app]. rewrite !length_fmap.
      cbn in Hr1. by rewrite Hr1.
  - apply Forall_cons_1 in Hrows as [Hr1 _].
    rewrite decide_False by (cbn in HM; lia).
    destruct r1 as [|p [|q r]]; [by subst N| |].
    + cbn in Hr1. subst N. cbn. rewrite !length_fmap. cbn in HM.
      by rewrite HM.
    + rewrite decide_False by (cbn in Hr1; lia).
      cbn. rewrite !length_fmap. cbn in HM, Hr1. by rewrite HM, Hr1.
Qed.

(** X17: the shape of the result of [rev].  On an M x N grid of points
    (scalars and 1-element batches count as 1 x 1, tuples and 1-d arrays
    of N points as 1 x N) the result has shape (2, M, N) with the axes of
    length 1 removed: (2,) for one point, (2, N) for a batch, (2, M) for
    an M x 1 grid. *)
Theorem rev_result_shape {O}
    (A B : mat F) (offset scale px_offset px_scale : vec F)
    (pr : option string) (T : RatPolyTransform.t)
    (lng lat : pyobj F) (g : mat (F * F)) (M N : nat) (h : F)
    (_type : F → O) :
  RatPolyTransform.__init__ pinv A B offset scale px_offset px_scale pr
    = Ok T →
  length A = 2%nat → Forall (λ row, length row = 20%nat) A →
  length B = 2%nat → Forall (λ row, length row = 20%nat) B →
  length offset = 3%nat → length scale = 3%nat →
  length px_offset = 2%nat → length px_scale = 2%nat →
  rev_input lng lat g →
  rectangular M N g → M ≠ 0%nat → N ≠ 0%nat →
  shape <$> RatPolyTransform.rev T lng lat (PyNum h) _type
  = Ok (2%nat :: (if decide (M = 1%nat) then [] else [M])
              ++ (if decide (N = 1%nat) then [] else [N])).
Proof.
  intros Hi HA HAr HB HBr Ho Hs Hpo Hps Hin Hg HM HN.
  rewrite (rev_on_grid pinv A B offset scale px_offset px_scale pr T
             lng lat g M N h _type) by done.
  ok_step. rewrite shape_nd_map. f_equal. by apply shape_squeeze_grids.
Qed.

Lemma np_dstack_lengths_differ (u v w : vec F) :
  length u ≠ length v →
  mapM atleast_3d [of_vec u; of_vec v; of_vec w] ≫= concat_axis2
  = Raise ValueError
  ∧ mapM atleast_3d [of_mat [u]; of_mat [v]; of_mat [w]] ≫= concat_axis2
    = Raise ValueError.
Proof.
  intros Hl.
  assert (Hc : concat2 (expand_mat [u]) (expand_mat [v]) = Raise ValueError).
  { unfold concat2. rewrite decide_False; [done|].
    cbn. rewrite !length_fmap. by intros [= ?]. }
  split.
  - cbn [mapM]. rewrite !atleast_3d_of_vec. ok_step.
    cbn [concat_axis2 foldl]. ok_step. by rewrite Hc.
  - cbn [mapM]. rewrite !atleast_3d_of_mat by done. ok_step.
    cbn [concat_axis2 foldl]. ok_step. by rewrite Hc.
Qed.

(** X18: [rev] refuses longitudes and latitudes of unequal lengths:
    two 1-d arrays, or two tuples, of different lengths raise
    [ValueError] (from [np.dstack]), whatever the transform. *)
Theorem rev_rejects_unequal_lengths {O}
    (T : RatPolyTransform.t) (u v : vec F) (h : F) (_type : F → O) :
  length u ≠ length v →
  RatPolyTransform.rev T (of_vec u) (of_vec v) (PyNum h) _type
    = Raise ValueError
  ∧ RatPolyTransform.rev T (PySeq KTuple (PyNum <$> u))
      (PySeq KTuple (PyNum <$> v)) (PyNum h) _type
    = Raise ValueError.
Proof.
  intros Hl. split.
  - unfold RatPolyTransform.rev.
    change (RatPolyTransform.rev_inputs (of_vec u) (of_vec v))
      with (Ok (of_vec u, of_vec v)).
    ok_step. rewrite rev_elevation_of_vec. ok_step.
    unfold np_dstack.
    by rewrite (proj1 (np_dstack_lengths_differ u v _ Hl)).
  - unfold RatPolyTransform.rev.
    assert (RatPolyTransform.rev_inputs (PySeq KTuple (PyNum <$> u))
              (PySeq KTuple (PyNum <$> v))
            = Ok (of_mat [u], of_mat [v])) as ->.
    { unfold RatPolyTransform.rev_inputs, np_array1. cbn.
      by rewrite !np_asarray_nums. }
    ok_step. rewrite rev_elevation_of_mat. ok_step.
    unfold np_dstack. cbn [grid_map fmap list_fmap].
    by rewrite (proj2 (np_dstack_lengths_differ u v _ Hl)).
Qed.

End rev_shapes.

(** ** [rev] with an elevation array *)

Section rev_heights.
Context {F : Type} `{Number F}.
Variable pinv : mat F → result (mat F).
Local Open Scope num_scope.

Lemma np_dstack_grids {X} (a b c : X → F) (g : mat X) :
  g ≠ [] →
  np_dstack [of_mat (grid_map a g); of_mat (grid_map b g);
             of_mat (grid_map c g)]
  = Ok (grid_map (λ p, [a p; b p; c p]) g).
Proof.
  intros Hg. unfold np_dstack. cbn [mapM].
  assert (Hne : ∀ {B} (f : X → B), grid_map f g ≠ []).
  { intros B f. by destruct g. }
  rewrite !atleast_3d_of_mat by apply Hne.
  ok_step. rewrite !expand_grid.
  exact (concat_axis2_grid g (λ p, [a p]) [(λ p, [b p]); (λ p, [c p])]).
Qed.

Lemma np_dstack_rows {X} (a b c : X → F) (pts : list X) :
  np_dstack [of_vec (a <$> pts); of_vec (b <$> pts); of_vec (c <$> pts)]
  = Ok (grid_map (λ p, [a p; b p; c p]) [pts]).
Proof.
  unfold np_dstack. cbn [mapM].
  rewrite !atleast_3d_of_vec. ok_step.
  change [a <$> pts] with (grid_map a [pts]).
  change [b <$> pts] with (grid_map b [pts]).
  change [c <$> pts] with (grid_map c [pts]).
  rewrite !expand_grid.
  exact (concat_axis2_grid [pts] (λ p, [a p]) [(λ p, [b p]); (λ p, [c p])]).
Qed.

(** [rev] from the stacked coordinates on. *)
Lemma rev_from_coord {O X}
    (A B : mat F) (offset scale px_offset px_scale : vec F)
    (pr : option string) (T : RatPolyTransform.t)
    (lng lat z : pyobj F) (a b c : X → F) (g : mat X) (M N : nat)
    (_type : F → O) :
  RatPolyTransform.__init__ pinv A B offset scale px_offset px_scale pr
    = Ok T →
  length A = 2%nat → Forall (λ row, length row = 20%nat) A →
  length B = 2%nat → Forall (λ row, length row = 20%nat) B →
  length offset = 3%nat → length scale = 3%nat →
  length px_offset = 2%nat → length px_scale = 2%nat →
  is_ndarray lng = true → is_ndarray lat = true → is_ndarray z = true →
  np_dstack [lng; lat; z] = Ok (grid_map (λ p, [a p; b p; c p]) g) →
  rectangular M N g → M ≠ 0%nat → N ≠ 0%nat →
  RatPolyTransform.rev T lng lat z _type
  = Ok (nd_map _type
          (np_squeeze
             (of_cube
                [ grid_map (λ p, rev_pixel T 0 (a p) (b p) (c p)) g;
                  grid_map (λ p, rev_pixel T 1 (a p) (b p) (c p)) g ]))).
Proof.
  intros Hi HA HArows HB HBrows Ho Hs Hpo Hps Hlng Hlat Hz Hstack
    Hg HM0 HN0.
  assert (Hgne : g ≠ []) by (destruct Hg as [HM _], g; [by subst M|done]).
  pose proof (init_Ok _ _ _ _ _ _ _ _ _ Hi)
    as (_ & HTA & HTB & HTo & HTs & HTpo & HTps & Hoffscl & Hpxoffscl & _).
  destruct A as [|a0 [|a1 [|]]]; try discriminate.
  destruct B as [|b0 [|b1 [|]]]; try discriminate.
  destruct offset as [|o0 [|o1 [|o2 [|]]]]; try discriminate.
  destruct scale as [|s0 [|s1 [|s2 [|]]]]; try discriminate.
  destruct px_offset as [|po0 [|po1 [|]]]; try discriminate.
  destruct px_scale as [|ps0 [|ps1 [|]]]; try discriminate.
  apply Forall_cons_1 in HArows as [Ha0 [Ha1 _]%Forall_cons_1].
  apply Forall_cons_1 in HBrows as [Hb0 [Hb1 _]%Forall_cons_1].
  unfold RatPolyTransform.rev.
  assert (RatPolyTransform.rev_inputs lng lat = Ok (lng, lat)) as ->.
  { destruct lng as [ | |[] ?]; try discriminate.
    destruct lat as [ | |[] ?]; try discriminate. done. }
  ok_step. unfold RatPolyTransform.rev_elevation. rewrite Hz.
  cbn [negb]. ok_step.
  rewrite Hstack. ok_step.
  rewrite Hoffscl, Hpxoffscl, HTA, HTB.
  change (np_vsplit2 [[o0; o1; o2]; [s0; s1; s2]])
    with (Ok ([[o0; o1; o2]], [[s0; s1; s2]])).
  change (np_vsplit2 [[po0; po1]; [ps0; ps1]])
    with (Ok ([[po0; po1]], [[ps0; ps1]])).
  ok_step.
  rewrite cube_mat_grid by done. ok_step.
  rewrite cube_mat_grid by done. ok_step.
  cbn [zip_with].
  rewrite (rpc_grid M N) by done. ok_step.
  rewrite (np_inner_grid [a0; a1])
    by (by intros p; cbn [ncols]; rewrite Ha0).
  ok_step.
  rewrite (np_inner_grid [b0; b1])
    by (by intros p; cbn [ncols]; rewrite Hb0).
  ok_step.
  cbn [fmap list_fmap].
  unfold bcube, broadcast2. rewrite decide_True by done.
  cbn [zip zip_with mapM fst snd]. rewrite !bmat_grid. ok_step.
  rewrite (rollaxis_0_3_grid M N) by done.
  rewrite cube_mat_grid by done. ok_step.
  rewrite cube_mat_grid by done. ok_step.
  cbn [zip_with].
  rewrite (rollaxis_2_0_grid M N) by done.
  unfold rev_pixel. rewrite HTA, HTB, HTo, HTs, HTpo, HTps. reflexivity.
Qed.

(** X19: [rev] with one elevation per point.  When [z] is an array of
    the shape of the longitudes and latitudes (2-d arrays over an M x N
    grid, or 1-d arrays of N points), the result holds at every point the
    cast of [rev_pixel] evaluated with the elevation of that point. *)
Theorem rev_with_height_arrays {O}
    (A B : mat F) (offset scale px_offset px_scale : vec F)
    (pr : option string) (T : RatPolyTransform.t)
    (g : mat (F * F * F)) (M N : nat) (pts : list (F * F * F))
    (_type : F → O) :
  RatPolyTransform.__init__ pinv A B offset scale px_offset px_scale pr
    = Ok T →
  length A = 2%nat → Forall (λ row, length row = 20%nat) A →
  length B = 2%nat → Forall (λ row, length row = 20%nat) B →
  length offset = 3%nat → length scale = 3%nat →
  length px_offset = 2%nat → length px_scale = 2%nat →
  rectangular M N g → M ≠ 0%nat → N ≠ 0%nat → pts ≠ [] →
  RatPolyTransform.rev T
    (of_mat (grid_map (λ q, q.1.1) g)) (of_mat (grid_map (λ q, q.1.2) g))
    (of_mat (grid_map (λ q, q.2) g)) _type
  = Ok (nd_map _type
          (np_squeeze
             (of_cube
                [ grid_map (λ q, rev_pixel T 0 q.1.1 q.1.2 q.2) g;
                  grid_map (λ q, rev_pixel T 1 q.1.1 q.1.2 q.2) g ])))
  ∧ RatPolyTransform.rev T
      (of_vec ((λ q, q.1.1) <$> pts)) (of_vec ((λ q, q.1.2) <$> pts))
      (of_vec ((λ q, q.2) <$> pts)) _type
    = Ok (nd_map _type
            (np_squeeze
               (of_cube
                  [ [(λ q, rev_pixel T 0 q.1.1 q.1.2 q.2) <$> pts];
                    [(λ q, rev_pixel T 1 q.1.1 q.1.2 q.2) <$> pts] ]))).
Proof.
  intros Hi HA HAr HB HBr Ho Hs Hpo Hps Hg HM HN Hpts.
  assert (Hgne : g ≠ []) by (destruct Hg as [HM' _], g; [by subst M|done]).
  split.
  - eapply (rev_from_coord A B offset scale px_offset px_scale pr T
              _ _ _ (λ q : F * F * F, q.1.1) (λ q, q.1.2) (λ q, q.2) g M N);
      try done.
    by apply np_dstack_grids.
  - eapply (rev_from_coord A B offset scale px_offset px_scale pr T
              _ _ _ (λ q : F * F * F, q.1.1) (λ q, q.1.2) (λ q, q.2)
              [pts] 1 (length pts)); try done.
    + apply np_dstack_rows.
    + split; [done|]. by repeat constructor.
    + by destruct pts.
Qed.

End rev_heights.

(** ** Calibration: lengths, errors and keys *)

Section calibration_facts.
Context {F : Type} `{Number F}.
Variables (np_cos np_deg2rad : F → F) (np_pi : F).
Variable earth_distance : F → F → F → F → F.
Variables DG_ABSCAL_GAIN DG_ABSCAL_OFFSET DG_ESUN : gmap string (vec F).
Local Open Scope num_scope.

Lemma zip3_length_min {A B C} (xs : list A) (ys : list B) (zs : list C) :
  length (zip3 xs ys zs) = length xs `min` (length ys `min` length zs).
Proof.
  revert ys zs. induction xs as [|x xs IH]; intros [|y ys] [|z zs];
    cbn [length zip3]; rewrite ?Nat.min_0_r, ?Nat.min_0_l; try done.
  cbn [Nat.min]. by rewrite IH.
Qed.

(** X20: [calc_toa_gain_offset] does not check that the tables have an
    entry for every band.  With [n] calibration factors, bandwidths and
    gains, the result has as many triples as the shortest of these and of
    the solar irradiance and offset entries for the key, and triple [i] is
    computed from entry [i] of each of them. *)
Theorem toa_truncates_to_shortest_table (m : meta) (n : nat)
    (gain offs esun : vec F) (lat lon hae : F) :
  let key := (upper (satid m) +:+ "_" +:+ upper (bandid m))%string in
  let d_es := earth_distance lon lat hae (img_datetime_obj_utc m) in
  length (abscalfactor m) = n →
  length (effbandwidth m) = n →
  DG_ABSCAL_GAIN !! key = Some gain → length gain = n →
  DG_ABSCAL_OFFSET !! key = Some offs →
  DG_ESUN !! key = Some esun →
  latlonhae m !! 0%nat = Some lat →
  latlonhae m !! 1%nat = Some lon →
  latlonhae m !! 2%nat = Some hae →
  ∃ triples,
    calc_toa_gain_offset np_cos np_deg2rad np_pi earth_distance
      DG_ABSCAL_GAIN DG_ABSCAL_OFFSET DG_ESUN m = Ok triples
    ∧ length triples = n `min` (length esun `min` length offs)
    ∧ ∀ i t, triples !! i = Some t →
        ∃ a w g o es,
          abscalfactor m !! i = Some a ∧ effbandwidth m !! i = Some w
          ∧ gain !! i = Some g ∧ offs !! i = Some o ∧ esun !! i = Some es
          ∧ t = (a / w * g,
                 (d_es ** 2 * np_pi)
                 / (es * np_cos (np_deg2rad (of_Z 90 - mean_sun_el m))),
                 o).
Proof.
  intros key d_es Hacf Hebw Hg Hgl Ho He Hlat Hlon Hhae.
  unfold calc_toa_gain_offset, table_lookup. fold key.
  rewrite Hg, Ho, He, Hlat, Hlon, Hhae. cbn [from_option]. ok_step.
  rewrite (bvec_same div) by congruence. ok_step.
  rewrite (bvec_same mul); ok_step.
  2:{ rewrite length_zip_with. lia. }
  eexists. split; [reflexivity|]. split.
  - rewrite zip3_length_min, !length_zip_with, length_fmap. lia.
  - intros i t Ht.
    pose proof (lookup_lt_Some _ _ _ Ht) as Hi.
    rewrite zip3_length_min, !length_zip_with, length_fmap in Hi.
    destruct (lookup_lt_is_Some_2 (abscalfactor m) i) as [a Ha]; [lia|].
    destruct (lookup_lt_is_Some_2 (effbandwidth m) i) as [w Hw]; [lia|].
    destruct (lookup_lt_is_Some_2 gain i) as [g Hgi]; [lia|].
    destruct (lookup_lt_is_Some_2 offs i) as [o Hoi]; [lia|].
    destruct (lookup_lt_is_Some_2 esun i) as [es Hei]; [lia|].
    exists a, w, g, o, es. repeat (split; [done|]).
    erewrite zip3_lookup in Ht; [by injection Ht as <-| |  |done].
    + rewrite !lookup_zip_with, Ha, Hw. cbn. by rewrite Hgi.
    + by rewrite list_lookup_fmap, Hei.
Qed.

Lemma bvec_mismatch (f : F → F → F) (u v : vec F) :
  length u ≠ length v → length u ≠ 1%nat → length v ≠ 1%nat →
  bvec f u v = Raise ValueError.
Proof.
  intros Hne Hu Hv. unfold bvec, broadcast2. rewrite decide_False by done.
  destruct u as [|a [|a' u]]; destruct v as [|w [|w' v]]; done.
Qed.

(** X21: the errors of [calc_toa_gain_offset], in the order the code
    meets them: [KeyError] when the gain table has no entry for the key;
    [ValueError] when calibration factors and bandwidths have different
    lengths, neither of them 1; [KeyError] when the offset or the solar
    irradiance table has no entry; [IndexError] when [latlonhae] has fewer
    than three entries. *)
Theorem toa_error_cases (m : meta) (n : nat) (gain : vec F) :
  let key := (upper (satid m) +:+ "_" +:+ upper (bandid m))%string in
  let calc := calc_toa_gain_offset np_cos np_deg2rad np_pi earth_distance
                DG_ABSCAL_GAIN DG_ABSCAL_OFFSET DG_ESUN m in
  (DG_ABSCAL_GAIN !! key = None → calc = Raise KeyError)
  ∧ (DG_ABSCAL_GAIN !! key = Some gain →
     length (abscalfactor m) ≠ length (effbandwidth m) →
     length (abscalfactor m) ≠ 1%nat → length (effbandwidth m) ≠ 1%nat →
     calc = Raise ValueError)
  ∧ (DG_ABSCAL_GAIN !! key = Some gain →
     length (abscalfactor m) = n → length (effbandwidth m) = n →
     length gain = n →
     (DG_ABSCAL_OFFSET !! key = None ∨ DG_ESUN !! key = None) →
     calc = Raise KeyError)
  ∧ (DG_ABSCAL_GAIN !! key = Some gain →
     length (abscalfactor m) = n → length (effbandwidth m) = n →
     length gain = n →
     is_Some (DG_ABSCAL_OFFSET !! key) → is_Some (DG_ESUN !! key) →
     (length (latlonhae m) < 3)%nat →
     calc = Raise IndexError).
Proof.
  intros key calc. subst calc.
  unfold calc_toa_gain_offset, table_lookup. fold key.
  split; [|split; [|split]].
  - by intros ->.
  - intros -> Hne Ha Hw. cbn [from_option]. ok_step.
    by rewrite (bvec_mismatch div (abscalfactor m) (effbandwidth m)).
  - intros -> Hacf Hebw Hgl Hmiss. cbn [from_option]. ok_step.
    rewrite (bvec_same div) by congruence. ok_step.
    rewrite (bvec_same mul); ok_step.
    2:{ rewrite length_zip_with. lia. }
    destruct Hmiss as [-> | ->]; [done|].
    by destruct (DG_ABSCAL_OFFSET !! key).
  - intros -> Hacf Hebw Hgl [offs ->] [esun ->] Hll.
    cbn [from_option]. ok_step.
    rewrite (bvec_same div) by congruence. ok_step.
    rewrite (bvec_same mul); ok_step.
    2:{ rewrite length_zip_with. lia. }
    destruct (latlonhae m) as [|l0 [|l1 [|l2 ll]]]; try done.
    cbn in Hll. lia.
Qed.

Lemma upper_ascii_idemp (ch : ascii) :
  upper_ascii (upper_ascii ch) = upper_ascii ch.
Proof. by destruct ch as [[] [] [] [] [] [] [] []]. Qed.

Lemma upper_idemp (s : string) : upper (upper s) = upper s.
Proof.
  induction s as [|ch s IH]; [done|]. cbn [upper].
  by rewrite upper_ascii_idemp, IH.
Qed.

(** X22: the table key of [calc_toa_gain_offset] does not depend on
    letter case: two metadata records whose [satid] and [bandid] agree up
    to case, and whose other fields agree, give the same outcome; in
    particular the record with both in upper case. *)
Theorem toa_key_ignores_case (m m' : meta) :
  upper (satid m') = upper (satid m) →
  upper (bandid m') = upper (bandid m) →
  abscalfactor m' = abscalfactor m →
  effbandwidth m' = effbandwidth m →
  latlonhae m' = latlonhae m →
  img_datetime_obj_utc m' = img_datetime_obj_utc m →
  mean_sun_el m' = mean_sun_el m →
  calc_toa_gain_offset np_cos np_deg2rad np_pi earth_distance
    DG_ABSCAL_GAIN DG_ABSCAL_OFFSET DG_ESUN m'
  = calc_toa_gain_offset np_cos np_deg2rad np_pi earth_distance
      DG_ABSCAL_GAIN DG_ABSCAL_OFFSET DG_ESUN m
  ∧ calc_toa_gain_offset np_cos np_deg2rad np_pi earth_distance
      DG_ABSCAL_GAIN DG_ABSCAL_OFFSET DG_ESUN
      {| satid := upper (satid m); bandid := upper (bandid m);
         abscalfactor := abscalfactor m; effbandwidth := effbandwidth m;
         latlonhae := latlonhae m;
         img_datetime_obj_utc := img_datetime_obj_utc m;
         mean_sun_el := mean_sun_el m |}
    = calc_toa_gain_offset np_cos np_deg2rad np_pi earth_distance
        DG_ABSCAL_GAIN DG_ABSCAL_OFFSET DG_ESUN m.
Proof.
  intros Hs Hb Ha He Hl Hd Hm. split.
  - unfold calc_toa_gain_offset. by rewrite Hs, Hb, Ha, He, Hl, Hd, Hm.
  - unfold calc_toa_gain_offset. cbn [satid bandid abscalfactor effbandwidth
      latlonhae img_datetime_obj_utc mean_sun_el].
    by rewrite !upper_idemp.
Qed.

End calibration_facts.

Section calibration_variants.
Context {F : Type} `{Number F}.
Variables (np_cos np_deg2rad : F → F) (np_pi : F).
Variable geometry : Type.
Variable wkt_loads : string → result geometry.
Variable centroid : geometry → geometry.
Variable earth_distance_at : F → F → F → string → F.
Variables DG_ABSCAL_GAIN DG_ABSCAL_OFFSET DG_ESUN : gmap string (vec F).
Local Open Scope num_scope.

(** X23: [calc_toa_gain_offset_new] never returns triples.  It raises
    the exception of [wkt.loads] when the footprint does not parse, before
    any table is read; and when the footprint parses and the tables hold
    the sensor alias, with calibration factors, bandwidths and gains of
    one length, it raises [TypeError], from unpacking the centroid of the
    footprint, which is a point and cannot be iterated. *)
Theorem toa_new_never_returns (m : image_meta) :
  (∃ e, calc_toa_gain_offset_new np_cos np_deg2rad np_pi geometry wkt_loads
          centroid earth_distance_at DG_ABSCAL_GAIN DG_ABSCAL_OFFSET DG_ESUN m
        = Raise e)
  ∧ (∀ e, wkt_loads (imageBoundsWGS84 m) = Raise e →
       calc_toa_gain_offset_new np_cos np_deg2rad np_pi geometry wkt_loads
         centroid earth_distance_at DG_ABSCAL_GAIN DG_ABSCAL_OFFSET DG_ESUN m
       = Raise e)
  ∧ (∀ footprint n gain offs esun,
       wkt_loads (imageBoundsWGS84 m) = Ok footprint →
       length (absoluteCalibrationFactors m) = n →
       length (effectiveBandwidths m) = n →
       DG_ABSCAL_GAIN !! sensorAlias m = Some gain → length gain = n →
       DG_ABSCAL_OFFSET !! sensorAlias m = Some offs →
       DG_ESUN !! sensorAlias m = Some esun →
       calc_toa_gain_offset_new np_cos np_deg2rad np_pi geometry wkt_loads
         centroid earth_distance_at DG_ABSCAL_GAIN DG_ABSCAL_OFFSET DG_ESUN m
       = Raise TypeError).
Proof.
  unfold calc_toa_gain_offset_new, unpack_point. split; [|split].
  - destruct (wkt_loads _) as [fp|e]; [|eauto]. ok_step.
    destruct (table_lookup DG_ABSCAL_GAIN _) as [gain|]; [|eauto]. ok_step.
    destruct (bvec div _ _) as [ratio|]; [|eauto]. ok_step.
    destruct (bvec mul _ _) as [scale|]; [|eauto]. ok_step.
    destruct (table_lookup DG_ABSCAL_OFFSET _) as [offs|]; [|eauto]. ok_step.
    destruct (table_lookup DG_ESUN _) as [esun|]; eauto.
  - by intros e ->.
  - intros fp n gain offs esun -> Hacf Hebw Hg Hgl Ho He. ok_step.
    unfold table_lookup. rewrite Hg, Ho, He. cbn [from_option]. ok_step.
    rewrite (bvec_same div) by congruence. ok_step.
    rewrite (bvec_same mul); [done|].
    rewrite length_zip_with. lia.
Qed.

End calibration_variants.

(** ** [mkdir_p] *)

Section directory_tree.
Import os.

Lemma walk_not_EEXIST (s : fs) (p : path) : walk s p ≠ Some EEXIST.
Proof.
  induction p as [|c parent IH]; [done|]. cbn [walk].
  destruct (walk s parent) as [e|]; [exact IH|].
  by destruct (s !! (c :: parent : path)) as [[]|].
Qed.

Lemma isdir_walk (s : fs) (p : path) :
  path_isdir s p = true ↔ walk s p = None.
Proof.
  unfold path_isdir. destruct p as [|c parent]; [done|]. cbn [stat walk].
  destruct (walk s parent) as [e|]; [done|].
  by destruct (s !! (c :: parent : path)) as [[]|].
Qed.

Lemma exists_walk (s : fs) (p : path) :
  path_exists s p = true →
  walk s p = None ∨ walk s p = Some ENOTDIR.
Proof.
  unfold path_exists. destruct p as [|c parent]; [by left|].
  cbn [stat walk]. destruct (walk s parent) as [e|]; [done|].
  destruct (s !! (c :: parent : path)) as [[]|]; [by left|by right|done].
Qed.

Lemma walk_exists (s : fs) (p : path) :
  walk s p = None → path_exists s p = true.
Proof.
  unfold path_exists. destruct p as [|c parent]; [done|].
  cbn [stat walk]. destruct (walk s parent) as [e|]; [done|].
  by destruct (s !! (c :: parent : path)) as [[]|].
Qed.

Lemma walk_mono (s s' : fs) (p : path) :
  s ⊆ s' → walk s p = None → walk s' p = None.
Proof.
  intros Hsub. induction p as [|c parent IH]; [done|]. cbn [walk].
  destruct (walk s parent) as [e|]; [done|]. rewrite IH by done.
  destruct (s !! (c :: parent : path)) as [[]|] eqn:Hp; try done.
  assert (s' !! (c :: parent : path) = Some Dir) as ->
    by exact (lookup_weaken _ _ _ _ Hp Hsub).
  done.
Qed.

Lemma well_formed_insert (s : fs) (c : string) (parent : path) :
  well_formed s → walk s parent = None → s !! (c :: parent : path) = None →
  well_formed (<[c :: parent := Dir]> s).
Proof.
  intros Hwf Hparent Hnew.
  assert (Hsub : s ⊆ <[c :: parent := Dir]> s) by by apply insert_subseteq.
  unfold well_formed. apply map_Forall_insert; [done|]. split.
  - cbn [tail]. by apply (walk_mono s).
  - intros q n Hq. apply (walk_mono s); [done|]. by apply (Hwf q n).
Qed.

Lemma mkdir_new (s : fs) (c : string) (head : path) :
  walk s head = None → s !! (c :: head : path) = None →
  ∃ s2, mkdir s (c :: head) = (None, s2)
        ∧ walk s2 (c :: head) = None
        ∧ (well_formed s → well_formed s2)
        ∧ s ⊆ s2
        ∧ ∀ q n, s2 !! q = Some n →
            s !! q = Some n ∨ (n = Dir ∧ q = c :: head).
Proof.
  intros Hw Hnew. cbn [mkdir]. rewrite Hw, Hnew.
  eexists. split; [reflexivity|].
  set (s2 := insert _ _ _).
  assert (Hsub : s ⊆ s2) by by apply insert_subseteq.
  assert (Hl : s2 !! (c :: head : path) = Some Dir)
    by apply lookup_insert_eq.
  split; [|split; [|split; [done|]]].
  - cbn [walk]. by rewrite (walk_mono s s2 head Hsub Hw), Hl.
  - intros Hwf. by apply well_formed_insert.
  - intros q n Hq. destruct (decide (q = c :: head)) as [->|Hne].
    + right. split; [|done]. by injection (eq_trans (eq_sym Hq) Hl) as ->.
    + left.
      assert (Hne' : (c :: head : path) ≠ q) by (intros Heq; by apply Hne).
      exact (eq_trans (eq_sym (lookup_insert_ne s _ q Dir Hne')) Hq).
Qed.

(** The tree [s'] is the tree [s] with the missing directories down to
    [p] added. *)
Lemma makedirs_outcome (s : fs) (p : path) :
  well_formed s →
  (walk s p = None → makedirs s p = (Some EEXIST, s))
  ∧ (walk s p = Some ENOTDIR →
     ∃ e, makedirs s p = (Some e, s)
          ∧ (e = ENOTDIR ∨ e = EEXIST ∧ path_exists s p = true))
  ∧ (walk s p = Some ENOENT →
     ∃ s', makedirs s p = (None, s')
           ∧ walk s' p = None ∧ well_formed s' ∧ s ⊆ s'
           ∧ ∀ q n, s' !! q = Some n →
               s !! q = Some n ∨ (n = Dir ∧ q `suffix_of` p)).
Proof.
  intros Hwf. induction p as [|c head IH]; [done|].
  cbn [makedirs]. destruct (path_exists s head) eqn:Hex; cbn [negb].
  - (* the parent exists: [mkdir] alone *)
    cbn [mkdir walk].
    destruct (exists_walk _ _ Hex) as [Hw | Hw]; rewrite Hw.
    + destruct (s !! (c :: head : path)) as [[]|] eqn:Hp.
      * done.
      * split; [done|]. split; [|done]. intros _. eexists.
        split; [done|]. right. split; [done|].
        unfold path_exists. cbn [stat]. by rewrite Hw, Hp.
      * split; [done|]. split; [done|]. intros _.
        destruct (mkdir_new s c head Hw Hp)
          as (s2 & Hm & Hw2 & Hwf2 & Hsub & Hnew).
        cbn [mkdir] in Hm. rewrite Hw, Hp in Hm.
        exists s2. split; [exact Hm|]. split; [done|].
        split; [by apply Hwf2|]. split; [done|]. intros q n Hq.
        destruct (Hnew q n Hq) as [? | [-> ->]]; [by left|by right].
    + split; [done|]. split; [|done]. intros _. eexists.
      split; [done|]. by left.
  - (* the parent is made first *)
    cbn [walk]. destruct (walk s head) as [[]|] eqn:Hw.
    + by destruct (walk_not_EEXIST s head).
    + (* a component is missing: the parent is created, then [p] *)
      destruct IH as (_ & _ & IH). destruct (IH eq_refl)
        as (s1 & -> & Hw1 & Hwf1 & Hsub1 & Hnew1).
      split; [done|]. split; [done|]. intros _.
      assert (Hp1 : s1 !! (c :: head : path) = None).
      { destruct (s1 !! (c :: head : path)) as [n|] eqn:Hp1; [|done].
        destruct (Hnew1 _ _ Hp1) as [Hp | [_ Hsuf]].
        - pose proof (Hwf _ _ Hp) as Hparent. cbn [tail] in Hparent.
          congruence.
        - apply suffix_length in Hsuf. cbn in Hsuf. lia. }
      destruct (mkdir_new s1 c head Hw1 Hp1)
        as (s2 & Hm & Hw2 & Hwf2 & Hsub & Hnew).
      exists s2. split; [exact Hm|]. split; [done|].
      split; [by apply Hwf2|]. split; [by etrans|]. intros q n Hq.
      destruct (Hnew q n Hq) as [Hq1 | [-> ->]]; [|by right].
      destruct (Hnew1 _ _ Hq1) as [? | [-> Hsuf]]; [by left|].
      right. split; [done|]. by apply suffix_cons_r.
    + (* a component is a regular file *)
      destruct IH as (_ & IH & _). destruct (IH eq_refl)
        as (e & -> & [-> | [_ Hex']]); [|congruence].
      split; [done|]. split; [|done]. intros _. eexists.
      split; [done|]. by left.
    + by rewrite (walk_exists _ _ Hw) in Hex.
Qed.

Lemma mkdir_p_outcome (s : fs) (p : path) :
  well_formed s →
  (walk s p = None → mkdir_p s p = (None, s))
  ∧ (walk s p = Some ENOTDIR →
     ∃ e, mkdir_p s p = (Some e, s) ∧ (e = ENOTDIR ∨ e = EEXIST))
  ∧ (walk s p = Some ENOENT →
     ∃ s', mkdir_p s p = (None, s')
           ∧ walk s' p = None ∧ well_formed s' ∧ s ⊆ s'
           ∧ ∀ q n, s' !! q = Some n →
               s !! q = Some n ∨ (n = Dir ∧ q `suffix_of` p)).
Proof.
  intros Hwf. destruct (makedirs_outcome s p Hwf) as (Hdir & Hfile & Hmiss).
  unfold mkdir_p. split; [|split].
  - intros Hw. rewrite (Hdir Hw). rewrite bool_decide_eq_true_2 by done.
    by rewrite (proj2 (isdir_walk s p) Hw).
  - intros Hw. destruct (Hfile Hw) as (e & -> & He).
    assert (path_isdir s p = false) as ->.
    { destruct (path_isdir s p) eqn:Hd; [|done].
      apply isdir_walk in Hd. congruence. }
    rewrite andb_false_r. exists e. split; [done|].
    destruct He as [-> | [-> _]]; [by left|by right].
  - intros Hw. destruct (Hmiss Hw) as (s' & -> & Hrest). by exists s'.
Qed.

(** X24: when [mkdir_p] returns on a well-formed tree, the path is a
    directory, the tree is still well formed, every earlier entry is kept
    as it was, and the only new entries are directories on the way from
    the root to the path. *)
Theorem mkdir_p_creates (s s' : fs) (p : path) :
  well_formed s →
  mkdir_p s p = (None, s') →
  path_isdir s' p = true
  ∧ well_formed s'
  ∧ s ⊆ s'
  ∧ ∀ q n, s' !! q = Some n →
      s !! q = Some n ∨ (n = Dir ∧ q `suffix_of` p).
Proof.
  intros Hwf Hm. destruct (mkdir_p_outcome s p Hwf) as (Hdir & Hfile & Hmiss).
  destruct (walk s p) as [[]|] eqn:Hw.
  - by destruct (walk_not_EEXIST s p).
  - destruct (Hmiss eq_refl) as (s1 & Hm1 & Hw1 & Hwf1 & Hsub & Hnew).
    rewrite Hm in Hm1. injection Hm1 as ->.
    split; [by apply isdir_walk|]. done.
  - destruct (Hfile eq_refl) as (e & He & _). congruence.
  - rewrite (Hdir eq_refl) in Hm. injection Hm as <-.
    split; [by apply isdir_walk|]. split; [done|]. split; [done|].
    intros q n Hq. by left.
Qed.

(** X25: [mkdir_p] on a path that is a directory changes nothing and
    raises nothing, and [mkdir_p] is idempotent: after a call that
    returned, the same call returns again and leaves the tree as it
    is. *)
Theorem mkdir_p_idempotent (s s' : fs) (p : path) :
  well_formed s →
  (path_isdir s p = true → mkdir_p s p = (None, s))
  ∧ (mkdir_p s p = (None, s') → mkdir_p s' p = (None, s')).
Proof.
  intros Hwf. split.
  - intros Hd. apply (mkdir_p_outcome s p Hwf). by apply isdir_walk.
  - intros Hm. destruct (mkdir_p_outcome s p Hwf) as (Hdir & Hfile & Hmiss).
    destruct (walk s p) as [[]|] eqn:Hw.
    + by destruct (walk_not_EEXIST s p).
    + destruct (Hmiss eq_refl) as (s1 & Hm1 & Hw1 & Hwf1 & _).
      rewrite Hm in Hm1. injection Hm1 as ->.
      by apply (mkdir_p_outcome s1 p Hwf1).
    + destruct (Hfile eq_refl) as (e & He & _). congruence.
    + rewrite (Hdir eq_refl) in Hm. injection Hm as <-. by apply Hdir.
Qed.

(** X26: on a well-formed tree [mkdir_p] fails exactly when a component
    of the path is a regular file.  It then raises [OSError] with
    [ENOTDIR] or [EEXIST] and creates nothing; in every other case it
    returns. *)
Theorem mkdir_p_fails_on_files_only (s : fs) (p : path) :
  well_formed s →
  (walk s p = Some ENOTDIR →
   ∃ e, mkdir_p s p = (Some e, s) ∧ (e = ENOTDIR ∨ e = EEXIST))
  ∧ (walk s p ≠ Some ENOTDIR → ∃ s', mkdir_p s p = (None, s')).
Proof.
  intros Hwf. destruct (mkdir_p_outcome s p Hwf) as (Hdir & Hfile & Hmiss).
  split; [exact Hfile|]. intros Hw.
  destruct (walk s p) as [[]|] eqn:Hw'.
  - by destruct (walk_not_EEXIST s p).
  - destruct (Hmiss eq_refl) as (s' & Hm & _). eauto.
  - done.
  - eauto.
Qed.

End directory_tree.

(** ** Instances of the further properties *)

Lemma affine_cache_stays_valid_witness :
  cache_valid ex_U
  ∧ cache_valid (AffineTransform.rev ex_U (PyNum 1%Z) (PyNum 2%Z) PyNone).2.
Proof.
  split; [exact I|].
  apply (affine_cache_stays_valid ex_U (PyNum 1%Z) (PyNum 2%Z) PyNone PyNone
           Float64 I).
  left. reflexivity.
Defined.

Lemma affine_cache_transparent_witness :
  cache_valid ex_U
  ∧ (AffineTransform.rev
       (AffineTransform.rev ex_U (PyNum 1%Z) (PyNum 2%Z) PyNone).2
       (PyNum 3%Z) (PyNum 4%Z) PyNone).1
    = (AffineTransform.rev ex_U (PyNum 3%Z) (PyNum 4%Z) PyNone).1.
Proof.
  split; [exact I|].
  apply (affine_cache_transparent ex_U (PyNum 1%Z) (PyNum 2%Z) PyNone PyNone
           Float64 I _ (or_introl eq_refl)).
Defined.

Lemma affine_singular_never_inverts_witness :
  Affine.is_degenerate (AffineTransform._affine ex_singular) = true
  ∧ AffineTransform.rev ex_singular (PyNum 1%Z) (PyNum 1%Z) PyNone
    = (Raise TransformNotInvertibleError, ex_singular).
Proof.
  assert (Hd : Affine.is_degenerate (AffineTransform._affine ex_singular)
               = true) by reflexivity.
  split; [exact Hd|].
  apply (affine_singular_never_inverts ex_singular (PyNum 1%Z) (PyNum 1%Z)
           PyNone PyNone Float64 Hd I).
Defined.

Lemma affine_add_shifts_input_witness :
  KList ≠ KNdarray
  ∧ ∃ U', AffineTransform.__add__ ex_U (PySeq KList [PyNum 1%Z; PyNum 2%Z])
          = Ok U'
          ∧ AffineTransform.fwd U' (PyNum 5%Z) (PyNum 7%Z) PyNone
            = AffineTransform.fwd ex_U (PyNum (5 + 1)%Z) (PyNum (7 + 2)%Z)
                PyNone.
Proof.
  assert (Hk : KList ≠ KNdarray) by discriminate.
  split; [exact Hk|].
  destruct (@affine_add_shifts_input Z Z_number Z_exact_ring ex_U KList
              1%Z 2%Z Hk) as (U' & Ha & Hf & _).
  exists U'. split; [exact Ha|]. apply Hf.
Defined.

Lemma affine_add_add_witness :
  AffineTransform.__add__ ex_U (PySeq KList [PyNum 1%Z; PyNum 2%Z])
    ≫= (λ U', AffineTransform.__add__ U' (PySeq KTuple [PyNum 3%Z; PyNum 4%Z]))
  = AffineTransform.__add__ ex_U
      (PySeq KList [PyNum (1 + 3)%Z; PyNum (2 + 4)%Z]).
Proof.
  apply (@affine_add_add Z Z_number Z_exact_ring ex_U KList KTuple
           1%Z 2%Z 3%Z 4%Z); discriminate.
Defined.

Lemma from_georef_maps_witness :
  AffineTransform.fwd
    (AffineTransform.from_georef
       {| AffineTransform.translateX := 100%Z; AffineTransform.scaleX := 2%Z;
          AffineTransform.shearX := 0%Z; AffineTransform.translateY := 200%Z;
          AffineTransform.shearY := 0%Z; AffineTransform.scaleY := (-2)%Z;
          AffineTransform.spatialReferenceSystemCode := None |})
    (PyNum 3%Z) (PyNum 4%Z) PyNone
  = Ok (PySeq KTuple [PyNum (3 * 2 + 4 * 0 + 100)%Z;
                      PyNum (3 * 0 + 4 * -2 + 200)%Z]).
Proof.
  apply (@from_georef_maps Z Z_number Z_exact_ring).
Defined.


Lemma shift_must_have_two_entries_witness :
  RatPolyTransform.__sub__ pinv_id ex_T (of_vec [1; 2; 3]%Z) = Raise TypeError
  ∧ AffineTransform.__sub__ ex_U (PyNum 1%Z) = Raise TypeError.
Proof.
  split.
  - apply (shift_must_have_two_entries pinv_id ex_T ex_U (of_vec [1; 2; 3]%Z)).
    intros k items [= _ <-]. discriminate.
  - apply (shift_must_have_two_entries pinv_id ex_T ex_U (PyNum 1%Z)).
    intros k items. discriminate.
Defined.

Lemma init_succeeds_iff_witness :
  (∃ T, RatPolyTransform.__init__ pinv_id
          [RatPolyTransform.lineNumCoefs ex_rpcs;
           RatPolyTransform.sampleNumCoefs ex_rpcs]
          [RatPolyTransform.lineDenCoefs ex_rpcs;
           RatPolyTransform.sampleDenCoefs ex_rpcs]
          [1; 2; 3]%Z [1; 1; 1]%Z [10; 20]%Z [2; 3]%Z None = Ok T)
  ∧ RatPolyTransform.__init__ pinv_id
      [RatPolyTransform.lineNumCoefs ex_rpcs;
       RatPolyTransform.sampleNumCoefs ex_rpcs]
      [RatPolyTransform.lineDenCoefs ex_rpcs;
       RatPolyTransform.sampleDenCoefs ex_rpcs]
      [1; 2; 3]%Z [1; 1; 1]%Z [10; 20; 30]%Z [2; 3]%Z None
    = Raise ValueError
  ∧ RatPolyTransform.__init__ pinv_id [] [] [1; 2; 3]%Z [1; 1; 1]%Z
      [10; 20]%Z [2; 3]%Z None
    = Raise LinAlgError.
Proof.
  assert (Hrows : ∀ (A Pi : mat Z),
            Forall (λ r : vec Z, length r = length (gram A)) (gram A) →
            pinv_id (gram A) = Ok Pi →
            Forall (λ r : vec Z, length r = length (gram A)) Pi).
  { intros A Pi Hsq HPi. exact (pinv_id_square _ _ HPi Hsq). }
  split; [|split].
  - apply (proj1 (init_succeeds_iff pinv_id _ _ _ _ _ _ None
                    (λ Pi, Hrows _ Pi ex_gram_rows))).
    split; [reflexivity|]. split; [reflexivity|].
    eexists. exact ex_gram_pinv.
  - apply (proj1 (proj2 (init_succeeds_iff pinv_id _ _ _ _ _ _ None
                           (λ Pi, Hrows _ Pi ex_gram_rows)))).
    intros [_ Hl]. discriminate Hl.
  - apply (proj2 (proj2 (init_succeeds_iff pinv_id [] [] _ _ _ _ None
                           (λ Pi, Hrows [] Pi (Forall_nil_2 _)))));
      reflexivity.
Defined.

Lemma pinv_id_rows (m Pi : mat Z) :
  pinv_id m = Ok Pi →
  Forall (λ row, length row = length m) m → length Pi = length m.
Proof. by intros ->%pinv_id_Ok. Qed.

Lemma ex_T_rows :
  Forall (λ row : vec Z, length row = 20%nat)
    [RatPolyTransform.lineNumCoefs ex_rpcs;
     RatPolyTransform.sampleNumCoefs ex_rpcs]
  ∧ Forall (λ row : vec Z, length row = 20%nat)
      [RatPolyTransform.lineDenCoefs ex_rpcs;
       RatPolyTransform.sampleDenCoefs ex_rpcs].
Proof. split; by repeat constructor. Qed.




Lemma fwd_ignores_elevation_witness :
  RatPolyTransform.fwd_run ex_T (PySeq KList (PyNum <$> [1; 3]%Z))
    (PySeq KList [PyNum 2%Z; PyNum 4%Z]) (PySeq KList [PyNum 9%Z; PyNone])
  = RatPolyTransform.fwd_run ex_T (PySeq KList (PyNum <$> [1; 3]%Z))
      (PySeq KList [PyNum 2%Z; PyNum 4%Z]) PyNone.
Proof.
  apply (fwd_ignores_elevation ex_T KList KList [1; 3]%Z 0%Z
           (PySeq KList [PyNum 2%Z; PyNum 4%Z]) PyNone
           [PyNum 9%Z; PyNone] eq_refl).
Defined.

Lemma rpc_add_shifts_pixels_witness :
  ∃ T',
    RatPolyTransform.__add__ pinv_id ex_T (PySeq KList [PyNum 1%Z; PyNum 2%Z])
      = Ok T'
    ∧ rev_pixel T' 0 1%Z 2%Z 0%Z = (rev_pixel ex_T 0 1%Z 2%Z 0%Z - 1)%Z
    ∧ rev_pixel T' 1 1%Z 2%Z 0%Z = (rev_pixel ex_T 1 1%Z 2%Z 0%Z - 2)%Z.
Proof.
  destruct (@rpc_add_shifts_pixels Z Z_number Z_exact_ring pinv_id
              _ _ _ _ _ _ _ ex_T KList 1%Z 2%Z ex_T_init eq_refl
              (proj1 ex_T_rows) eq_refl (proj2 ex_T_rows)
              eq_refl eq_refl eq_refl eq_refl)
    as (T' & Ha & Hp & _).
  - discriminate.
  - exists T'. split; [exact Ha|]. apply Hp.
Defined.

Lemma rpc_add_add_witness :
  RatPolyTransform.__add__ pinv_id ex_T (PySeq KList [PyNum 1%Z; PyNum 2%Z])
    = Ok ex_T_shifted
  ∧ RatPolyTransform.__add__ pinv_id ex_T_shifted
      (PySeq KTuple [PyNum 3%Z; PyNum 4%Z])
    = RatPolyTransform.__add__ pinv_id ex_T
        (PySeq KList [PyNum (1 + 3)%Z; PyNum (2 + 4)%Z]).
Proof.
  assert (Ha : RatPolyTransform.__add__ pinv_id ex_T
                 (PySeq KList [PyNum 1%Z; PyNum 2%Z]) = Ok ex_T_shifted)
    by (vm_compute; reflexivity).
  split; [exact Ha|].
  apply (@rpc_add_add Z Z_number Z_exact_ring pinv_id ex_T ex_T_shifted
           KList KTuple 1%Z 2%Z 3%Z 4%Z); [discriminate|discriminate|exact Ha].
Defined.

Lemma rev_result_shape_witness :
  shape <$> RatPolyTransform.rev ex_T
              (PySeq KTuple (PyNum <$> (fst <$> [(1, 2); (3, 4)]%Z)))
              (PySeq KTuple (PyNum <$> (snd <$> [(1, 2); (3, 4)]%Z)))
              (PyNum 0%Z) np_int32
  = Ok [2; 2]%nat.
Proof.
  refine (rev_result_shape pinv_id _ _ _ _ _ _ _ ex_T _ _
            [[(1, 2); (3, 4)]%Z] 1 2 0%Z np_int32 ex_T_init eq_refl
            (proj1 ex_T_rows) eq_refl (proj2 ex_T_rows)
            eq_refl eq_refl eq_refl eq_refl (rev_input_tuple _) _ _ _).
  - split; [reflexivity|]. repeat constructor.
  - discriminate.
  - discriminate.
Defined.

Lemma rev_rejects_unequal_lengths_witness :
  RatPolyTransform.rev ex_T (of_vec [1; 2]%Z) (of_vec [3%Z]) (PyNum 0%Z)
    np_int32
  = Raise ValueError.
Proof.
  apply (rev_rejects_unequal_lengths ex_T [1; 2]%Z [3%Z] 0%Z np_int32).
  discriminate.
Defined.

Lemma rev_with_height_arrays_witness :
  RatPolyTransform.rev ex_T (of_vec [1; 0]%Z) (of_vec [2; 0]%Z)
    (of_vec [5; 7]%Z) np_int32
  = Ok (of_mat [ [np_int32 (rev_pixel ex_T 0 1%Z 2%Z 5%Z);
                  np_int32 (rev_pixel ex_T 0 0%Z 0%Z 7%Z)];
                 [np_int32 (rev_pixel ex_T 1 1%Z 2%Z 5%Z);
                  np_int32 (rev_pixel ex_T 1 0%Z 0%Z 7%Z)] ]).
Proof.
  refine (proj2 (rev_with_height_arrays pinv_id _ _ _ _ _ _ _ ex_T
                   [[(1, 2, 5)]]%Z 1 1 [(1, 2, 5); (0, 0, 7)]%Z np_int32
                   ex_T_init eq_refl (proj1 ex_T_rows) eq_refl
                   (proj2 ex_T_rows) eq_refl eq_refl eq_refl eq_refl
                   _ _ _ _)).
  - split; [reflexivity|]. repeat constructor.
  - discriminate.
  - discriminate.
  - discriminate.
Defined.

Lemma toa_truncates_to_shortest_table_witness :
  ∃ triples,
    calc_toa_gain_offset (λ x, x) (λ x, x) 3%Z (λ _ _ _ _, 1%Z)
      ex_table {[ "WV02_MULTI"%string := [5%Z] ]} ex_table ex_meta
    = Ok triples
    ∧ length triples = 1%nat.
Proof.
  destruct (toa_truncates_to_shortest_table (λ x, x) (λ x, x) 3%Z
              (λ _ _ _ _, 1%Z)
              ex_table {[ "WV02_MULTI"%string := [5%Z] ]} ex_table ex_meta 2
              [2; 3]%Z [5%Z] [2; 3]%Z 10%Z 20%Z 30%Z)
    as (triples & Hc & Hl & _); [reflexivity..|].
  exists triples. split; [exact Hc|exact Hl].
Defined.

Lemma toa_error_cases_witness :
  calc_toa_gain_offset (λ x, x) (λ x, x) 3%Z (λ _ _ _ _, 1%Z)
    ∅ ex_table ex_table ex_meta
  = Raise KeyError
  ∧ calc_toa_gain_offset (λ x, x) (λ x, x) 3%Z (λ _ _ _ _, 1%Z)
      ex_table ∅ ex_table ex_meta
    = Raise KeyError.
Proof.
  split.
  - apply (proj1 (toa_error_cases (λ x, x) (λ x, x) 3%Z (λ _ _ _ _, 1%Z)
                    ∅ ex_table ex_table ex_meta 2 [])).
    reflexivity.
  - apply (proj1 (proj2 (proj2
             (toa_error_cases (λ x, x) (λ x, x) 3%Z (λ _ _ _ _, 1%Z)
                ex_table ∅ ex_table ex_meta 2 [2; 3]%Z))));
      try reflexivity.
    left. reflexivity.
Defined.

Lemma toa_key_ignores_case_witness :
  calc_toa_gain_offset (λ x, x) (λ x, x) 3%Z (λ _ _ _ _, 1%Z)
    ex_table ex_table ex_table
    {| satid := "Wv02"; bandid := "MULTI";
       abscalfactor := [6; 8]%Z; effbandwidth := [3; 2]%Z;
       latlonhae := [10; 20; 30]%Z;
       img_datetime_obj_utc := 0%Z; mean_sun_el := 60%Z |}
  = calc_toa_gain_offset (λ x, x) (λ x, x) 3%Z (λ _ _ _ _, 1%Z)
      ex_table ex_table ex_table ex_meta.
Proof.
  destruct (toa_key_ignores_case (λ x, x) (λ x, x) 3%Z (λ _ _ _ _, 1%Z)
              ex_table ex_table ex_table ex_meta
              {| satid := "Wv02"; bandid := "MULTI";
                 abscalfactor := [6; 8]%Z; effbandwidth := [3; 2]%Z;
                 latlonhae := [10; 20; 30]%Z;
                 img_datetime_obj_utc := 0%Z; mean_sun_el := 60%Z |})
    as [Hsame _]; [reflexivity..|].
  exact Hsame.
Defined.

Lemma toa_new_never_returns_witness :
  calc_toa_gain_offset_new (λ x, x) (λ x, x) 3%Z unit (λ _, Ok ())
    (λ g, g) (λ _ _ _ _, 1%Z) ex_table ex_table ex_table ex_image_meta
  = Raise TypeError.
Proof.
  apply (proj2 (proj2 (toa_new_never_returns (λ x, x) (λ x, x) 3%Z unit
                         (λ _, Ok ()) (λ g, g) (λ _ _ _ _, 1%Z)
                         ex_table ex_table ex_table ex_image_meta))
           () 2%nat [2; 3]%Z [2; 3]%Z [2; 3]%Z);
    reflexivity.
Defined.

Lemma ex_fs_well_formed : well_formed ex_fs.
Proof.
  unfold well_formed, ex_fs. apply map_Forall_insert_2; [reflexivity|].
  apply map_Forall_singleton. reflexivity.
Qed.

Lemma ex_fs_mkdir_p :
  mkdir_p ex_fs ["c"%string; "b"%string; "a"%string] = (None, ex_fs_made).
Proof. vm_compute. reflexivity. Qed.

Lemma mkdir_p_creates_witness :
  well_formed ex_fs
  ∧ mkdir_p ex_fs ["c"%string; "b"%string; "a"%string] = (None, ex_fs_made)
  ∧ os.path_isdir ex_fs_made ["c"%string; "b"%string; "a"%string] = true
  ∧ ex_fs ⊆ ex_fs_made.
Proof.
  split; [exact ex_fs_well_formed|]. split; [exact ex_fs_mkdir_p|].
  destruct (mkdir_p_creates ex_fs ex_fs_made _ ex_fs_well_formed ex_fs_mkdir_p)
    as (Hd & _ & Hsub & _).
  split; [exact Hd|exact Hsub].
Defined.

Lemma mkdir_p_idempotent_witness :
  mkdir_p ex_fs_made ["c"%string; "b"%string; "a"%string] = (None, ex_fs_made)
  ∧ mkdir_p ex_fs ["a"%string] = (None, ex_fs).
Proof.
  split.
  - apply (proj2 (mkdir_p_idempotent ex_fs ex_fs_made _ ex_fs_well_formed)).
    exact ex_fs_mkdir_p.
  - apply (proj1 (mkdir_p_idempotent ex_fs ex_fs _ ex_fs_well_formed)).
    reflexivity.
Defined.

Lemma mkdir_p_fails_on_files_only_witness :
  os.walk ex_fs ["x"%string; "f"%string; "a"%string] = Some os.ENOTDIR
  ∧ ∃ e, mkdir_p ex_fs ["x"%string; "f"%string; "a"%string] = (Some e, ex_fs).
Proof.
  split; [reflexivity|].
  destruct (proj1 (mkdir_p_fails_on_files_only ex_fs
                     ["x"%string; "f"%string; "a"%string] ex_fs_well_formed)
              eq_refl) as (e & He & _).
  exists e. exact He.
Defined.
